(** * A proof-of-work ledger in JavaScript, embedded in Rocq

    Shallow embedding of [blockchain.js]: the classes [Transaction], [Block]
    and [Blockchain], the SHA-256 digest the blocks are sealed with, and the
    properties of hashing, mining, validation, intake and balance replay.

    Conventions of the embedding.
    - A JavaScript string is the list of bytes of its UTF-8 encoding (what
      [hash.update] feeds to SHA-256), held in a Rocq [string].
    - [Date.now()] is an input: every constructor or method that reads the
      clock takes the value read as an argument.
    - A number is an IEEE 754 binary64 value; sums and differences round
      to the nearest double and JSON prints the shortest decimal that reads
      back as the double.
    - The ledger holds values: a block holds its transactions, the chain its
      blocks.  No method assigns to a field of a transaction or of a sealed
      block, so the methods cannot tell whether two slots hold one object; an
      assignment made from outside can, and is modelled on the slots the
      object sits in ([assignAmount]).  The one array that the program hands
      over, [pendingTransactions] to the block being mined, is replaced by a
      fresh array before the call returns.
    - A method of [Blockchain] is a function from the ledger before the call
      to the completion, the ledger after the call and the lines written to
      the console.  The only loop that may run forever, the nonce search,
      carries a bound on the number of iterations and yields [None] when the
      bound is reached. *)

From Stdlib Require Import NArith ZArith String Ascii Lia.
From Stdlib Require Import DecimalString DecimalZ.
From Stdlib Require Floats.
From stdpp Require Import base option list strings.
Import ListNotations.

(** The double quote character, by its code. *)
Definition dq : ascii := "034"%char.

(** ** SHA-256 (FIPS 180-4), as Node's [crypto.createHash('sha256')] computes it *)

Module SHA256.
Local Open Scope N_scope.

(** 32-bit words are numbers below 2^32; sums wrap around. *)
Definition w32 (x : N) : N := N.land x 0xFFFFFFFF.
Definition add32 (x y : N) : N := w32 (x + y).
Definition rotr (n x : N) : N := N.lor (N.shiftr x n) (w32 (N.shiftl x (32 - n))).
Definition shr (n x : N) : N := N.shiftr x n.
Definition not32 (x : N) : N := N.lxor x 0xFFFFFFFF.
Definition Ch (x y z : N) : N := N.lxor (N.land x y) (N.land (not32 x) z).
Definition Maj (x y z : N) : N :=
  N.lxor (N.land x y) (N.lxor (N.land x z) (N.land y z)).
Definition Sigma0 (x : N) : N := N.lxor (rotr 2 x) (N.lxor (rotr 13 x) (rotr 22 x)).
Definition Sigma1 (x : N) : N := N.lxor (rotr 6 x) (N.lxor (rotr 11 x) (rotr 25 x)).
Definition sigma0 (x : N) : N := N.lxor (rotr 7 x) (N.lxor (rotr 18 x) (shr 3 x)).
Definition sigma1 (x : N) : N := N.lxor (rotr 17 x) (N.lxor (rotr 19 x) (shr 10 x)).

(** The constants of the standard are defined, not tabulated: the round
    constants are the first 32 bits of the fractional parts of the cube roots
    of the first 64 primes, the initial hash value those of the square roots
    of the first 8 primes. *)
Definition is_prime (n : N) : bool :=
  (1 <? n) && forallb (fun d => negb (n mod N.of_nat d =? 0)) (seq 2 (N.to_nat n - 2)).

Definition primes (count : nat) : list N :=
  firstn count (List.filter is_prime (map N.of_nat (seq 2 310))).

(** The largest [r] below 2^bits with [r^3 <= n], one bit at a time. *)
Fixpoint cube_root (bits : nat) (n r : N) : N :=
  match bits with
  | O => r
  | S k =>
      let r' := r + N.shiftl 1 (N.of_nat k) in
      cube_root k n (if r' * r' * r' <=? n then r' else r)
  end.

Definition cube_root_fraction (p : N) : N := w32 (cube_root 36 (N.shiftl p 96) 0).
Definition square_root_fraction (p : N) : N := w32 (N.sqrt (N.shiftl p 64)).

Definition K : list N := Eval vm_compute in map cube_root_fraction (primes 64).

Definition H0 : list N := Eval vm_compute in map square_root_fraction (primes 8).

(** The [n] low bytes of [x], most significant first. *)
Fixpoint be_bytes (n : nat) (x : N) : list N :=
  match n with
  | O => []
  | S k => N.land (N.shiftr x (8 * N.of_nat k)) 0xFF :: be_bytes k x
  end.

(** Padding: a 1 bit, zeros up to 56 modulo 64 bytes, the bit length on 8 bytes. *)
Definition pad (msg : list N) : list N :=
  let len := N.of_nat (length msg) in
  let zeros := N.to_nat ((119 - len mod 64) mod 64) in
  msg ++ 0x80 :: repeat 0 zeros ++ be_bytes 8 (8 * len).

Fixpoint words (n : nat) (bs : list N) : list N :=
  match n, bs with
  | S k, b0 :: b1 :: b2 :: b3 :: rest =>
      (N.shiftl b0 24 + N.shiftl b1 16 + N.shiftl b2 8 + b3) :: words k rest
  | _, _ => []
  end.

(** Message schedule; [rev_w] holds W[t-1], W[t-2], ... and is extended by
    [n] words. *)
Fixpoint schedule (n : nat) (rev_w : list N) : list N :=
  match n with
  | O => rev rev_w
  | S k =>
      let w := add32 (add32 (sigma1 (nth 1 rev_w 0)) (nth 6 rev_w 0))
                     (add32 (sigma0 (nth 14 rev_w 0)) (nth 15 rev_w 0)) in
      schedule k (w :: rev_w)
  end.

Record regs := Regs { ra : N; rb : N; rc : N; rd : N; re : N; rf : N; rg : N; rh : N }.

Definition round (s : regs) (kw : N * N) : regs :=
  let t1 := add32 (add32 (add32 (rh s) (Sigma1 (re s))) (Ch (re s) (rf s) (rg s)))
                  (add32 (fst kw) (snd kw)) in
  let t2 := add32 (Sigma0 (ra s)) (Maj (ra s) (rb s) (rc s)) in
  Regs (add32 t1 t2) (ra s) (rb s) (rc s) (add32 (rd s) t1) (re s) (rf s) (rg s).

Definition compress (h : regs) (block : list N) : regs :=
  let w := schedule 48 (rev (words 16 block)) in
  let s := fold_left round (combine K w) h in
  Regs (add32 (ra h) (ra s)) (add32 (rb h) (rb s)) (add32 (rc h) (rc s))
       (add32 (rd h) (rd s)) (add32 (re h) (re s)) (add32 (rf h) (rf s))
       (add32 (rg h) (rg s)) (add32 (rh h) (rh s)).

Fixpoint blocks (n : nat) (h : regs) (bs : list N) : regs :=
  match n with
  | O => h
  | S k => blocks k (compress h (firstn 64 bs)) (skipn 64 bs)
  end.

Definition init : regs :=
  Regs (nth 0 H0 0) (nth 1 H0 0) (nth 2 H0 0) (nth 3 H0 0)
       (nth 4 H0 0) (nth 5 H0 0) (nth 6 H0 0) (nth 7 H0 0).

Definition digest (msg : list N) : list N :=
  let p := pad msg in
  let h := blocks (Nat.div (length p) 64) init p in
  flat_map (be_bytes 4) [ra h; rb h; rc h; rd h; re h; rf h; rg h; rh h].

(** [digest('hex')]: two lower-case hexadecimal digits per byte. *)
Definition hex_digit (d : N) : ascii :=
  ascii_of_N (if d <? 10 then 48 + d else 87 + d).

Definition hex_byte (b : N) : list ascii :=
  [hex_digit (N.shiftr b 4); hex_digit (N.land b 0xF)].

Definition hex (bs : list N) : string := string_of_list_ascii (flat_map hex_byte bs).

Definition sha256_hex (s : string) : string :=
  hex (digest (map N_of_ascii (list_ascii_of_string s))).
End SHA256.

(** ** JavaScript values of the ledger *)

(** Numbers are IEEE 754 binary64 values.  A finite number other than -0 is
    [Dyadic m e], the number m * 2^e, where [m] is odd, or [m = 0 = e] for
    +0; a double has at most 53 bits in [m], [e >= -1074] and a magnitude
    below 2^1024, and rounding returns a double, so that sums and
    differences are doubles.  Amounts, rewards and balances are numbers of
    this type.  What the program counts or
    reads off the clock (index, nonce, timestamp) is an integer well below
    2^53 and is held as [nat], [N] or [Z]. *)
Inductive JsNumber : Type :=
  | Dyadic (m : Z) (e : Z)
  | NegZero
  | NaN
  | PosInfinity
  | NegInfinity.

(** Rounding to the nearest double, ties to the even significand. *)
Module Double.
Local Open Scope Z_scope.

(** [p * 2^e] with the factors of two moved into the exponent. *)
Fixpoint oddPart (p : positive) (e : Z) : positive * Z :=
  match p with
  | xO q => oddPart q (e + 1)
  | _ => (p, e)
  end.

Definition signed (negative : bool) (p : positive) : Z :=
  if negative then Zneg p else Zpos p.

Definition zero (negative : bool) : JsNumber :=
  if negative then NegZero else Dyadic 0 0.

Definition infinity (negative : bool) : JsNumber :=
  if negative then NegInfinity else PosInfinity.

(** The number of magnitude [p * 2^e], a multiple of the last place of
    its binade: a double unless its leading bit is beyond 2^1023. *)
Definition pack (negative : bool) (p : positive) (e : Z) : JsNumber :=
  let (m, k) := oddPart p e in
  if k + Z.log2 (Zpos m) <=? 1023 then Dyadic (signed negative m) k
  else infinity negative.

(** The double nearest to the magnitude [p * 2^e].  [q] is the exponent of
    the last place: 52 below the leading bit, and never below -1074, where
    the subnormal numbers are. *)
Definition roundMagnitude (negative : bool) (p : positive) (e : Z) : JsNumber :=
  let (m, k) := oddPart p e in
  let q := Z.max (k + Z.log2 (Zpos m) - 52) (-1074) in
  if q <=? k then pack negative m k
  else
    let n := Z.shiftr (Zpos m) (q - k) in
    let r := Zpos m - Z.shiftl n (q - k) in
    let half := Z.shiftl 1 (q - k - 1) in
    let n' := if (half <? r) || ((r =? half) && Z.odd n) then n + 1 else n in
    match n' with
    | Zpos p' => pack negative p' q
    | _ => zero negative
    end.

(** The double nearest to [s * 2^e]. *)
Definition round (s e : Z) : JsNumber :=
  match s with
  | Z0 => Dyadic 0 0
  | Zpos p => roundMagnitude false p e
  | Zneg p => roundMagnitude true p e
  end.
End Double.

(** The number an integer literal denotes: the double nearest to [z], which
    is [z] itself up to magnitude 2^53. *)
Definition Finite (z : Z) : JsNumber := Double.round z 0.

Module Number.
(** [n.toString()] of an integer that a double holds exactly and that is
    below 10^21 in magnitude, as every index, nonce and clock reading is. *)
Definition toString (z : Z) : string := NilEmpty.string_of_int (Z.to_int z).

(** [x + y]: the exact sum, rounded.  An exact sum of zero is +0, except
    that (-0) + (-0) is -0. *)
Definition add (x y : JsNumber) : JsNumber :=
  match x, y with
  | NaN, _ | _, NaN => NaN
  | PosInfinity, NegInfinity | NegInfinity, PosInfinity => NaN
  | PosInfinity, _ | _, PosInfinity => PosInfinity
  | NegInfinity, _ | _, NegInfinity => NegInfinity
  | NegZero, _ => y
  | _, NegZero => x
  | Dyadic m1 e1, Dyadic m2 e2 =>
      let e := Z.min e1 e2 in
      Double.round (m1 * 2 ^ (e1 - e) + m2 * 2 ^ (e2 - e)) e
  end.

(** [-x] *)
Definition neg (x : JsNumber) : JsNumber :=
  match x with
  | Dyadic 0 _ => NegZero
  | Dyadic m e => Dyadic (- m) e
  | NegZero => Dyadic 0 0
  | NaN => NaN
  | PosInfinity => NegInfinity
  | NegInfinity => PosInfinity
  end.

(** [x - y], which in binary64 arithmetic is [x + (-y)]. *)
Definition sub (x y : JsNumber) : JsNumber := add x (neg y).

(** [x <= 0]; every comparison with NaN is false. *)
Definition le0 (x : JsNumber) : bool :=
  match x with
  | Dyadic m _ => (m <=? 0)%Z
  | NegZero => true
  | NaN => false
  | PosInfinity => false
  | NegInfinity => true
  end.

(** [x < 0] *)
Definition lt0 (x : JsNumber) : bool :=
  match x with
  | Dyadic m _ => (m <? 0)%Z
  | NegZero => false
  | NaN => false
  | PosInfinity => false
  | NegInfinity => true
  end.

(** [x > 0] *)
Definition gt0 (x : JsNumber) : bool :=
  match x with
  | Dyadic m _ => (0 <? m)%Z
  | PosInfinity => true
  | _ => false
  end.

(** Whether the term is a double: of the form and in the range stated
    above. *)
Definition isDouble (x : JsNumber) : bool :=
  match x with
  | Dyadic 0 e => (e =? 0)%Z
  | Dyadic m e =>
      (Z.odd m && (Z.log2 (Z.abs m) <=? 52) && (-1074 <=? e)
       && (e + Z.log2 (Z.abs m) <=? 1023))%Z
  | _ => true
  end.

(** The integer that an integer-valued double is. *)
Definition toZ (x : JsNumber) : Z :=
  match x with
  | Dyadic m e => (m * 2 ^ e)%Z
  | _ => 0%Z
  end.

(** *** Number::toString, radix 10

    The digits printed are those of the shortest decimal [s * 10^(n-k)],
    [s] of [k] digits, that rounds to the double, and among those the one
    nearest to it. *)

(** [m * 2^a * 10^b] against [n * 2^c * 10^d]. *)
Definition compareScaled (m a b n c d : Z) : comparison :=
  let a0 := Z.min a c in
  let b0 := Z.min b d in
  (m * 2 ^ (a - a0) * 10 ^ (b - b0) ?= n * 2 ^ (c - a0) * 10 ^ (d - b0))%Z.

Definition ltScaled (m a b n c d : Z) : bool :=
  match compareScaled m a b n c d with Lt => true | _ => false end.

Definition leScaled (m a b n c d : Z) : bool :=
  match compareScaled m a b n c d with Gt => false | _ => true end.

(** The least [n] from a starting value on with [M * 2^q < 10^n]. *)
Fixpoint decimalExponent (fuel : nat) (M q n : Z) : Z :=
  match fuel with
  | O => n
  | S k => if ltScaled M q 0 1 0 n then n else decimalExponent k M q (n + 1)%Z
  end.

(** Whether the decimal [s * 10^j] rounds to the double [M * 2^q], [M] its
    53-bit significand.  In quarters of the last place the double is [4 * M]
    and the numbers that round to it reach 2 quarters up and [below]
    quarters down, the ends included when [M] is even. *)
Definition roundsTo (M q below s j : Z) : bool :=
  if Z.even M
  then leScaled (4 * M - below) (q - 2) 0 s 0 j && leScaled s 0 j (4 * M + 2) (q - 2) 0
  else ltScaled (4 * M - below) (q - 2) 0 s 0 j && ltScaled s 0 j (4 * M + 2) (q - 2) 0.

(** The digits [s], their number [k] and the exponent [n], trying [k],
    [k + 1], ... digits: with [k] digits the candidates are the two decimals
    that enclose the double. *)
Fixpoint shortest (fuel : nat) (M q below n0 k : Z) : Z * Z * Z :=
  match fuel with
  | O => (0, 1, 0)%Z
  | S fuel' =>
      let j := (n0 - k)%Z in
      let low := ((M * 2 ^ Z.max q 0 * 10 ^ Z.max (- j) 0)
                  / (2 ^ Z.max (- q) 0 * 10 ^ Z.max j 0))%Z in
      let high := (low + 1)%Z in
      let okLow := roundsTo M q below low j in
      let okHigh := roundsTo M q below high j in
      let pickHigh :=
        if okLow && okHigh
        then match compareScaled (2 * M) q 0 (2 * low + 1) 0 j with
             | Lt => false
             | Gt => true
             | Eq => Z.odd low
             end
        else okHigh in
      if okLow || okHigh
      then if pickHigh
           then if (high =? 10 ^ k)%Z then (10 ^ (k - 1), k, n0 + 1)%Z else (high, k, n0)
           else (low, k, n0)
      else shortest fuel' M q below n0 (k + 1)%Z
  end.

Fixpoint zeros (n : nat) : string :=
  match n with
  | O => EmptyString
  | S k => String "0" (zeros k)
  end.

Definition take (n : Z) (s : string) : string := substring 0 (Z.to_nat n) s.

Definition drop (n : Z) (s : string) : string :=
  substring (Z.to_nat n) (String.length s - Z.to_nat n) s.

(** Where the point goes: plain digits up to 21 integer digits and down to
    6 zeros after the point, exponent form beyond. *)
Definition layout (digits : string) (k n : Z) : string :=
  if ((k <=? n) && (n <=? 21))%Z then digits +:+ zeros (Z.to_nat (n - k))
  else if ((0 <? n) && (n <=? 21))%Z then take n digits +:+ "." +:+ drop n digits
  else if ((-6 <? n) && (n <=? 0))%Z then "0." +:+ zeros (Z.to_nat (- n)) +:+ digits
  else
    (if (k =? 1)%Z then digits else take 1 digits +:+ "." +:+ drop 1 digits)
    +:+ "e" +:+ (if (0 <? n)%Z then "+" else "-") +:+ toString (Z.abs (n - 1)).

(** The magnitude [p * 2^e] of a double.  The decimal exponent is searched
    from an estimate that is at most 2 too small (1233/4096 is just below
    the logarithm of 2); 17 digits always suffice. *)
Definition printMagnitude (p : positive) (e : Z) : string :=
  let top := (e + Z.log2 (Zpos p))%Z in
  let q := Z.max (top - 52) (-1074) in
  let M := (Zpos p * 2 ^ (e - q))%Z in
  let below := if ((M =? 2 ^ 52) && (-1074 <? q))%Z then 1%Z else 2%Z in
  let n0 := decimalExponent 3 M q (top * 1233 / 4096) in
  let '(s, k, n) := shortest 17 M q below n0 1 in
  layout (toString s) k n.

(** [x.toString()] *)
Definition print (x : JsNumber) : string :=
  match x with
  | Dyadic 0 _ => "0"
  | Dyadic (Zpos p) e => printMagnitude p e
  | Dyadic (Zneg p) e => "-" +:+ printMagnitude p e
  | NegZero => "0"
  | NaN => "NaN"
  | PosInfinity => "Infinity"
  | NegInfinity => "-Infinity"
  end.
End Number.

(** An address is [null] or a string. *)
Definition Address : Type := option string.

(** [a === b] on addresses. *)
Definition strictEq (a b : Address) : bool :=
  match a, b with
  | None, None => true
  | Some s, Some t => String.eqb s t
  | _, _ => false
  end.

(** [!a]: [null] and the empty string are falsy. *)
Definition falsy (a : Address) : bool :=
  match a with
  | None => true
  | Some s => String.eqb s EmptyString
  end.

(** ** class Transaction *)

Module Transaction.
Record t : Type := mk {
  sender : Address;
  recipient : Address;
  amount : JsNumber;
  timestamp : Z
}.

(** [new Transaction(sender, recipient, amount)], the clock reading [now]. *)
Definition new (now : Z) (sender recipient : Address) (amount : JsNumber) : t :=
  mk sender recipient amount now.

(** [tx.amount = v] *)
Definition setAmount (v : JsNumber) (tx : t) : t :=
  mk (sender tx) (recipient tx) v (timestamp tx).
End Transaction.

(** ** JSON.stringify, on the values the ledger serialises *)

Module JSON.
Definition hex4 (n : N) : string :=
  String (SHA256.hex_digit (N.shiftr n 4)) (String (SHA256.hex_digit (N.land n 15)) EmptyString).

(** One character of a quoted string. *)
Definition quoteChar (c : ascii) : string :=
  let n := N_of_ascii c in
  if (n =? 34)%N then "\" +:+ String dq EmptyString
  else if (n =? 92)%N then "\\"
  else if (n =? 8)%N then "\b"
  else if (n =? 12)%N then "\f"
  else if (n =? 10)%N then "\n"
  else if (n =? 13)%N then "\r"
  else if (n =? 9)%N then "\t"
  else if (n <? 32)%N then "\u00" +:+ hex4 n
  else String c EmptyString.

Fixpoint quoteBody (s : string) : string :=
  match s with
  | EmptyString => EmptyString
  | String c rest => quoteChar c +:+ quoteBody rest
  end.

Definition quote (s : string) : string :=
  String dq (quoteBody s +:+ String dq EmptyString).

Definition ofAddress (a : Address) : string :=
  match a with
  | None => "null"
  | Some s => quote s
  end.

(** Finite numbers print as [toString] prints them, the non-finite ones as
    [null]. *)
Definition ofNumber (x : JsNumber) : string :=
  match x with
  | NaN | PosInfinity | NegInfinity => "null"
  | _ => Number.print x
  end.

(** What follows the amount inside a serialised transaction. *)
Definition afterAmount (tx : Transaction.t) : string :=
  "," +:+ quote "timestamp" +:+ ":" +:+ Number.toString (Transaction.timestamp tx) +:+ "}".

(** What precedes the amount: keys come in creation order. *)
Definition beforeAmount (tx : Transaction.t) : string :=
  "{" +:+ quote "sender" +:+ ":" +:+ ofAddress (Transaction.sender tx)
  +:+ "," +:+ quote "recipient" +:+ ":" +:+ ofAddress (Transaction.recipient tx)
  +:+ "," +:+ quote "amount" +:+ ":".

Definition ofTransaction (tx : Transaction.t) : string :=
  beforeAmount tx +:+ ofNumber (Transaction.amount tx) +:+ afterAmount tx.

Fixpoint elements (txs : list Transaction.t) : string :=
  match txs with
  | [] => EmptyString
  | [tx] => ofTransaction tx
  | tx :: rest => ofTransaction tx +:+ "," +:+ elements rest
  end.

(** [JSON.stringify(transactions)] *)
Definition stringify (txs : list Transaction.t) : string :=
  "[" +:+ elements txs +:+ "]".
End JSON.

(** ** class Block *)

Module Block.
Record t : Type := mk {
  index : nat;
  timestamp : Z;
  transactions : list Transaction.t;
  previousHash : string;
  nonce : N;
  hash : string
}.

(** The string handed to SHA-256: the fields other than [hash], printed and
    concatenated. *)
Definition preimage (index : nat) (timestamp : Z) (transactions : list Transaction.t)
    (previousHash : string) (nonce : N) : string :=
  Number.toString (Z.of_nat index) +:+ Number.toString timestamp
  +:+ JSON.stringify transactions +:+ previousHash
  +:+ Number.toString (Z.of_N nonce).

(** The hash as a function of the five hashed fields. *)
Definition hashOf (index : nat) (timestamp : Z) (transactions : list Transaction.t)
    (previousHash : string) (nonce : N) : string :=
  SHA256.sha256_hex (preimage index timestamp transactions previousHash nonce).

(** [this.calculateHash()] *)
Definition calculateHash (b : t) : string :=
  hashOf (index b) (timestamp b) (transactions b) (previousHash b) (nonce b).

(** [new Block(index, timestamp, transactions, previousHash)] *)
Definition new (index : nat) (timestamp : Z) (transactions : list Transaction.t)
    (previousHash : string) : t :=
  mk index timestamp transactions previousHash 0
     (hashOf index timestamp transactions previousHash 0).

(** ['0'.repeat(n)] *)
Fixpoint zeros (n : nat) : string :=
  match n with
  | O => EmptyString
  | S k => String "0" (zeros k)
  end.

(** The loop test negated:
    [hash.substring(0, difficulty) === targetPrefix]. *)
Definition meetsTarget (difficulty : nat) (h : string) : bool :=
  String.eqb (substring 0 difficulty h) (zeros difficulty).

(** [this.nonce++] on a double: exact below 2^53, where adding one no longer
    changes the value. *)
Definition increment (n : N) : N :=
  if (n <? 2 ^ 53)%N then (n + 1)%N else n.

(** One turn of the loop body: [this.nonce++; this.hash = this.calculateHash()]. *)
Definition nextAttempt (b : t) : t :=
  let n := increment (nonce b) in
  mk (index b) (timestamp b) (transactions b) (previousHash b) n
     (hashOf (index b) (timestamp b) (transactions b) (previousHash b) n).

(** The [while] loop of [mineBlock], at most [fuel] turns of its body. *)
Fixpoint search (fuel : nat) (difficulty : nat) (b : t) : option t :=
  if meetsTarget difficulty (hash b) then Some b
  else match fuel with
       | O => None
       | S k => search k difficulty (nextAttempt b)
       end.

Definition startMessage (b : t) : string :=
  "Mining block " +:+ Number.toString (Z.of_nat (index b)) +:+ "...".

Definition minedMessage (b : t) : string :=
  "Block " +:+ Number.toString (Z.of_nat (index b)) +:+ " mined! Hash: " +:+ hash b.

(** [this.mineBlock(difficulty)]: the block after the call and the two lines
    logged, or [None] when the loop is still running after [fuel] turns. *)
Definition mineBlock (fuel : nat) (difficulty : nat) (b : t) : option (t * list string) :=
  match search fuel difficulty b with
  | Some b' => Some (b', [startMessage b; minedMessage b'])
  | None => None
  end.

(** [block.transactions[j].amount = v] when the transaction object sits in
    that slot and in no other; [None] is the TypeError of an index out of
    range. *)
Definition setAmount (j : nat) (v : JsNumber) (b : t) : option t :=
  match transactions b !! j with
  | Some _ =>
      Some (mk (index b) (timestamp b)
               (alter (Transaction.setAmount v) j (transactions b))
               (previousHash b) (nonce b) (hash b))
  | None => None
  end.
End Block.

(** ** class Blockchain *)

Module Blockchain.
Record t : Type := mk {
  chain : list Block.t;
  difficulty : nat;
  pendingTransactions : list Transaction.t;
  miningReward : JsNumber
}.

(** *** Methods: state, exceptions, console *)

Inductive Completion (A : Type) : Type :=
  | Normal (a : A)
  | Throw (message : string).
Arguments Normal {A} a.
Arguments Throw {A} message.

Record Outcome (A : Type) : Type := mkOutcome {
  completion : Completion A;
  after : t;
  console : list string
}.
Arguments mkOutcome {A} completion after console.
Arguments completion {A} o.
Arguments after {A} o.
Arguments console {A} o.

(** [None]: the call has not returned within the iteration bound. *)
Definition Method (A : Type) : Type := t -> option (Outcome A).

Definition ret {A : Type} (a : A) : Method A :=
  fun s => Some (mkOutcome (Normal a) s []).

Definition bind {A B : Type} (m : Method A) (f : A -> Method B) : Method B :=
  fun s =>
    match m s with
    | None => None
    | Some (mkOutcome (Throw e) s1 o1) => Some (mkOutcome (Throw e) s1 o1)
    | Some (mkOutcome (Normal a) s1 o1) =>
        match f a s1 with
        | None => None
        | Some (mkOutcome c s2 o2) => Some (mkOutcome c s2 (o1 ++ o2))
        end
    end.

#[global] Instance Method_ret : MRet Method := @ret.
#[global] Instance Method_bind : MBind Method := fun A B f m => bind m f.

(** Read a field of [this]. *)
Definition gets {A : Type} (field : t -> A) : Method A :=
  fun s => Some (mkOutcome (Normal (field s)) s []).

(** Assign to fields of [this]. *)
Definition modify (f : t -> t) : Method unit :=
  fun s => Some (mkOutcome (Normal tt) (f s) []).

(** [throw new Error(message)] *)
Definition throw {A : Type} (message : string) : Method A :=
  fun s => Some (mkOutcome (Throw message) s []).

(** [console.log(line)] *)
Definition log (line : string) : Method unit :=
  fun s => Some (mkOutcome (Normal tt) s [line]).

(** A call of [block.mineBlock], which touches the block and the console
    but no field of [this]. *)
Definition mining (r : option (Block.t * list string)) : Method Block.t :=
  fun s =>
    match r with
    | Some (b, lines) => Some (mkOutcome (Normal b) s lines)
    | None => None
    end.

(** *** The class *)

(** [_createGenesisBlock()] *)
Definition createGenesisBlock (now : Z) : Block.t :=
  Block.new 0 now [] "0".

(** [new Blockchain()] *)
Definition new (now : Z) : t :=
  mk [createGenesisBlock now] 4 [] (Finite 100).

(** [getLastBlock()]: [this.chain[this.chain.length - 1]].  [None] is
    [undefined], what an empty array has at index -1; on natural numbers
    the index of an empty chain is 0, where it has no element either. *)
Definition getLastBlock : Method (option Block.t) :=
  c ← gets chain;
  ret (c !! (length c - 1)).

Definition invalidTransaction : string :=
  "Invalid transaction: must have sender, recipient, and positive amount".

(** [this.pendingTransactions.push(tx)] *)
Definition pushPending (tx : Transaction.t) (s : t) : t :=
  mk (chain s) (difficulty s) (pendingTransactions s ++ [tx]) (miningReward s).

(** [addTransaction(tx)] *)
Definition addTransaction (tx : Transaction.t) : Method unit :=
  if falsy (Transaction.sender tx) || falsy (Transaction.recipient tx)
     || Number.le0 (Transaction.amount tx)
  then throw invalidTransaction
  else modify (pushPending tx).

(** [this.chain.push(block)] *)
Definition pushBlock (b : Block.t) (s : t) : t :=
  mk (chain s ++ [b]) (difficulty s) (pendingTransactions s) (miningReward s).

(** [this.pendingTransactions = txs] *)
Definition setPending (txs : list Transaction.t) (s : t) : t :=
  mk (chain s) (difficulty s) txs (miningReward s).

Definition undefinedHash : string :=
  "TypeError: Cannot read properties of undefined (reading 'hash')".

(** [minePendingTransactions(minerAddress)].  [blockTime] is the clock read
    for the block, [rewardTime] the clock read for the reward transaction,
    [fuel] bounds the turns of the nonce search. *)
Definition minePendingTransactions (fuel : nat) (blockTime rewardTime : Z)
    (minerAddress : Address) : Method unit :=
  c ← gets chain;
  pending ← gets pendingTransactions;
  last ← getLastBlock;
  match last with
  | None => throw undefinedHash
  | Some lastBlock =>
      let block := Block.new (length c) blockTime pending (Block.hash lastBlock) in
      d ← gets difficulty;
      mined ← mining (Block.mineBlock fuel d block);
      modify (pushBlock mined);;
      reward ← gets miningReward;
      modify (setPending [Transaction.new rewardTime None minerAddress reward])
  end.

Definition corruptedMessage (i : nat) : string :=
  "Block " +:+ Number.toString (Z.of_nat i) +:+ " data corrupted - hash mismatch".

Definition brokenLinkMessage (i : nat) : string :=
  "Block " +:+ Number.toString (Z.of_nat i) +:+ " has broken chain link".

Definition undefinedBlock : string :=
  "TypeError: Cannot read properties of undefined".

(** The [for] loop of [validateChain] from index [i], with [turns] turns
    left before [i] reaches [this.chain.length]. *)
Fixpoint validateFrom (turns : nat) (i : nat) : Method bool :=
  match turns with
  | O => ret true
  | S k =>
      c ← gets chain;
      match c !! i, c !! (i - 1) with
      | Some current, Some previous =>
          if negb (String.eqb (Block.hash current) (Block.calculateHash current))
          then log (corruptedMessage i);; ret false
          else if negb (String.eqb (Block.previousHash current) (Block.hash previous))
          then log (brokenLinkMessage i);; ret false
          else validateFrom k (S i)
      | _, _ => throw undefinedBlock
      end
  end.

(** [validateChain()] *)
Definition validateChain : Method bool :=
  c ← gets chain;
  validateFrom (length c - 1) 1.

(** The body of the inner loop of [getBalance]. *)
Definition applyTransaction (address : Address) (balance : JsNumber)
    (tx : Transaction.t) : JsNumber :=
  let balance :=
    if strictEq (Transaction.sender tx) address
    then Number.sub balance (Transaction.amount tx) else balance in
  if strictEq (Transaction.recipient tx) address
  then Number.add balance (Transaction.amount tx) else balance.

(** The body of the outer loop. *)
Definition applyBlock (address : Address) (balance : JsNumber) (b : Block.t) : JsNumber :=
  fold_left (applyTransaction address) (Block.transactions b) balance.

(** [getBalance(address)] *)
Definition getBalance (address : Address) : Method JsNumber :=
  c ← gets chain;
  ret (fold_left (applyBlock address) c (Finite 0)).

(** [ledger.chain[i].transactions[j].amount = v], an assignment made from
    outside the class, when the transaction object sits in that slot and in
    no other (see [assignAmount] below for an object that sits in several);
    [None] is the TypeError of an index out of range. *)
Definition tamper (i j : nat) (v : JsNumber) (s : t) : option t :=
  match chain s !! i with
  | Some b =>
      match Block.setAmount j v b with
      | Some b' => Some (mk (<[i := b']> (chain s)) (difficulty s)
                            (pendingTransactions s) (miningReward s))
      | None => None
      end
  | None => None
  end.
End Blockchain.

(** ** Transaction objects that sit in several places

    An array slot holds a reference.  [addTransaction] pushes the caller's
    object, [minePendingTransactions] hands the pending array to the block,
    and nothing copies a transaction: an object submitted twice sits in two
    slots, of the same or of different blocks, or of a block and the pending
    array.  The ledger of the embedding holds in every slot the value of the
    object that sits there; an object is told by the slots it sits in, and an
    assignment to one of its fields shows in all of them. *)

Inductive Slot : Type :=
  | InBlock (i j : nat)
  | InPending (j : nat).

Definition sameSlot (a b : Slot) : bool :=
  match a, b with
  | InBlock i j, InBlock i' j' => (i =? i') && (j =? j')
  | InPending j, InPending j' => j =? j'
  | _, _ => false
  end.

(** The object sits in the slot. *)
Definition sitsIn (object : list Slot) (slot : Slot) : bool :=
  existsb (sameSlot slot) object.

(** [chain[i].transactions[j]] and [pendingTransactions[j]] *)
Definition slotValue (s : Blockchain.t) (slot : Slot) : option Transaction.t :=
  match slot with
  | InBlock i j => Blockchain.chain s !! i ≫= fun b => Block.transactions b !! j
  | InPending j => Blockchain.pendingTransactions s !! j
  end.

(** An array after the assignment, [slotOf j] being its slot [j]. *)
Definition overwriteAmounts (object : list Slot) (slotOf : nat -> Slot) (v : JsNumber)
    (txs : list Transaction.t) : list Transaction.t :=
  imap (fun j tx => if sitsIn object (slotOf j) then Transaction.setAmount v tx else tx) txs.

(** The ledger after [tx.amount = v], [tx] the object that sits in the slots
    [object]: no hash is recomputed. *)
Definition assignAmount (object : list Slot) (v : JsNumber) (s : Blockchain.t)
    : Blockchain.t :=
  Blockchain.mk
    (imap (fun i b =>
             Block.mk (Block.index b) (Block.timestamp b)
               (overwriteAmounts object (InBlock i) v (Block.transactions b))
               (Block.previousHash b) (Block.nonce b) (Block.hash b))
          (Blockchain.chain s))
    (Blockchain.difficulty s)
    (overwriteAmounts object InPending v (Blockchain.pendingTransactions s))
    (Blockchain.miningReward s).

(** ** Concrete ledgers used by the examples *)

Module Examples.
Definition alice : Address := Some "Alice"%string.
Definition bob : Address := Some "Bob"%string.
Definition charlie : Address := Some "Charlie"%string.
Definition minerX : Address := Some "MinerX"%string.

Definition aliceToBob : Transaction.t := Transaction.new 1700000000000 alice bob (Finite 50).

(** A transfer whose sender is the empty string. *)
Definition fromNobody : Transaction.t :=
  Transaction.new 1001 (Some EmptyString) bob (Finite 50).

(** A candidate block as [minePendingTransactions] builds it. *)
Definition candidate : Block.t := Block.new 1 1700000000000 [aliceToBob] "0".

(** The candidate after [mineBlock(2)]: 43 turns of the loop. *)
Definition mined : Block.t :=
  Block.mk 1 1700000000000 [aliceToBob] "0" 43
    "00972adb2cb018e56fb141ceb9175a6702924019d240fc7a1c28672cbb8613f6".

Definition minedLog : list string :=
  [ "Mining block 1..."%string;
    "Block 1 mined! Hash: 00972adb2cb018e56fb141ceb9175a6702924019d240fc7a1c28672cbb8613f6"%string ].

(** The mined block after [block.transactions[0].amount = 100]: the stored
    hash still starts with two zeros but no longer matches the content. *)
Definition stale : Block.t :=
  Block.mk 1 1700000000000 [Transaction.setAmount (Finite 100) aliceToBob] "0" 43
    "00972adb2cb018e56fb141ceb9175a6702924019d240fc7a1c28672cbb8613f6".

(** The ledger [s] after one more call, whatever its completion. *)
Definition andThen {A : Type} (s : option Blockchain.t) (m : Blockchain.Method A)
    : option Blockchain.t :=
  match s with
  | Some s => option_map Blockchain.after (m s)
  | None => None
  end.

(** A new ledger whose [difficulty] was then set to 1, which keeps the nonce
    searches of the examples short. *)
Definition start : Blockchain.t :=
  Blockchain.mk [Blockchain.createGenesisBlock 1000] 1 [] (Finite 100).

(** The calls of [runDemo], up to the second block. *)
Definition demoRun : option Blockchain.t :=
  andThen (andThen (andThen (andThen (andThen (andThen (Some start)
    (Blockchain.addTransaction (Transaction.new 1001 alice bob (Finite 50))))
    (Blockchain.addTransaction (Transaction.new 1002 bob charlie (Finite 25))))
    (Blockchain.minePendingTransactions 200 1003 1004 minerX))
    (Blockchain.addTransaction (Transaction.new 1005 charlie alice (Finite 10))))
    (Blockchain.addTransaction (Transaction.new 1006 alice minerX (Finite 15))))
    (Blockchain.minePendingTransactions 200 1007 1008 minerX).

Definition demoLedger : Blockchain.t :=
  Eval vm_compute in default start demoRun.

(** [demoLedger] after [chain[1].transactions[0].amount = 100]. *)
Definition demoTampered : Blockchain.t :=
  Eval vm_compute in default start (Blockchain.tamper 1 0 (Finite 100) demoLedger).

(** A transfer of [Infinity], which [addTransaction] lets through, mined
    into block 1. *)
Definition unboundedRun : option Blockchain.t :=
  andThen (andThen (Some start)
    (Blockchain.addTransaction (Transaction.new 1001 alice bob PosInfinity)))
    (Blockchain.minePendingTransactions 200 1002 1003 minerX).

Definition unboundedLedger : Blockchain.t :=
  Eval vm_compute in default start unboundedRun.

(** [unboundedLedger] after [chain[1].transactions[0].amount = -Infinity]. *)
Definition unboundedTampered : Blockchain.t :=
  Eval vm_compute in default start (Blockchain.tamper 1 0 NegInfinity unboundedLedger).

(** [start] with the first two transfers of the demo pending. *)
Definition pendingLedger : Blockchain.t :=
  Blockchain.mk [Blockchain.createGenesisBlock 1000] 1
    [Transaction.new 1001 alice bob (Finite 50);
     Transaction.new 1002 bob charlie (Finite 25)]
    (Finite 100).

(** [pendingLedger] after [minePendingTransactions('MinerX')], and after a
    second call. *)
Definition minedOnce : Blockchain.t :=
  Eval vm_compute in
    default start
      (andThen (Some pendingLedger) (Blockchain.minePendingTransactions 200 1003 1004 minerX)).

Definition minedTwice : Blockchain.t :=
  Eval vm_compute in
    default start
      (andThen (Some minedOnce) (Blockchain.minePendingTransactions 200 1005 1006 minerX)).

(** Two blocks mined for the miner address [null]. *)
Definition selfRewardRun : option Blockchain.t :=
  andThen (andThen (Some start)
    (Blockchain.minePendingTransactions 200 1001 1002 None))
    (Blockchain.minePendingTransactions 200 1003 1004 None).

Definition selfRewardLedger : Blockchain.t :=
  Eval vm_compute in default start selfRewardRun.

(** A ledger as the constructor makes it, difficulty 4, driven through the
    public methods; the clock readings of the two blocks are ones for which
    the first hash tried has its four leading zeros. *)
Definition constructedRun : option Blockchain.t :=
  andThen (andThen (andThen (Some (Blockchain.new 1700000000000))
    (Blockchain.addTransaction (Transaction.new 1700000000001 alice bob (Finite 50))))
    (Blockchain.minePendingTransactions 0 1700000053869 1700000053870 minerX))
    (Blockchain.minePendingTransactions 0 1700000134507 1700000134508 minerX).

Definition constructedLedger : Blockchain.t :=
  Eval vm_compute in default start constructedRun.

(** Block 1 of [constructedLedger], and the same block with index 11 and
    timestamp 700000053869 in place of index 1 and timestamp 1700000053869:
    the digits of index and timestamp, put side by side, are the same. *)
Definition sealedBlock : Block.t :=
  Eval vm_compute in default candidate (Blockchain.chain constructedLedger !! 1).

Definition redatedBlock : Block.t :=
  Block.mk 11 700000053869 (Block.transactions sealedBlock)
    (Block.previousHash sealedBlock) (Block.nonce sealedBlock) (Block.hash sealedBlock).

(** A transfer of [NaN], which [addTransaction] lets through, mined into
    block 1 of a ledger of difficulty 1. *)
Definition nanRun : option Blockchain.t :=
  andThen (andThen (Some start)
    (Blockchain.addTransaction (Transaction.new 1001 alice bob NaN)))
    (Blockchain.minePendingTransactions 200 1002 1003 minerX).

Definition nanLedger : Blockchain.t :=
  Eval vm_compute in default start nanRun.

(** 0.1 and 0.2, the doubles nearest to them. *)
Definition tenth : JsNumber := Dyadic 3602879701896397 (-55).
Definition fifth : JsNumber := Dyadic 3602879701896397 (-54).

(** Bob is sent 2^53 by Alice and 1 by Charlie. *)
Definition roundedRun : option Blockchain.t :=
  andThen (andThen (andThen (Some start)
    (Blockchain.addTransaction (Transaction.new 1001 alice bob (Finite (2 ^ 53)))))
    (Blockchain.addTransaction (Transaction.new 1002 charlie bob (Finite 1))))
    (Blockchain.minePendingTransactions 200 1003 1004 minerX).

Definition roundedLedger : Blockchain.t :=
  Eval vm_compute in default start roundedRun.

(** Bob is sent 0.1 by Alice and 0.2 by Charlie. *)
Definition fractionRun : option Blockchain.t :=
  andThen (andThen (andThen (Some start)
    (Blockchain.addTransaction (Transaction.new 1001 alice bob tenth)))
    (Blockchain.addTransaction (Transaction.new 1002 charlie bob fifth)))
    (Blockchain.minePendingTransactions 200 1003 1004 minerX).

Definition fractionLedger : Blockchain.t :=
  Eval vm_compute in default start fractionRun.

(** One transaction object submitted twice: it is sealed in block 1 and,
    behind the first reward, in block 2. *)
Definition sharedRun : option Blockchain.t :=
  andThen (andThen (andThen (andThen (Some start)
    (Blockchain.addTransaction aliceToBob))
    (Blockchain.minePendingTransactions 200 1002 1003 minerX))
    (Blockchain.addTransaction aliceToBob))
    (Blockchain.minePendingTransactions 200 1004 1005 minerX).

Definition sharedLedger : Blockchain.t :=
  Eval vm_compute in default start sharedRun.

(** The slots the object sits in. *)
Definition sharedObject : list Slot := [InBlock 1 0; InBlock 2 1].

(** [sharedLedger] after [chain[2].transactions[1].amount = 100]. *)
Definition sharedTampered : Blockchain.t :=
  Eval vm_compute in assignAmount sharedObject (Finite 100) sharedLedger.

(** A ledger whose block 1 holds a reward of 2^53, a reward of 1 and a
    transfer of 1 to the address null. *)
Definition largeRewards : Blockchain.t :=
  Blockchain.mk
    [Blockchain.createGenesisBlock 1000;
     Block.new 1 1001
       [Transaction.new 1002 None charlie (Finite (2 ^ 53));
        Transaction.new 1003 None alice (Finite 1);
        Transaction.new 1004 bob None (Finite 1)]
       (Block.hash (Blockchain.createGenesisBlock 1000))]
    1 [] (Finite 100).
End Examples.

(** ** Vocabulary of the properties *)

(** The first [d] characters of [h] exist and are all '0'. *)
Definition leadingZeros (d : nat) (h : string) : Prop :=
  forall k, k < d -> String.get k h = Some "0"%char.

(** A block is sealed when its stored hash is the hash of its content. *)
Definition sealed (b : Block.t) : Prop := Block.hash b = Block.calculateHash b.

(** Two blocks with the same content, nonce and hash apart. *)
Definition sameContent (b b' : Block.t) : Prop :=
  Block.index b' = Block.index b /\ Block.timestamp b' = Block.timestamp b
  /\ Block.transactions b' = Block.transactions b
  /\ Block.previousHash b' = Block.previousHash b.

(** A method is read-only when no call of it changes a field of [this]. *)
Definition readOnly {A : Type} (m : Blockchain.Method A) : Prop :=
  forall s o, m s = Some o -> Blockchain.after o = s.

(** Block [i] of the chain passes both checks of the loop body. *)
Definition passes (c : list Block.t) (i : nat) : Prop :=
  exists current previous,
    c !! i = Some current /\ c !! (i - 1) = Some previous
    /\ Block.hash current = Block.calculateHash current
    /\ Block.previousHash current = Block.hash previous.

(** What a scan reports. *)
Inductive Verdict : Type :=
  | Intact
  | Corrupted (i : nat)
  | BrokenLink (i : nat).

(** The outcome of [validateChain] that goes with a verdict. *)
Definition report (v : Verdict) (s : Blockchain.t) : Blockchain.Outcome bool :=
  match v with
  | Intact => Blockchain.mkOutcome (Blockchain.Normal true) s []
  | Corrupted i =>
      Blockchain.mkOutcome (Blockchain.Normal false) s [Blockchain.corruptedMessage i]
  | BrokenLink i =>
      Blockchain.mkOutcome (Blockchain.Normal false) s [Blockchain.brokenLinkMessage i]
  end.

(** [v] describes the blocks of [c] from index [from] on: either all pass, or
    [v] names the first one that does not and the check it fails. *)
Definition describes (c : list Block.t) (from : nat) (v : Verdict) : Prop :=
  match v with
  | Intact => forall j, from <= j < length c -> passes c j
  | Corrupted i =>
      from <= i < length c /\ (forall j, from <= j < i -> passes c j)
      /\ exists current, c !! i = Some current
           /\ Block.hash current <> Block.calculateHash current
  | BrokenLink i =>
      from <= i < length c /\ (forall j, from <= j < i -> passes c j)
      /\ exists current previous, c !! i = Some current /\ c !! (i - 1) = Some previous
           /\ Block.hash current = Block.calculateHash current
           /\ Block.previousHash current <> Block.hash previous
  end.

(** The same ledger with another chain. *)
Definition withChain (c : list Block.t) (s : Blockchain.t) : Blockchain.t :=
  Blockchain.mk c (Blockchain.difficulty s) (Blockchain.pendingTransactions s)
    (Blockchain.miningReward s).

(** The string a block's hash is computed from. *)
Definition preimageOf (b : Block.t) : string :=
  Block.preimage (Block.index b) (Block.timestamp b) (Block.transactions b)
    (Block.previousHash b) (Block.nonce b).

(** Two different strings with the same digest. *)
Definition collide (x y : string) : Prop :=
  x <> y /\ SHA256.sha256_hex x = SHA256.sha256_hex y.

(** No character of the string is a comma. *)
Fixpoint commaFree (s : string) : bool :=
  match s with
  | EmptyString => true
  | String c rest => negb (Ascii.eqb c ",") && commaFree rest
  end.

(** Every slot the object sits in holds [tx]. *)
Definition holds (s : Blockchain.t) (object : list Slot) (tx : Transaction.t) : Prop :=
  Forall (fun slot => slotValue s slot = Some tx) object.

(** Block [i] is the first block after the genesis block that the object
    sits in. *)
Definition firstHolder (object : list Slot) (i : nat) : Prop :=
  1 <= i /\ (exists j, sitsIn object (InBlock i j) = true)
  /\ forall i' j', 1 <= i' < i -> sitsIn object (InBlock i' j') = false.

(** [!a] holds of [null] and of the empty string. *)
Definition missing (a : Address) : Prop := a = None \/ a = Some EmptyString.

(** The transactions [addTransaction] refuses. *)
Definition refused (tx : Transaction.t) : Prop :=
  missing (Transaction.sender tx) \/ missing (Transaction.recipient tx)
  \/ Number.le0 (Transaction.amount tx) = true.

(** The reward transaction that a call leaves pending. *)
Definition rewardFor (miner : Address) (s : Blockchain.t) (rewardTime : Z) : Transaction.t :=
  Transaction.mk None miner (Blockchain.miningReward s) rewardTime.

(** Every transaction sealed in the chain, in chain order. *)
Definition committed (c : list Block.t) : list Transaction.t :=
  flat_map Block.transactions c.

(** What one transaction adds to the balance of [a]: minus its amount if [a]
    sent it, plus its amount if [a] received it. *)
Definition contributions (a : Address) (tx : Transaction.t) : list JsNumber :=
  (if strictEq (Transaction.sender tx) a then [Number.neg (Transaction.amount tx)] else [])
  ++ (if strictEq (Transaction.recipient tx) a then [Transaction.amount tx] else []).

(** The sum of a list of numbers, from 0, left to right. *)
Definition total (xs : list JsNumber) : JsNumber := fold_left Number.add xs (Finite 0).

(** The balance of [a] as the specification words it. *)
Definition replayedBalance (a : Address) (c : list Block.t) : JsNumber :=
  total (flat_map (contributions a) (committed c)).

(** The amounts of the transactions of the chain whose recipient is [a]. *)
Definition received (a : Address) (c : list Block.t) : list JsNumber :=
  map Transaction.amount
    (List.filter (fun tx => strictEq (Transaction.recipient tx) a) (committed c)).

(** The amounts of the transactions of the chain whose sender is [a]. *)
Definition sent (a : Address) (c : list Block.t) : list JsNumber :=
  map Transaction.amount
    (List.filter (fun tx => strictEq (Transaction.sender tx) a) (committed c)).

(** A call of a public method. *)
Inductive Call : Type :=
  | AddTransaction (tx : Transaction.t)
  | MinePendingTransactions (fuel : nat) (blockTime rewardTime : Z) (miner : Address)
  | ValidateChain
  | GetBalance (a : Address).

(** The ledger a call leaves, by normal return or by exception. *)
Definition perform (c : Call) (s : Blockchain.t) : option Blockchain.t :=
  match c with
  | AddTransaction tx => Blockchain.after <$> Blockchain.addTransaction tx s
  | MinePendingTransactions fuel blockTime rewardTime miner =>
      Blockchain.after <$> Blockchain.minePendingTransactions fuel blockTime rewardTime miner s
  | ValidateChain => Blockchain.after <$> Blockchain.validateChain s
  | GetBalance a => Blockchain.after <$> Blockchain.getBalance a s
  end.

(** The ledgers reachable from construction. *)
Inductive reachable : Blockchain.t -> Prop :=
  | reachable_new (now : Z) : reachable (Blockchain.new now)
  | reachable_call (c : Call) (s s' : Blockchain.t) :
      reachable s -> perform c s = Some s' -> reachable s'.

(** The chain starts with the genesis block the constructor made. *)
Definition startsWithGenesis (s : Blockchain.t) : Prop :=
  exists now rest, Blockchain.chain s = Blockchain.createGenesisBlock now :: rest.

(** *** Vocabulary of the ledger invariants *)

(** The intake test passed: [addTransaction] lets [tx] in. *)
Definition accepted (tx : Transaction.t) : bool :=
  negb (falsy (Transaction.sender tx) || falsy (Transaction.recipient tx)
        || Number.le0 (Transaction.amount tx)).

(** A reward as a ledger with the constructor's [miningReward] issues it. *)
Definition rewardShaped (tx : Transaction.t) : Prop :=
  Transaction.sender tx = None /\ Transaction.amount tx = Finite 100.

(** A list of transactions with at most one reward, which then comes first,
    every other transaction having passed the intake test. *)
Definition rewardFirst (txs : list Transaction.t) : Prop :=
  match txs with
  | [] => True
  | tx :: rest =>
      (rewardShaped tx \/ accepted tx = true)
      /\ Forall (fun t => accepted t = true) rest
  end.

(** What a call can do to the ledger: nothing, one more pending transaction,
    or one more block with the pending transactions replaced by a reward. *)
Inductive effect (s : Blockchain.t) : Blockchain.t -> Prop :=
  | effect_none : effect s s
  | effect_add (tx : Transaction.t) :
      accepted tx = true -> effect s (Blockchain.pushPending tx s)
  | effect_mine (fuel : nat) (blockTime rewardTime : Z) (miner : Address)
      (lastBlock mined : Block.t) :
      Blockchain.chain s !! (length (Blockchain.chain s) - 1) = Some lastBlock ->
      Block.search fuel (Blockchain.difficulty s)
        (Block.new (length (Blockchain.chain s)) blockTime
           (Blockchain.pendingTransactions s) (Block.hash lastBlock)) = Some mined ->
      effect s (Blockchain.mk (Blockchain.chain s ++ [mined]) (Blockchain.difficulty s)
                  [rewardFor miner s rewardTime] (Blockchain.miningReward s)).

(** What holds of every ledger built by the constructor and the methods. *)
Definition wellFormed (s : Blockchain.t) : Prop :=
  Blockchain.difficulty s = 4 /\ Blockchain.miningReward s = Finite 100
  /\ Blockchain.chain s <> []
  /\ (forall i, 1 <= i < length (Blockchain.chain s) -> passes (Blockchain.chain s) i)
  /\ (forall i b, Blockchain.chain s !! i = Some b ->
        Block.index b = i /\ sealed b /\ rewardFirst (Block.transactions b)
        /\ (1 <= i -> Block.meetsTarget 4 (Block.hash b) = true))
  /\ rewardFirst (Blockchain.pendingTransactions s).

(** Calls in sequence, each on the ledger the one before left. *)
Fixpoint performAll (calls : list Call) (s : Blockchain.t) : option Blockchain.t :=
  match calls with
  | [] => Some s
  | c :: rest =>
      match perform c s with
      | Some s' => performAll rest s'
      | None => None
      end
  end.

(** A lower-case hexadecimal digit. *)
Definition isLowerHex (c : ascii) : bool :=
  let n := N_of_ascii c in
  ((48 <=? n) && (n <=? 57) || (97 <=? n) && (n <=? 102))%N.

(** *** Vocabulary of the balance laws *)

(** The number [getBalance(a)] computes from a chain. *)
Definition balanceOf (a : Address) (c : list Block.t) : JsNumber :=
  fold_left (Blockchain.applyTransaction a) (committed c) (Finite 0).

(** Every sender and every recipient of the chain, null included when it
    occurs, is in the list. *)
Definition coversParties (addresses : list Address) (c : list Block.t) : Prop :=
  Forall (fun tx => Transaction.sender tx ∈ addresses
                    /\ Transaction.recipient tx ∈ addresses) (committed c).

(** The sum of a list of balances, from 0, left to right. *)
Definition sumOfBalances (addresses : list Address) (c : list Block.t) : JsNumber :=
  total (map (fun a => balanceOf a c) addresses).

(** Calls of [minePendingTransactions] for one miner, one per triple of
    iteration bound, block clock reading and reward clock reading. *)
Definition miningCalls (miner : Address) (runs : list (nat * Z * Z)) : list Call :=
  map (fun run => MinePendingTransactions (fst (fst run)) (snd (fst run)) (snd run) miner)
      runs.

(** The sum of a list of integers. *)
Definition sumZ (zs : list Z) : Z := foldr Z.add 0%Z zs.

(** *** The doubles of the machine

    Rocq's primitive floats are binary64 numbers computed by the processor;
    they serve to check the arithmetic of the embedding on samples. *)

Definition toFloat (x : JsNumber) : PrimFloat.float :=
  match x with
  | Dyadic m e =>
      let f := FloatOps.Z.ldexp (PrimFloat.of_uint63 (Uint63.of_Z (Z.abs m))) e in
      if (m <? 0)%Z then PrimFloat.opp f else f
  | NegZero => PrimFloat.neg_zero
  | NaN => PrimFloat.nan
  | PosInfinity => PrimFloat.infinity
  | NegInfinity => PrimFloat.neg_infinity
  end.

(** Doubles of every kind: fractions, integers below and above 2^53, the
    largest and the smallest, subnormal ones, both zeros, the infinities and
    NaN. *)
Definition doubleSamples : list JsNumber :=
  [ Dyadic 3602879701896397 (-55);
    Dyadic 3602879701896397 (-54);
    Dyadic 5404319552844595 (-54);
    Dyadic 1 (0);
    Dyadic 25 (2);
    Dyadic 1 (53);
    Dyadic 9007199254740991 (0);
    Dyadic 1 (60);
    Dyadic 156575653125701 (976);
    Dyadic 9007199254740991 (971);
    Dyadic 1 (-1074);
    Dyadic 1 (-1022);
    Dyadic 4503599627370495 (-1074);
    Dyadic 476837158203125 (21);
    Dyadic 944473296573929 (-73);
    Dyadic 1 (-1);
    Dyadic 3 (-1);
    Dyadic 3 (0);
    Dyadic 1 (52);
    Dyadic 4503599627370497 (0);
    Dyadic 152587890625 (16);
    Dyadic 4503599627370497 (-52);
    Dyadic 1351079888211149 (-52);
    Dyadic 8483885939586761 (-36);
    Dyadic 2384185791015625 (22);
    Dyadic 1 (970);
    Dyadic (-3602879701896397) (-55);
    Dyadic (-3602879701896397) (-54);
    Dyadic (-1) (0);
    Dyadic (-25) (2);
    Dyadic (-1) (53);
    Dyadic (-156575653125701) (976);
    Dyadic (-9007199254740991) (971);
    Dyadic (-1) (-1074);
    Dyadic (-1) (-1);
    Dyadic 1 (1);
    Dyadic 3152519739159347 (-52);
    Dyadic 253 (-1071);
    Dyadic 1 (-1071);
    Dyadic 1681218273811815 (946);
    Dyadic 7 (0);
    Dyadic 30517578125 (15);
    Dyadic 6189700196426901 (-89);
    Dyadic 0 0;
    NegZero;
    NaN;
    PosInfinity;
    NegInfinity ].

(** *** Vocabulary of exact sums

    Every integer of magnitude up to 2^53 is a double, so additions and
    subtractions of integers whose results stay within that magnitude do
    not round. *)

(** A negative double or [-Infinity]. *)
Definition negative (x : JsNumber) : Prop :=
  x = NegInfinity \/ exists m k, x = Dyadic (Zneg m) k /\ (-1074 <= k)%Z.

(** The amount is an integer (and not -0): it is the number that the
    integer it holds denotes. *)
Definition wholeAmount (tx : Transaction.t) : Prop :=
  Transaction.amount tx = Finite (Number.toZ (Transaction.amount tx)).

(** The magnitudes of the amounts, added up. *)
Definition volume (txs : list Transaction.t) : Z :=
  sumZ (map (fun tx => Z.abs (Number.toZ (Transaction.amount tx))) txs).

(** What a transaction of integer amount adds to the balance of [a]. *)
Definition netOf (a : Address) (tx : Transaction.t) : Z :=
  ((if strictEq (Transaction.recipient tx) a then Number.toZ (Transaction.amount tx) else 0)
   - (if strictEq (Transaction.sender tx) a then Number.toZ (Transaction.amount tx) else 0))%Z.

Definition net (a : Address) (txs : list Transaction.t) : Z := sumZ (map (netOf a) txs).

(** The transactions that [a] sent or received. *)
Definition involving (a : Address) (txs : list Transaction.t) : list Transaction.t :=
  List.filter
    (fun tx => strictEq (Transaction.sender tx) a || strictEq (Transaction.recipient tx) a)
    txs.

(** *** The demo *)

(** The calls that [runDemo] makes on its new ledger, in order, up to the
    second block; reading [n] of the clock gives [clock n] (reading 0 goes to
    the constructor), and the two nonce searches get [fuel1] and [fuel2]
    turns.  The narration on the console and the display of the chain are
    not part of it. *)
Definition demoCalls (clock : nat -> Z) (fuel1 fuel2 : nat) : list Call :=
  [ AddTransaction (Transaction.new (clock 1) Examples.alice Examples.bob (Finite 50));
    AddTransaction (Transaction.new (clock 2) Examples.bob Examples.charlie (Finite 25));
    MinePendingTransactions fuel1 (clock 3) (clock 4) Examples.minerX;
    AddTransaction (Transaction.new (clock 5) Examples.charlie Examples.alice (Finite 10));
    AddTransaction (Transaction.new (clock 6) Examples.alice Examples.minerX (Finite 15));
    MinePendingTransactions fuel2 (clock 7) (clock 8) Examples.minerX ].

(** Clock readings for which the first hash tried for each of the two
    blocks has its four leading zeros. *)
Definition luckyClock (reading : nat) : Z :=
  nth reading
    [1700000000000; 1700000000001; 1700000000002; 1700000023108; 1700000023109;
     1700000023110; 1700000023111; 1700000046464; 1700000046465]%Z 0%Z.

(** The ledger of the demo under that clock. *)
Definition luckyDemo : Blockchain.t :=
  Eval vm_compute in
    default Examples.start
      (performAll (demoCalls luckyClock 0 0) (Blockchain.new (luckyClock 0))).

(** * Properties *)

(** ** SHA-256 *)

(** The digest agrees with the standard's test vectors. *)
Example sha256_abc :
  SHA256.sha256_hex "abc"
  = "ba7816bf8f01cfea414140de5dae2223b00361a396177a9cb410ff61f20015ad"%string.
Proof. vm_compute. reflexivity. Qed.

Example sha256_empty :
  SHA256.sha256_hex EmptyString
  = "e3b0c44298fc1c149afbf4c8996fb92427ae41e4649b934ca495991b7852b855"%string.
Proof. vm_compute. reflexivity. Qed.

Example sha256_two_blocks :
  SHA256.sha256_hex "abcdbcdecdefdefgefghfghighijhijkijkljklmklmnlmnomnopnopq"
  = "248d6a61d20638b8e5c026930c3e6039a33ce45964ff2167f6ecedd419db06c1"%string.
Proof. vm_compute. reflexivity. Qed.

(** ** Strings *)

Lemma append_nil (b : string) : EmptyString +:+ b = b.
Proof. reflexivity. Qed.

Lemma append_cons (x : ascii) (a b : string) : String x a +:+ b = String x (a +:+ b).
Proof. reflexivity. Qed.

Lemma append_assoc (a b c : string) : (a +:+ b) +:+ c = a +:+ (b +:+ c).
Proof.
  induction a as [|x a IH]; [reflexivity|].
  rewrite !append_cons. now rewrite IH.
Qed.

Lemma length_append (a b : string) :
  String.length (a +:+ b) = String.length a + String.length b.
Proof.
  induction a as [|x a IH]; [reflexivity|].
  rewrite append_cons. simpl. now rewrite IH.
Qed.

Lemma append_inv_tail (a b t : string) : a +:+ t = b +:+ t -> a = b.
Proof.
  revert b. induction a as [|x a IH]; intros [|y b] H.
  - reflexivity.
  - apply (f_equal String.length) in H.
    rewrite append_nil, append_cons in H. simpl in H.
    rewrite length_append in H. lia.
  - apply (f_equal String.length) in H.
    rewrite append_nil, append_cons in H. simpl in H.
    rewrite length_append in H. lia.
  - rewrite !append_cons in H. injection H as -> H. f_equal. now apply IH.
Qed.

Lemma append_inv_head (a s t : string) : a +:+ s = a +:+ t -> s = t.
Proof.
  induction a as [|x a IH]; intros H; [assumption|].
  rewrite !append_cons in H. injection H. exact IH.
Qed.

(** Decimal printing of integers is injective. *)
Lemma toString_inj (x y : Z) : Number.toString x = Number.toString y -> x = y.
Proof.
  unfold Number.toString. intros H.
  apply DecimalZ.to_int_inj.
  assert (Some (Z.to_int x) = Some (Z.to_int y)) as E.
  { rewrite <- !NilEmpty.isi. now rewrite H. }
  now injection E.
Qed.

(** ** Numbers *)

Section Doubles.
Local Open Scope Z_scope.

Lemma oddPart_odd p e m k :
  Double.oddPart p e = (m, k) -> Double.oddPart m k = (m, k).
Proof.
  revert e. induction p as [p IH|p IH|]; intros e H; simpl in H.
  - injection H as <- <-. reflexivity.
  - eapply IH, H.
  - injection H as <- <-. reflexivity.
Qed.

Lemma oddPart_value p e m k :
  Double.oddPart p e = (m, k) -> e <= k /\ Zpos p = Zpos m * 2 ^ (k - e).
Proof.
  revert e. induction p as [p IH|p IH|]; intros e H; simpl in H.
  - injection H as <- <-. rewrite Z.sub_diag. simpl. lia.
  - destruct (IH _ H) as [Hle Hv]. split; [lia|].
    replace (k - e) with (Z.succ (k - (e + 1))) by lia.
    rewrite Z.pow_succ_r by lia. rewrite Pos2Z.inj_xO, Hv. lia.
  - injection H as <- <-. rewrite Z.sub_diag. simpl. lia.
Qed.

(** Rounding depends on the number only, not on how it is written. *)
Lemma round_double s e : Double.round (2 * s) e = Double.round s (e + 1).
Proof. destruct s as [|p|p]; reflexivity. Qed.

Lemma round_shift s e k : 0 <= k -> Double.round (s * 2 ^ k) e = Double.round s (e + k).
Proof.
  intros Hk. revert e. pattern k. apply natlike_ind; [| |exact Hk].
  - intros e. now rewrite Z.mul_1_r, Z.add_0_r.
  - clear k Hk. intros k Hk IH e. rewrite Z.pow_succ_r by exact Hk.
    replace (s * (2 * 2 ^ k)) with (2 * (s * 2 ^ k)) by lia.
    rewrite round_double, IH. f_equal. lia.
Qed.

Lemma oddPart_is_odd m k : Double.oddPart m k = (m, k) -> Z.odd (Zpos m) = true.
Proof.
  destruct m as [m|m|]; intros H; [reflexivity| |reflexivity].
  simpl in H. apply oddPart_value in H as [H _]. lia.
Qed.

(** A magnitude of at most 53 bits, whatever its exponent from 0 on, is a
    double. *)
Lemma roundMagnitude_exact negative p e :
  Zpos p <= 2 ^ 53 -> 0 <= e -> e + Z.log2 (Zpos p) <= 1023 ->
  exists m k,
    Double.roundMagnitude negative p e = Dyadic (Double.signed negative m) k
    /\ e <= k /\ Zpos p * 2 ^ e = Zpos m * 2 ^ k.
Proof.
  intros Hp He Htop. unfold Double.roundMagnitude.
  destruct (Double.oddPart p e) as [m k] eqn:E.
  destruct (oddPart_value _ _ _ _ E) as [Hle Hv].
  pose proof (oddPart_odd _ _ _ _ E) as Hfix.
  pose proof (oddPart_is_odd _ _ Hfix) as Hodd.
  assert (Z.log2 (Zpos p) = Z.log2 (Zpos m) + (k - e)) as Hlog.
  { rewrite Hv. rewrite Z.log2_mul_pow2; lia. }
  assert (Z.log2 (Zpos m) <= 52) as Hm.
  { apply Z.lt_succ_r. apply Z.log2_lt_pow2; [lia|].
    change (Z.succ 52) with 53.
    assert (0 < 2 ^ (k - e)) by (apply Z.pow_pos_nonneg; lia).
    assert (Zpos m <> 2 ^ 53) by (intros F; rewrite F in Hodd; discriminate Hodd).
    nia. }
  assert ((Z.max (k + Z.log2 (Z.pos m) - 52) (-1074) <=? k) = true) as ->
    by (apply Z.leb_le; lia).
  unfold Double.pack. rewrite Hfix.
  assert ((k + Z.log2 (Z.pos m) <=? 1023) = true) as -> by (apply Z.leb_le; lia).
  exists m, k. split; [reflexivity|]. split; [exact Hle|].
  rewrite Hv. rewrite <- Z.mul_assoc, <- Z.pow_add_r by lia. do 2 f_equal. lia.
Qed.

(** An integer of magnitude at most 2^53 is a double. *)
Lemma Finite_dyadic z :
  Z.abs z <= 2 ^ 53 ->
  exists m k, Finite z = Dyadic m k /\ 0 <= k /\ z = m * 2 ^ k.
Proof.
  intros Hz. destruct z as [|p|p].
  - exists 0, 0. repeat split; lia.
  - destruct (roundMagnitude_exact false p 0) as (m & k & Hr & Hk & Hv); [lia..| |].
    { assert (Z.log2 (Zpos p) <= 53); [|lia].
      change 53 with (Z.log2 (2 ^ 53)). apply Z.log2_le_mono. lia. }
    exists (Zpos m), k. split; [exact Hr|]. split; [lia|]. lia.
  - destruct (roundMagnitude_exact true p 0) as (m & k & Hr & Hk & Hv); [lia..| |].
    { assert (Z.log2 (Zpos p) <= 53); [|lia].
      change 53 with (Z.log2 (2 ^ 53)). apply Z.log2_le_mono. lia. }
    exists (Zneg m), k. split; [exact Hr|]. split; [lia|]. lia.
Qed.

Lemma toZ_Finite z : Z.abs z <= 2 ^ 53 -> Number.toZ (Finite z) = z.
Proof.
  intros Hz. destruct (Finite_dyadic z Hz) as (m & k & -> & _ & ->). reflexivity.
Qed.

Lemma Finite_inj x y :
  Z.abs x <= 2 ^ 53 -> Z.abs y <= 2 ^ 53 -> Finite x = Finite y -> x = y.
Proof.
  intros Hx Hy H. rewrite <- (toZ_Finite x Hx), <- (toZ_Finite y Hy). now rewrite H.
Qed.

(** The sum of two integers of magnitude at most 2^53 is their exact sum,
    rounded. *)
Lemma add_Finite a b :
  Z.abs a <= 2 ^ 53 -> Z.abs b <= 2 ^ 53 ->
  Number.add (Finite a) (Finite b) = Finite (a + b).
Proof.
  intros Ha Hb.
  destruct (Finite_dyadic a Ha) as (ma & ka & -> & Hka & ->).
  destruct (Finite_dyadic b Hb) as (mb & kb & -> & Hkb & ->).
  unfold Number.add, Finite.
  set (e := Z.min ka kb).
  rewrite <- (Z.add_0_l e) at 3. rewrite <- round_shift by lia. f_equal.
  rewrite Z.mul_add_distr_r, <- !Z.mul_assoc, <- !Z.pow_add_r by lia.
  do 2 f_equal; f_equal; lia.
Qed.

Lemma neg_pack negative p e :
  Number.neg (Double.pack negative p e) = Double.pack (negb negative) p e.
Proof.
  unfold Double.pack. destruct (Double.oddPart p e) as [m k].
  destruct (_ <=? 1023), negative; reflexivity.
Qed.

Lemma neg_roundMagnitude negative p e :
  Number.neg (Double.roundMagnitude negative p e)
  = Double.roundMagnitude (negb negative) p e.
Proof.
  unfold Double.roundMagnitude. destruct (Double.oddPart p e) as [m k].
  destruct (_ <=? k); [apply neg_pack|].
  destruct (if _ : bool then _ else _) as [|p'|p'];
    [destruct negative; reflexivity | apply neg_pack | destruct negative; reflexivity].
Qed.

Lemma neg_Finite z : z <> 0 -> Number.neg (Finite z) = Finite (- z).
Proof.
  intros Hz. destruct z as [|p|p]; [congruence| |].
  - apply (neg_roundMagnitude false).
  - apply (neg_roundMagnitude true).
Qed.

Lemma sub_Finite a b :
  Z.abs a <= 2 ^ 53 -> Z.abs b <= 2 ^ 53 ->
  Number.sub (Finite a) (Finite b) = Finite (a - b).
Proof.
  intros Ha Hb. unfold Number.sub.
  destruct (Z.eq_dec b 0) as [->|Hne].
  - rewrite Z.sub_0_r. destruct (Finite_dyadic a Ha) as (m & k & -> & _ & _).
    reflexivity.
  - rewrite neg_Finite by exact Hne. rewrite add_Finite by lia. f_equal.
Qed.
Lemma pack_negative p e : -1074 <= e -> negative (Double.pack true p e).
Proof.
  intros He. unfold Double.pack.
  destruct (Double.oddPart p e) as [m k] eqn:E.
  destruct (oddPart_value _ _ _ _ E) as [Hle _].
  destruct (_ <=? 1023); [right; exists m, k; split; [reflexivity | lia] | now left].
Qed.

(** Rounding a negative multiple of 2^-1074 gives a negative number: it
    cannot underflow to zero. *)
Lemma roundMagnitude_negative p e :
  -1074 <= e -> negative (Double.roundMagnitude true p e).
Proof.
  intros He. unfold Double.roundMagnitude.
  destruct (Double.oddPart p e) as [m k] eqn:E.
  destruct (oddPart_value _ _ _ _ E) as [Hle _].
  set (q := Z.max (k + Z.log2 (Zpos m) - 52) (-1074)).
  destruct (q <=? k) eqn:Hq; [apply pack_negative; lia|].
  apply Z.leb_gt in Hq.
  assert (q = k + Z.log2 (Zpos m) - 52) as Hq' by (unfold q in *; lia).
  assert (0 < Z.shiftr (Zpos m) (q - k)) as Hn.
  { rewrite Z.shiftr_div_pow2 by lia.
    apply Z.div_str_pos. split; [apply Z.pow_pos_nonneg; lia|].
    transitivity (2 ^ Z.log2 (Zpos m)).
    - apply Z.pow_le_mono_r; lia.
    - apply Z.log2_spec. lia. }
  set (n := Z.shiftr (Zpos m) (q - k)) in *.
  destruct (if _ : bool then (n + 1) else n) as [|p'|p'] eqn:En.
  - destruct (_ || _) in En; lia.
  - apply pack_negative. lia.
  - destruct (_ || _) in En; lia.
Qed.

Lemma round_negative s e : s < 0 -> -1074 <= e -> negative (Double.round s e).
Proof.
  intros Hs He. destruct s as [|p|p]; [lia | lia |]. now apply roundMagnitude_negative.
Qed.

Lemma lt0_negative x : negative x -> Number.lt0 x = true.
Proof. intros [->|(m & k & -> & _)]; reflexivity. Qed.

(** Taking a positive double from 0 or from a negative number gives a
    negative number. *)
Lemma sub_negative x v :
  x = Dyadic 0 0 \/ negative x ->
  Number.isDouble v = true -> Number.gt0 v = true ->
  negative (Number.sub x v).
Proof.
  intros Hx Hv Hpos. unfold Number.sub.
  destruct v as [[|m2|m2] e2| | | |]; try discriminate Hpos.
  - (* a positive finite double *)
    simpl in Hv. rewrite !andb_true_iff in Hv. destruct Hv as [[[_ _] He2] _].
    apply Z.leb_le in He2. simpl Number.neg.
    assert (forall e, 0 < 2 ^ (e2 - Z.min e e2)) as Hp2
      by (intros e; apply Z.pow_pos_nonneg; lia).
    destruct Hx as [->|[->|(m1 & k1 & -> & Hk1)]].
    + unfold Number.add. apply round_negative; [|lia].
      specialize (Hp2 0). rewrite Z.min_comm in Hp2.
      rewrite Z.mul_0_l, Z.add_0_l. 
      assert (Z.neg m2 * 2 ^ (e2 - Z.min 0 e2) < 0) by (rewrite Z.min_comm; nia).
      assumption.
    + now left.
    + unfold Number.add. apply round_negative; [|lia].
      assert (0 < 2 ^ (k1 - Z.min k1 e2)) by (apply Z.pow_pos_nonneg; lia).
      specialize (Hp2 k1). nia.
  - (* Infinity *)
    simpl Number.neg.
    destruct Hx as [->|[->|(m1 & k1 & -> & Hk1)]]; now left.
Qed.
End Doubles.

(** Once the balance has been rounded, the sum it stands for is lost:
    2^53 + 1 is 2^53, and 0.1 + 0.2 is not 0.3. *)
Example add_rounds :
  Number.add (Finite (2 ^ 53)) (Finite 1) = Finite (2 ^ 53)
  /\ Number.add (Finite (2 ^ 53)) (Finite 3) = Finite (2 ^ 53 + 4)
  /\ Number.add (Finite (2 ^ 60)) (Finite 100) = Finite (2 ^ 60)
  /\ Number.print (Number.add Examples.tenth Examples.fifth) = "0.30000000000000004"%string
  /\ Number.add (Finite (2 ^ 1023)) (Finite (2 ^ 1023)) = PosInfinity
  /\ Number.sub (Finite 5) (Finite 5) = Finite 0
  /\ Number.sub PosInfinity PosInfinity = NaN.
Proof. vm_compute. repeat split. Qed.

(** On every pair of the samples, sum, difference and the comparisons with
    0 are those of the machine's binary64 arithmetic, and so is the double
    an integer denotes. *)
Example add_is_binary64_add :
  map (fun p => toFloat (Number.add (fst p) (snd p))) (list_prod doubleSamples doubleSamples)
  = map (fun p => PrimFloat.add (toFloat (fst p)) (toFloat (snd p)))
        (list_prod doubleSamples doubleSamples).
Proof. vm_compute. reflexivity. Qed.

Example sub_is_binary64_sub :
  map (fun p => toFloat (Number.sub (fst p) (snd p))) (list_prod doubleSamples doubleSamples)
  = map (fun p => PrimFloat.sub (toFloat (fst p)) (toFloat (snd p)))
        (list_prod doubleSamples doubleSamples).
Proof. vm_compute. reflexivity. Qed.

Example sums_are_doubles :
  forallb Number.isDouble doubleSamples = true
  /\ forallb (fun p => Number.isDouble (Number.add (fst p) (snd p)))
       (list_prod doubleSamples doubleSamples) = true
  /\ Number.isDouble (Dyadic 4 0) = false
  /\ Number.isDouble (Dyadic 1 (-1075)) = false
  /\ Number.isDouble (Dyadic (2 ^ 53 + 1) 0) = false
  /\ Number.isDouble (Dyadic 1 1024) = false.
Proof. vm_compute. repeat split. Qed.

Example comparisons_are_binary64 :
  map Number.le0 doubleSamples
  = map (fun x => PrimFloat.leb (toFloat x) PrimFloat.zero) doubleSamples
  /\ map Number.lt0 doubleSamples
     = map (fun x => PrimFloat.ltb (toFloat x) PrimFloat.zero) doubleSamples
  /\ map Number.gt0 doubleSamples
     = map (fun x => PrimFloat.ltb PrimFloat.zero (toFloat x)) doubleSamples
  /\ map (fun x => toFloat (Number.neg x)) doubleSamples
     = map (fun x => PrimFloat.opp (toFloat x)) doubleSamples.
Proof. vm_compute. repeat split. Qed.

Example Finite_is_binary64 :
  map (fun z => toFloat (Finite z))
      [0; 1; 100; 2 ^ 53; 2 ^ 53 + 1; 2 ^ 53 + 3; 2 ^ 62 + 12345; 10 ^ 18 + 1]%Z
  = map (fun z => PrimFloat.of_uint63 (Uint63.of_Z z))
        [0; 1; 100; 2 ^ 53; 2 ^ 53 + 1; 2 ^ 53 + 3; 2 ^ 62 + 12345; 10 ^ 18 + 1]%Z.
Proof. vm_compute. reflexivity. Qed.

(** ** Printing of numbers *)

(** The printing agrees with what [toString] returns in JavaScript. *)
Example print_vectors :
  map Number.print
    [ Finite 0; NegZero; Finite 50; Finite (-55); Finite (2 ^ 53); Finite (2 ^ 60);
      Finite (2 ^ 69); Finite (10 ^ 21 - 1); Finite (10 ^ 21); Finite (10 ^ 23);
      Examples.tenth; Examples.fifth; Dyadic 3 (-1); Dyadic (-1) (-2);
      Dyadic 1 (-1074); Dyadic 9007199254740991 971;
      Dyadic 944473296573929 (-73); Dyadic 4722366482869645 (-72);
      Dyadic 8483885939586761 (-36) ]
  = [ "0"; "0"; "50"; "-55"; "9007199254740992"; "1152921504606847000";
      "590295810358705700000"; "1e+21"; "1e+21"; "1e+23";
      "0.1"; "0.2"; "1.5"; "-0.25";
      "5e-324"; "1.7976931348623157e+308";
      "1e-7"; "0.000001"; "123456.789" ]%string.
Proof. vm_compute. reflexivity. Qed.

Lemma commaFree_append a b : commaFree (a +:+ b) = commaFree a && commaFree b.
Proof.
  induction a as [|c a IH]; [reflexivity|].
  rewrite append_cons. simpl. rewrite IH. now rewrite andb_assoc.
Qed.

Lemma commaFree_substring s n m : commaFree s = true -> commaFree (substring n m s) = true.
Proof.
  revert n m. induction s as [|c s IH]; intros n m H.
  - destruct n, m; reflexivity.
  - simpl in H. apply andb_true_iff in H as [Hc Hs].
    destruct n as [|n]; destruct m as [|m]; simpl; auto.
    rewrite Hc. simpl. now apply IH.
Qed.

Lemma commaFree_zeros n : commaFree (Number.zeros n) = true.
Proof. induction n as [|n IH]; [reflexivity | exact IH]. Qed.

Lemma commaFree_uint d : commaFree (NilEmpty.string_of_uint d) = true.
Proof. induction d; simpl; auto. Qed.

Lemma commaFree_toString z : commaFree (Number.toString z) = true.
Proof.
  unfold Number.toString. destruct (Z.to_int z) as [d|d]; simpl; apply commaFree_uint.
Qed.

Lemma commaFree_layout digits k n :
  commaFree digits = true -> commaFree (Number.layout digits k n) = true.
Proof.
  intros H. unfold Number.layout, Number.take, Number.drop.
  repeat match goal with |- context [if ?c then _ else _] => destruct c end;
    rewrite ?commaFree_append, ?commaFree_zeros, ?commaFree_toString,
      ?commaFree_substring, ?H by exact H; reflexivity.
Qed.

Lemma commaFree_printMagnitude p e : commaFree (Number.printMagnitude p e) = true.
Proof.
  unfold Number.printMagnitude.
  destruct (Number.shortest _ _ _ _ _ _) as [[s k] n].
  apply commaFree_layout, commaFree_toString.
Qed.

Lemma commaFree_ofNumber x : commaFree (JSON.ofNumber x) = true.
Proof.
  destruct x as [[|p|p] e| | | |]; try reflexivity.
  - apply commaFree_printMagnitude.
  - unfold JSON.ofNumber, Number.print. rewrite commaFree_append.
    now rewrite commaFree_printMagnitude.
Qed.

(** Two comma-free strings, each followed by a comma, that give the same
    string are the same. *)
Lemma comma_delimited x y r r' :
  commaFree x = true -> commaFree y = true ->
  x +:+ String "," r = y +:+ String "," r' -> x = y.
Proof.
  revert y. induction x as [|c x IH]; intros [|d y] Hx Hy H.
  - reflexivity.
  - rewrite append_nil, append_cons in H. injection H as <- _.
    simpl in Hy. discriminate Hy.
  - rewrite append_nil, append_cons in H. injection H as -> _.
    simpl in Hx. discriminate Hx.
  - rewrite !append_cons in H. injection H as -> H.
    simpl in Hx, Hy. apply andb_true_iff in Hx as [_ Hx]. apply andb_true_iff in Hy as [_ Hy].
    f_equal. eapply IH; eassumption.
Qed.

(** ** Proof of work *)

Lemma zeros_get (d k : nat) : k < d -> String.get k (Block.zeros d) = Some "0"%char.
Proof.
  revert k. induction d as [|d IH]; intros k Hk; [lia|].
  destruct k as [|k]; simpl; [reflexivity|]. apply IH. lia.
Qed.

(** The loop test holds exactly when the hash has [d] leading zeros. *)
Lemma meetsTarget_leading_zeros (d : nat) (h : string) :
  Block.meetsTarget d h = true <-> leadingZeros d h.
Proof.
  unfold Block.meetsTarget, leadingZeros. rewrite String.eqb_eq. split.
  - intros H k Hk.
    pose proof (substring_correct1 h 0 d k Hk) as E.
    rewrite H, Nat.add_0_r in E. rewrite <- E. now apply zeros_get.
  - revert h. induction d as [|d IH]; intros h H.
    + destruct h; reflexivity.
    + destruct h as [|c h].
      * specialize (H 0 ltac:(lia)). discriminate H.
      * pose proof (H 0 ltac:(lia)) as H0. simpl in H0. injection H0 as ->.
        simpl. f_equal. apply IH. intros k Hk. apply (H (S k)). lia.
Qed.

Lemma not_meetsTarget (d : nat) (h : string) :
  Block.meetsTarget d h = false <-> ~ leadingZeros d h.
Proof.
  rewrite <- meetsTarget_leading_zeros. destruct (Block.meetsTarget d h); split;
    congruence.
Qed.

Lemma new_sealed i ts txs ph : sealed (Block.new i ts txs ph).
Proof. reflexivity. Qed.

Lemma nextAttempt_sealed (b : Block.t) : sealed (Block.nextAttempt b).
Proof. reflexivity. Qed.

Lemma nextAttempt_sameContent (b : Block.t) : sameContent b (Block.nextAttempt b).
Proof. repeat split. Qed.

Lemma search_meetsTarget fuel d b b' :
  Block.search fuel d b = Some b' -> Block.meetsTarget d (Block.hash b') = true.
Proof.
  revert b. induction fuel as [|fuel IH]; intros b; simpl;
    destruct (Block.meetsTarget d (Block.hash b)) eqn:E; intros H.
  - now injection H as <-.
  - discriminate.
  - now injection H as <-.
  - eapply IH, H.
Qed.

Lemma search_sealed fuel d b b' :
  sealed b -> Block.search fuel d b = Some b' -> sealed b'.
Proof.
  revert b. induction fuel as [|fuel IH]; intros b Hb; simpl;
    destruct (Block.meetsTarget d (Block.hash b)); intros H.
  - now injection H as <-.
  - discriminate.
  - now injection H as <-.
  - eapply IH, H. apply nextAttempt_sealed.
Qed.

Lemma search_sameContent fuel d b b' :
  Block.search fuel d b = Some b' -> sameContent b b'.
Proof.
  revert b. induction fuel as [|fuel IH]; intros b; simpl;
    destruct (Block.meetsTarget d (Block.hash b)); intros H.
  - injection H as <-. repeat split.
  - discriminate.
  - injection H as <-. repeat split.
  - destruct (IH _ H) as (H1 & H2 & H3 & H4). repeat split; assumption.
Qed.

Lemma increment_bounds (n : N) : (n <= Block.increment n <= n + 1)%N.
Proof. unfold Block.increment. destruct (n <? 2 ^ 53)%N; lia. Qed.

(** The search tries the nonces in increasing order and skips none. *)
Lemma search_least fuel d b b' :
  sealed b -> Block.search fuel d b = Some b' ->
  (Block.nonce b <= Block.nonce b')%N
  /\ forall n, (Block.nonce b <= n < Block.nonce b')%N ->
       Block.meetsTarget d
         (Block.hashOf (Block.index b) (Block.timestamp b) (Block.transactions b)
                       (Block.previousHash b) n) = false.
Proof.
  revert b. induction fuel as [|fuel IH]; intros b Hb; simpl;
    destruct (Block.meetsTarget d (Block.hash b)) eqn:E; intros H.
  - injection H as <-. split; [lia | intros n Hn; lia].
  - discriminate.
  - injection H as <-. split; [lia | intros n Hn; lia].
  - destruct (IH _ (nextAttempt_sealed b) H) as [Hle Hbelow]. simpl in Hle, Hbelow.
    pose proof (increment_bounds (Block.nonce b)) as Hi.
    split; [lia|]. intros n Hn.
    destruct (N.eq_dec n (Block.nonce b)) as [-> | Hne].
    + unfold sealed, Block.calculateHash in Hb. now rewrite <- Hb.
    + apply Hbelow. lia.
Qed.

(** *** When the search returns *)

(** A digest has 64 characters. *)
Lemma sha256_hex_length (s : string) : String.length (SHA256.sha256_hex s) = 64.
Proof.
  unfold SHA256.sha256_hex, SHA256.hex, SHA256.digest.
  generalize (SHA256.blocks
                (length (SHA256.pad (map N_of_ascii (list_ascii_of_string s))) `div` 64)
                SHA256.init (SHA256.pad (map N_of_ascii (list_ascii_of_string s)))).
  intros h. reflexivity.
Qed.

Lemma zeros_length (d : nat) : String.length (Block.zeros d) = d.
Proof. induction d as [|d IH]; simpl; [reflexivity | now rewrite IH]. Qed.

Lemma substring_length_le (d : nat) (h : string) :
  String.length (substring 0 d h) <= String.length h.
Proof.
  revert h. induction d as [|d IH]; intros [|c h]; simpl; try lia.
  specialize (IH h). lia.
Qed.

Lemma meetsTarget_length (d : nat) (h : string) :
  Block.meetsTarget d h = true -> d <= String.length h.
Proof.
  unfold Block.meetsTarget. rewrite String.eqb_eq. intros H.
  pose proof (substring_length_le d h) as Hle.
  rewrite H, zeros_length in Hle. exact Hle.
Qed.

(** With difficulty 0 the loop body never runs. *)
Lemma search_difficulty_zero fuel b : Block.search fuel 0 b = Some b.
Proof.
  destruct fuel; simpl; unfold Block.meetsTarget;
    destruct (Block.hash b); reflexivity.
Qed.

(** Beyond the length of a digest no hash meets the target: on a sealed block
    the search runs forever. *)
Lemma search_beyond_digest fuel d b :
  64 < d -> sealed b -> Block.search fuel d b = None.
Proof.
  intros Hd. revert b. induction fuel as [|fuel IH]; intros b Hb; simpl.
  - destruct (Block.meetsTarget d (Block.hash b)) eqn:E; [|reflexivity].
    apply meetsTarget_length in E. rewrite Hb in E.
    unfold Block.calculateHash, Block.hashOf in E. rewrite sha256_hex_length in E. lia.
  - destruct (Block.meetsTarget d (Block.hash b)) eqn:E.
    + apply meetsTarget_length in E. rewrite Hb in E.
      unfold Block.calculateHash, Block.hashOf in E. rewrite sha256_hex_length in E. lia.
    + apply IH, nextAttempt_sealed.
Qed.

(** [mineBlock] tests the stored hash before it computes one: on a block whose
    stored hash already has the leading zeros, the call returns at once and
    leaves the stored hash as it found it. *)
Lemma mineBlock_meets_already d b :
  Block.meetsTarget d (Block.hash b) = true ->
  forall fuel, Block.mineBlock fuel d b
               = Some (b, [Block.startMessage b; Block.minedMessage b]).
Proof.
  intros H fuel. unfold Block.mineBlock.
  destruct fuel; simpl; rewrite H; reflexivity.
Qed.

(** C2, as stated, fails: the block [Examples.stale] (a mined block one of
    whose amounts was overwritten afterwards) comes back from [mineBlock(2)]
    untouched, with a stored hash that is not the hash of its fields. *)
Lemma mineBlock_stale_counterexample :
  Block.mineBlock 0 2 Examples.stale = Some (Examples.stale, Examples.minedLog)
  /\ Block.hash Examples.stale <> Block.calculateHash Examples.stale.
Proof.
  split.
  - vm_compute. reflexivity.
  - intros H. vm_compute in H. discriminate H.
Qed.

(** C2 (amended): for every block whose stored hash equals [calculateHash] of
    its fields when [mineBlock(d)] is called, as it does right after
    construction, and every difficulty [d]: after [mineBlock(d)] returns, the
    first [d] characters of the block's hash are all '0' and the hash equals
    [calculateHash] of the block's current fields. *)
Theorem mineBlock_postcondition fuel d b b' out :
  sealed b ->
  Block.mineBlock fuel d b = Some (b', out) ->
  leadingZeros d (Block.hash b') /\ Block.hash b' = Block.calculateHash b'.
Proof.
  intros Hb H. unfold Block.mineBlock in H.
  destruct (Block.search fuel d b) as [r|] eqn:E; [|discriminate].
  injection H as <- _. split.
  - apply meetsTarget_leading_zeros. eapply search_meetsTarget, E.
  - eapply search_sealed; eassumption.
Qed.

Lemma mineBlock_postcondition_witness :
  leadingZeros 2 (Block.hash Examples.mined)
  /\ Block.hash Examples.mined = Block.calculateHash Examples.mined.
Proof.
  apply (mineBlock_postcondition 100 2 Examples.candidate Examples.mined Examples.minedLog).
  - apply new_sealed.
  - vm_compute. reflexivity.
Defined.

(** C9, as stated, fails: [Examples.mined] is the block that [mineBlock(2)]
    has returned, with nonce 43; a further [mineBlock(1)] on it returns at
    once, for its hash has a leading zero, and leaves the nonce at 43,
    although the hash for nonce 1 has a leading zero too. *)
Lemma mineBlock_not_least_counterexample :
  Block.mineBlock 100 2 Examples.candidate = Some (Examples.mined, Examples.minedLog)
  /\ (forall fuel,
        exists out, Block.mineBlock fuel 1 Examples.mined = Some (Examples.mined, out))
  /\ Block.nonce Examples.mined = 43%N
  /\ leadingZeros 1
       (Block.hashOf (Block.index Examples.mined) (Block.timestamp Examples.mined)
          (Block.transactions Examples.mined) (Block.previousHash Examples.mined) 1)
  /\ (1 < 43)%N.
Proof.
  split; [vm_compute; reflexivity|].
  split; [intros fuel; eexists; unfold Block.mineBlock; destruct fuel; reflexivity|].
  split; [reflexivity|].
  split; [apply meetsTarget_leading_zeros; vm_compute; reflexivity | reflexivity].
Qed.

(** C9 (amended): after [mineBlock(d)] returns on a freshly constructed
    block (nonce 0, hash computed by the constructor), the block's nonce is
    the smallest non-negative integer [n] for which the hash of (index,
    timestamp, transactions, previousHash, n) has [d] leading zeros; if the
    hash computed by the constructor, with nonce 0, already has them, the
    nonce stays 0. *)
Theorem mineBlock_least_nonce fuel d i ts txs ph b' out :
  Block.mineBlock fuel d (Block.new i ts txs ph) = Some (b', out) ->
  leadingZeros d (Block.hashOf i ts txs ph (Block.nonce b'))
  /\ (forall n, (n < Block.nonce b')%N ->
        ~ leadingZeros d (Block.hashOf i ts txs ph n))
  /\ (leadingZeros d (Block.hash (Block.new i ts txs ph)) -> Block.nonce b' = 0%N).
Proof.
  intros H. unfold Block.mineBlock in H.
  destruct (Block.search fuel d (Block.new i ts txs ph)) as [r|] eqn:E; [|discriminate].
  injection H as <- _.
  pose proof (search_meetsTarget _ _ _ _ E) as Hmeets.
  pose proof (search_sealed _ _ _ _ (new_sealed i ts txs ph) E) as Hsealed.
  destruct (search_sameContent _ _ _ _ E) as (Hi & Ht & Hx & Hp).
  destruct (search_least _ _ _ _ (new_sealed i ts txs ph) E) as [_ Hleast].
  simpl in Hi, Ht, Hx, Hp, Hleast.
  split; [|split].
  - apply meetsTarget_leading_zeros.
    unfold sealed, Block.calculateHash in Hsealed.
    rewrite Hi, Ht, Hx, Hp in Hsealed. now rewrite <- Hsealed.
  - intros n Hn. apply not_meetsTarget, Hleast. lia.
  - intros H0. apply meetsTarget_leading_zeros in H0.
    destruct (N.eq_dec (Block.nonce r) 0%N) as [|Hne]; [assumption|].
    assert (Block.meetsTarget d (Block.hashOf i ts txs ph 0%N) = false) as Hf
      by (apply Hleast; lia).
    simpl in H0. congruence.
Qed.

Lemma mineBlock_least_nonce_witness :
  leadingZeros 2 (Block.hashOf 1 1700000000000 [Examples.aliceToBob] "0" 43)
  /\ (forall n, (n < 43)%N ->
        ~ leadingZeros 2 (Block.hashOf 1 1700000000000 [Examples.aliceToBob] "0" n))
  /\ (leadingZeros 2 (Block.hash Examples.candidate) -> 43%N = 0%N).
Proof.
  apply (mineBlock_least_nonce 100 2 1 1700000000000 [Examples.aliceToBob] "0"
           Examples.mined Examples.minedLog).
  vm_compute. reflexivity.
Defined.

(** ** Methods *)

Lemma bind_gets {A B : Type} (field : Blockchain.t -> A) (k : A -> Blockchain.Method B)
    (s : Blockchain.t) :
  (Blockchain.gets field ≫= k) s = k (field s) s.
Proof.
  unfold mbind, Blockchain.Method_bind, Blockchain.bind, Blockchain.gets.
  destruct (k (field s) s) as [[c s' o]|]; reflexivity.
Qed.

Lemma readOnly_ret {A : Type} (a : A) : readOnly (Blockchain.ret a).
Proof. intros s o H. injection H as <-. reflexivity. Qed.

Lemma readOnly_gets {A : Type} (field : Blockchain.t -> A) : readOnly (Blockchain.gets field).
Proof. intros s o H. injection H as <-. reflexivity. Qed.

Lemma readOnly_log (line : string) : readOnly (Blockchain.log line).
Proof. intros s o H. injection H as <-. reflexivity. Qed.

Lemma readOnly_throw {A : Type} (message : string) : readOnly (@Blockchain.throw A message).
Proof. intros s o H. injection H as <-. reflexivity. Qed.

Lemma readOnly_bind {A B : Type} (m : Blockchain.Method A) (k : A -> Blockchain.Method B) :
  readOnly m -> (forall a, readOnly (k a)) -> readOnly (m ≫= k).
Proof.
  intros Hm Hk s o. unfold mbind, Blockchain.Method_bind, Blockchain.bind.
  destruct (m s) as [[[a|e] s1 o1]|] eqn:E1; [| |discriminate].
  - pose proof (Hm _ _ E1) as H1. simpl in H1. subst s1.
    destruct (k a s) as [[c s2 o2]|] eqn:E2; [|discriminate].
    pose proof (Hk _ _ _ E2) as H2. simpl in H2. subst s2.
    intros H. injection H as <-. reflexivity.
  - pose proof (Hm _ _ E1) as H1. simpl in H1. subst s1.
    intros H. injection H as <-. reflexivity.
Qed.

Create HintDb readonly.
#[local] Hint Resolve readOnly_ret readOnly_gets readOnly_log readOnly_throw : readonly.

Lemma validateFrom_readOnly turns i : readOnly (Blockchain.validateFrom turns i).
Proof.
  revert i. induction turns as [|turns IH]; intros i; simpl.
  - apply readOnly_ret.
  - apply readOnly_bind; [apply readOnly_gets|]. intros c.
    destruct (c !! i) as [current|]; [|apply readOnly_throw].
    destruct (c !! (i - 1)) as [previous|]; [|apply readOnly_throw].
    destruct (negb _).
    { apply readOnly_bind; auto with readonly. }
    destruct (negb _).
    { apply readOnly_bind; auto with readonly. }
    apply IH.
Qed.

Lemma validateChain_readOnly : readOnly Blockchain.validateChain.
Proof.
  apply readOnly_bind; [apply readOnly_gets|]. intros c. apply validateFrom_readOnly.
Qed.

Lemma getBalance_readOnly address : readOnly (Blockchain.getBalance address).
Proof.
  apply readOnly_bind; [apply readOnly_gets|]. intros c. apply readOnly_ret.
Qed.

(** ** Validation *)

Lemma validateFrom_step turns i s :
  Blockchain.validateFrom (S turns) i s
  = match Blockchain.chain s !! i, Blockchain.chain s !! (i - 1) with
    | Some current, Some previous =>
        if negb (String.eqb (Block.hash current) (Block.calculateHash current))
        then Some (report (Corrupted i) s)
        else if negb (String.eqb (Block.previousHash current) (Block.hash previous))
        then Some (report (BrokenLink i) s)
        else Blockchain.validateFrom turns (S i) s
    | _, _ => Some (Blockchain.mkOutcome (Blockchain.Throw Blockchain.undefinedBlock) s [])
    end.
Proof.
  change (Blockchain.validateFrom (S turns) i s)
    with ((Blockchain.gets Blockchain.chain ≫= fun c =>
            match c !! i, c !! (i - 1) with
            | Some current, Some previous =>
                if negb (String.eqb (Block.hash current) (Block.calculateHash current))
                then Blockchain.log (Blockchain.corruptedMessage i);; Blockchain.ret false
                else if negb (String.eqb (Block.previousHash current) (Block.hash previous))
                then Blockchain.log (Blockchain.brokenLinkMessage i);; Blockchain.ret false
                else Blockchain.validateFrom turns (S i)
            | _, _ => Blockchain.throw Blockchain.undefinedBlock
            end) s).
  rewrite bind_gets.
  destruct (Blockchain.chain s !! i) as [current|]; [|reflexivity].
  destruct (Blockchain.chain s !! (i - 1)) as [previous|]; [|reflexivity].
  destruct (negb _); [reflexivity|].
  destruct (negb _); reflexivity.
Qed.

(** The loop returns the report of the verdict that describes the chain. *)
Lemma validateFrom_describes turns i s :
  1 <= i -> turns = length (Blockchain.chain s) - i ->
  exists v, describes (Blockchain.chain s) i v
            /\ Blockchain.validateFrom turns i s = Some (report v s).
Proof.
  revert i. induction turns as [|turns IH]; intros i Hi Hlen.
  - exists Intact. split; [intros j Hj; lia | reflexivity].
  - rewrite validateFrom_step.
    destruct (lookup_lt_is_Some_2 (Blockchain.chain s) i) as [current Hc]; [lia|].
    destruct (lookup_lt_is_Some_2 (Blockchain.chain s) (i - 1)) as [previous Hp]; [lia|].
    rewrite Hc, Hp.
    destruct (String.eqb_spec (Block.hash current) (Block.calculateHash current)) as [Hh|Hh];
      simpl.
    2:{ exists (Corrupted i). split; [|reflexivity].
        split; [lia|]. split; [intros j Hj; lia|]. eauto. }
    destruct (String.eqb_spec (Block.previousHash current) (Block.hash previous)) as [Hl|Hl];
      simpl.
    2:{ exists (BrokenLink i). split; [|reflexivity].
        split; [lia|]. split; [intros j Hj; lia|]. eauto 10. }
    destruct (IH (S i)) as (v & Hv & Hrun); [lia | lia |].
    exists v. split; [|assumption].
    assert (passes (Blockchain.chain s) i) as Hpass by (exists current, previous; auto).
    destruct v as [|k|k]; simpl in *.
    + intros j Hj. destruct (decide (j = i)) as [->|]; [assumption|]. apply Hv. lia.
    + destruct Hv as (Hk & Hbelow & Hbad). split; [lia|]. split; [|assumption].
      intros j Hj. destruct (decide (j = i)) as [->|]; [assumption|]. apply Hbelow. lia.
    + destruct Hv as (Hk & Hbelow & Hbad). split; [lia|]. split; [|assumption].
      intros j Hj. destruct (decide (j = i)) as [->|]; [assumption|]. apply Hbelow. lia.
Qed.

Lemma validateChain_unfold s :
  Blockchain.validateChain s
  = Blockchain.validateFrom (length (Blockchain.chain s) - 1) 1 s.
Proof. unfold Blockchain.validateChain. now rewrite bind_gets. Qed.

(** A block that passes is neither corrupted nor badly linked. *)
Lemma passes_not_corrupted c i current :
  passes c i -> c !! i = Some current ->
  Block.hash current = Block.calculateHash current.
Proof. intros (cur & prev & Hc & _ & Hh & _) H. congruence. Qed.

Lemma passes_linked c i current previous :
  passes c i -> c !! i = Some current -> c !! (i - 1) = Some previous ->
  Block.previousHash current = Block.hash previous.
Proof. intros (cur & prev & Hc & Hp & _ & Hl) H1 H2. congruence. Qed.

(** At most one verdict describes a chain. *)
Lemma describes_unique c from v v' :
  describes c from v -> describes c from v' -> v = v'.
Proof.
  assert (forall w, describes c from w ->
            match w with
            | Intact => True
            | Corrupted k | BrokenLink k => from <= k < length c /\ ~ passes c k
                                            /\ forall j, from <= j < k -> passes c j
            end) as Hfail.
  { intros [|k|k]; simpl; [trivial| |].
    - intros (Hk & Hb & cur & Hc & Hne). repeat split; try lia; [|assumption].
      intros Hp. apply Hne. eapply passes_not_corrupted; eassumption.
    - intros (Hk & Hb & cur & prev & Hc & Hp & _ & Hne). repeat split; try lia; [|assumption].
      intros Hpass. apply Hne. eapply passes_linked; eassumption. }
  intros H H'. pose proof (Hfail _ H) as F. pose proof (Hfail _ H') as F'.
  assert (forall k k', from <= k < length c -> ~ passes c k ->
            (forall j, from <= j < k' -> passes c j) -> k' <= k) as Hord.
  { intros k k' Hk Hn Hb. destruct (le_lt_dec k' k); [assumption|].
    exfalso. apply Hn, Hb. lia. }
  destruct v as [|k|k], v' as [|k'|k']; simpl in F, F'; try reflexivity.
  - exfalso. destruct F' as (Hk & Hn & _). apply Hn, H, Hk.
  - exfalso. destruct F' as (Hk & Hn & _). apply Hn, H, Hk.
  - exfalso. destruct F as (Hk & Hn & _). apply Hn, H', Hk.
  - destruct F as (Hk & Hn & Hb), F' as (Hk' & Hn' & Hb').
    pose proof (Hord _ _ Hk Hn Hb'). pose proof (Hord _ _ Hk' Hn' Hb).
    f_equal. lia.
  - exfalso. destruct F as (Hk & Hn & Hb), F' as (Hk' & Hn' & Hb').
    pose proof (Hord _ _ Hk Hn Hb'). pose proof (Hord _ _ Hk' Hn' Hb).
    assert (k = k') as -> by lia.
    destruct H as (_ & _ & cur & Hc & Hne).
    destruct H' as (_ & _ & cur' & prev' & Hc' & _ & Hh' & _). congruence.
  - exfalso. destruct F as (Hk & Hn & _). apply Hn, H', Hk.
  - exfalso. destruct F as (Hk & Hn & Hb), F' as (Hk' & Hn' & Hb').
    pose proof (Hord _ _ Hk Hn Hb'). pose proof (Hord _ _ Hk' Hn' Hb).
    assert (k = k') as -> by lia.
    destruct H' as (_ & _ & cur & Hc & Hne).
    destruct H as (_ & _ & cur' & prev' & Hc' & _ & Hh' & _). congruence.
  - destruct F as (Hk & Hn & Hb), F' as (Hk' & Hn' & Hb').
    pose proof (Hord _ _ Hk Hn Hb'). pose proof (Hord _ _ Hk' Hn' Hb).
    f_equal. lia.
Qed.

(** The loop's outcome is the report of any verdict that describes the chain. *)
Lemma validateChain_report s v :
  describes (Blockchain.chain s) 1 v -> Blockchain.validateChain s = Some (report v s).
Proof.
  intros Hv. rewrite validateChain_unfold.
  destruct (validateFrom_describes (length (Blockchain.chain s) - 1) 1 s)
    as (w & Hw & Hrun); [lia | reflexivity |].
  now rewrite (describes_unique _ _ _ _ Hv Hw).
Qed.

Lemma validateChain_verdict s :
  exists v, describes (Blockchain.chain s) 1 v
            /\ Blockchain.validateChain s = Some (report v s).
Proof.
  rewrite validateChain_unfold. apply validateFrom_describes; [lia | reflexivity].
Qed.

(** Whether a block passes is decided by the block and its predecessor. *)
Lemma passes_agree c c' i :
  c' !! i = c !! i -> c' !! (i - 1) = c !! (i - 1) -> passes c i -> passes c' i.
Proof.
  intros Hi Hp (cur & prev & H1 & H2 & H3 & H4).
  exists cur, prev. rewrite Hi, Hp. auto.
Qed.

Lemma passes_dec c i : passes c i \/ ~ passes c i.
Proof.
  destruct (c !! i) as [cur|] eqn:Hc.
  2:{ right. intros (x & y & H & _). congruence. }
  destruct (c !! (i - 1)) as [prev|] eqn:Hp.
  2:{ right. intros (x & y & _ & H & _). congruence. }
  destruct (String.eqb_spec (Block.hash cur) (Block.calculateHash cur)) as [Hh|Hh].
  2:{ right. intros (x & y & H1 & _ & H3 & _). congruence. }
  destruct (String.eqb_spec (Block.previousHash cur) (Block.hash prev)) as [Hl|Hl].
  2:{ right. intros (x & y & H1 & H2 & _ & H4). congruence. }
  left. exists cur, prev. auto.
Qed.

(** The first block that does not pass fixes the verdict. *)
Lemma first_failure_verdict c i :
  1 <= i < length c -> (forall j, 1 <= j < i -> passes c j) -> ~ passes c i ->
  describes c 1 (Corrupted i) \/ describes c 1 (BrokenLink i).
Proof.
  intros Hi Hb Hn.
  destruct (lookup_lt_is_Some_2 c i) as [cur Hc]; [lia|].
  destruct (lookup_lt_is_Some_2 c (i - 1)) as [prev Hp]; [lia|].
  destruct (String.eqb_spec (Block.hash cur) (Block.calculateHash cur)) as [Hh|Hh].
  - right. split; [assumption|]. split; [assumption|].
    exists cur, prev. repeat split; try assumption.
    intros Hl. apply Hn. exists cur, prev. auto.
  - left. split; [assumption|]. split; [assumption|]. eauto.
Qed.

(** A verdict that names block [i] depends on the blocks up to [i] only. *)
Lemma describes_prefix c c' i v :
  v = Corrupted i \/ v = BrokenLink i ->
  take (S i) c' = take (S i) c ->
  describes c 1 v -> describes c' 1 v.
Proof.
  intros Hv Htake.
  assert (forall j, j <= i -> c' !! j = c !! j) as Hsame.
  { intros j Hj. rewrite <- (lookup_take_lt c' (S i) j), <- (lookup_take_lt c (S i) j) by lia.
    now rewrite Htake. }
  assert (forall j, 1 <= j <= i -> passes c j -> passes c' j) as Hpass.
  { intros j Hj. apply passes_agree; apply Hsame; lia. }
  assert (i < length c -> i < length c') as Hlen.
  { intros H. apply lookup_lt_is_Some. rewrite Hsame by lia. apply lookup_lt_is_Some. lia. }
  destruct Hv as [-> | ->]; simpl.
  - intros (Hi & Hb & cur & Hc & Hne). split; [lia|]. split.
    + intros j Hj. apply Hpass; [lia|]. apply Hb, Hj.
    + exists cur. rewrite Hsame by lia. auto.
  - intros (Hi & Hb & cur & prev & Hc & Hp & Hh & Hne). split; [lia|]. split.
    + intros j Hj. apply Hpass; [lia|]. apply Hb, Hj.
    + exists cur, prev. rewrite !Hsame by lia. auto.
Qed.

(** A verdict reads nothing of block 0 but its stored hash. *)
Lemma describes_genesis g g' rest v :
  Block.hash g' = Block.hash g ->
  describes (g :: rest) 1 v -> describes (g' :: rest) 1 v.
Proof.
  intros Hg.
  assert (forall j, 1 <= j -> passes (g :: rest) j -> passes (g' :: rest) j) as Hpass.
  { intros j Hj (cur & prev & Hc & Hp & Hh & Hl).
    destruct j as [|[|j]]; [lia| |].
    - simpl in Hc, Hp. injection Hp as <-.
      exists cur, g'. simpl. repeat split; congruence.
    - exists cur, prev. auto. }
  destruct v as [|i|i]; simpl.
  - intros H j Hj. apply Hpass; [lia|]. apply H. simpl. lia.
  - intros (Hi & Hb & cur & Hc & Hne). split; [simpl in *; lia|]. split.
    + intros j Hj. apply Hpass; [lia|]. apply Hb, Hj.
    + exists cur. destruct i; [lia|]. auto.
  - intros (Hi & Hb & cur & prev & Hc & Hp & Hh & Hne). split; [simpl in *; lia|]. split.
    + intros j Hj. apply Hpass; [lia|]. apply Hb, Hj.
    + destruct i as [|[|i]]; [lia| |].
      * simpl in Hc, Hp. injection Hp as <-. exists cur, g'. simpl.
        repeat split; congruence.
      * exists cur, prev. auto.
Qed.

(** C1: [validateChain] returns true if and only if every block from index 1
    to the end has a stored hash equal to the hash recomputed from its fields
    and a [previousHash] equal to the stored hash of the block before it.  The
    first block that fails a check decides the outcome, whatever blocks come
    after it; and of block 0 only the stored hash is read, never the fields
    that its hash would be recomputed from. *)
Theorem validateChain_true_iff_all_pass (s : Blockchain.t) :
  (exists b out,
      Blockchain.validateChain s
      = Some (Blockchain.mkOutcome (Blockchain.Normal b) s out)
      /\ (b = true <->
          forall i, 1 <= i < length (Blockchain.chain s) -> passes (Blockchain.chain s) i))
  /\ (forall i s',
        1 <= i < length (Blockchain.chain s) ->
        (forall j, 1 <= j < i -> passes (Blockchain.chain s) j) ->
        ~ passes (Blockchain.chain s) i ->
        take (S i) (Blockchain.chain s') = take (S i) (Blockchain.chain s) ->
        exists out,
          Blockchain.validateChain s
          = Some (Blockchain.mkOutcome (Blockchain.Normal false) s out)
          /\ Blockchain.validateChain s'
             = Some (Blockchain.mkOutcome (Blockchain.Normal false) s' out))
  /\ (forall g g' rest,
        Blockchain.chain s = g :: rest -> Block.hash g' = Block.hash g ->
        exists b out,
          Blockchain.validateChain s
          = Some (Blockchain.mkOutcome (Blockchain.Normal b) s out)
          /\ Blockchain.validateChain (withChain (g' :: rest) s)
             = Some (Blockchain.mkOutcome (Blockchain.Normal b)
                       (withChain (g' :: rest) s) out)).
Proof.
  split; [|split].
  - destruct (validateChain_verdict s) as (v & Hv & Hrun). rewrite Hrun.
    destruct v as [|k|k]; simpl in *.
    + exists true, []. split; [reflexivity|]. split; auto.
    + exists false, [Blockchain.corruptedMessage k]. split; [reflexivity|].
      split; [discriminate|]. intros Hall. exfalso.
      destruct Hv as (Hk & _ & cur & Hc & Hne).
      apply Hne. eapply passes_not_corrupted; [apply Hall, Hk | exact Hc].
    + exists false, [Blockchain.brokenLinkMessage k]. split; [reflexivity|].
      split; [discriminate|]. intros Hall. exfalso.
      destruct Hv as (Hk & _ & cur & prev & Hc & Hp & _ & Hne).
      apply Hne. eapply passes_linked; [apply Hall, Hk | exact Hc | exact Hp].
  - intros i s' Hi Hb Hn Htake.
    destruct (first_failure_verdict _ _ Hi Hb Hn) as [Hv|Hv].
    + rewrite (validateChain_report s _ Hv).
      rewrite (validateChain_report s' (Corrupted i)).
      * eexists. split; reflexivity.
      * eapply describes_prefix; eauto.
    + rewrite (validateChain_report s _ Hv).
      rewrite (validateChain_report s' (BrokenLink i)).
      * eexists. split; reflexivity.
      * eapply describes_prefix; eauto.
  - intros g g' rest Hchain Hg.
    destruct (validateChain_verdict s) as (v & Hv & Hrun). rewrite Hrun.
    rewrite Hchain in Hv.
    rewrite (validateChain_report (withChain (g' :: rest) s) v)
      by (simpl; now apply describes_genesis with g).
    destruct v; simpl; eexists _, _; split; reflexivity.
Qed.

(** C8: [validateChain] always returns and never mutates the ledger: after
    the call the chain with every field of every block, the pending
    transactions, the difficulty and the mining reward are what they were
    before it. *)
Theorem validateChain_frame (s : Blockchain.t) :
  exists o,
    Blockchain.validateChain s = Some o
    /\ Blockchain.chain (Blockchain.after o) = Blockchain.chain s
    /\ Blockchain.pendingTransactions (Blockchain.after o) = Blockchain.pendingTransactions s
    /\ Blockchain.difficulty (Blockchain.after o) = Blockchain.difficulty s
    /\ Blockchain.miningReward (Blockchain.after o) = Blockchain.miningReward s.
Proof.
  destruct (validateChain_verdict s) as (v & _ & Hrun).
  exists (report v s). split; [assumption|].
  rewrite (validateChain_readOnly _ _ Hrun). auto.
Qed.

(** ** Tampering *)

Lemma elements_cons2 tx r rest :
  JSON.elements (tx :: r :: rest)
  = JSON.ofTransaction tx +:+ "," +:+ JSON.elements (r :: rest).
Proof. reflexivity. Qed.

(** Overwriting an amount replaces the printed amount and nothing else. *)
Lemma elements_setAmount txs j tx v :
  txs !! j = Some tx ->
  exists P T,
    JSON.elements txs = P +:+ JSON.ofNumber (Transaction.amount tx) +:+ T
    /\ JSON.elements (alter (Transaction.setAmount v) j txs) = P +:+ JSON.ofNumber v +:+ T.
Proof.
  revert j. induction txs as [|tx0 rest IH]; intros j Hj; [discriminate|].
  destruct j as [|j].
  - injection Hj as ->. destruct rest as [|r rest].
    + exists (JSON.beforeAmount tx), (JSON.afterAmount tx). split; reflexivity.
    + exists (JSON.beforeAmount tx),
        (JSON.afterAmount tx +:+ "," +:+ JSON.elements (r :: rest)).
      change (alter (Transaction.setAmount v) 0 (tx :: r :: rest))
        with (Transaction.setAmount v tx :: r :: rest).
      rewrite !elements_cons2. unfold JSON.ofTransaction.
      change (JSON.beforeAmount (Transaction.setAmount v tx)) with (JSON.beforeAmount tx).
      change (JSON.afterAmount (Transaction.setAmount v tx)) with (JSON.afterAmount tx).
      change (Transaction.amount (Transaction.setAmount v tx)) with v.
      rewrite !append_assoc. split; reflexivity.
  - destruct rest as [|r rest]; [discriminate|].
    destruct (IH j Hj) as (P & T & H1 & H2).
    exists (JSON.ofTransaction tx0 +:+ "," +:+ P), T.
    change (alter (Transaction.setAmount v) (S j) (tx0 :: r :: rest))
      with (tx0 :: alter (Transaction.setAmount v) j (r :: rest)).
    assert (exists r' rest', alter (Transaction.setAmount v) j (r :: rest) = r' :: rest')
      as (r' & rest' & Hr) by (destruct j; simpl; eauto).
    rewrite Hr in *. rewrite !elements_cons2, H1, H2, !append_assoc.
    split; reflexivity.
Qed.

(** Overwriting an amount by a number that prints differently changes the
    string the block is hashed from. *)
Lemma preimage_setAmount b j v tx b' :
  Block.transactions b !! j = Some tx ->
  Block.setAmount j v b = Some b' ->
  JSON.ofNumber v <> JSON.ofNumber (Transaction.amount tx) ->
  preimageOf b' <> preimageOf b.
Proof.
  intros Htx Hset Hne. unfold Block.setAmount in Hset. rewrite Htx in Hset.
  injection Hset as <-. unfold preimageOf, Block.preimage, JSON.stringify. simpl.
  destruct (elements_setAmount _ _ _ v Htx) as (P & T & -> & ->).
  intros H. apply Hne.
  rewrite !append_assoc in H.
  repeat apply append_inv_head in H.
  rewrite <- !append_assoc in H.
  repeat apply append_inv_tail in H.
  repeat apply append_inv_head in H.
  exact H.
Qed.

(** A chain that validates has every block from 1 on passing. *)
Lemma valid_all_pass s :
  Blockchain.validateChain s = Some (report Intact s) ->
  forall i, 1 <= i < length (Blockchain.chain s) -> passes (Blockchain.chain s) i.
Proof.
  intros H. destruct (validateChain_verdict s) as (v & Hv & Hrun).
  rewrite Hrun in H. injection H as H.
  assert (v = Intact) as -> by (destruct v; [reflexivity | discriminate H | discriminate H]).
  exact Hv.
Qed.

(** *** An object in several slots *)

Lemma sameSlot_eq a b : sameSlot a b = true <-> a = b.
Proof.
  destruct a as [i j|j], b as [i' j'|j']; simpl;
    rewrite ?andb_true_iff, ?Nat.eqb_eq; split; intros H;
    try discriminate H; try (destruct H; congruence); try (injection H; auto); congruence.
Qed.

Lemma sitsIn_elem_of object slot : sitsIn object slot = true <-> slot ∈ object.
Proof.
  unfold sitsIn. rewrite existsb_exists, list_elem_of_In. split.
  - intros (x & Hin & Heq). apply sameSlot_eq in Heq. now subst.
  - intros Hin. exists slot. split; [exact Hin | now apply sameSlot_eq].
Qed.

(** An array none of whose slots holds the object is left as it is. *)
Lemma overwriteAmounts_none object slotOf v txs :
  (forall j, sitsIn object (slotOf j) = false) ->
  overwriteAmounts object slotOf v txs = txs.
Proof.
  unfold overwriteAmounts. revert slotOf.
  induction txs as [|tx txs IH]; intros slotOf H; [reflexivity|].
  rewrite imap_cons, H. f_equal. apply (IH (slotOf ∘ S)). intros j. apply H.
Qed.

Lemma elements_cons tx rest :
  JSON.elements (tx :: rest)
  = JSON.ofTransaction tx
    +:+ match rest with [] => EmptyString | _ => "," +:+ JSON.elements rest end.
Proof.
  destruct rest as [|r rest]; [|reflexivity].
  simpl. induction (JSON.ofTransaction tx) as [|c t IH]; [reflexivity|].
  rewrite append_cons. now rewrite <- IH.
Qed.

(** Overwriting the amount in one or more slots of an array, all of which
    held amounts printed alike, by a number printed otherwise changes the
    serialisation of the array: the first slot overwritten is where the two
    serialisations part, the comma behind the amount marking its end. *)
Lemma elements_overwriteAmounts object slotOf v txs printed :
  (forall j tx, sitsIn object (slotOf j) = true -> txs !! j = Some tx ->
                JSON.ofNumber (Transaction.amount tx) = printed) ->
  JSON.ofNumber v <> printed ->
  (exists j, sitsIn object (slotOf j) = true /\ j < length txs) ->
  JSON.elements (overwriteAmounts object slotOf v txs) <> JSON.elements txs.
Proof.
  unfold overwriteAmounts. revert slotOf.
  induction txs as [|tx rest IH]; intros slotOf Hold Hne (j & Hj & Hlt); [simpl in Hlt; lia|].
  rewrite imap_cons, !elements_cons.
  destruct (sitsIn object (slotOf 0)) eqn:E0.
  - specialize (Hold 0 tx E0 eq_refl). unfold JSON.ofTransaction.
    change (JSON.beforeAmount (Transaction.setAmount v tx)) with (JSON.beforeAmount tx).
    change (JSON.afterAmount (Transaction.setAmount v tx)) with (JSON.afterAmount tx).
    change (Transaction.amount (Transaction.setAmount v tx)) with v.
    rewrite Hold. unfold JSON.afterAmount. rewrite !append_assoc.
    intros H. apply append_inv_head in H. rewrite !append_cons, !append_nil in H.
    apply Hne. rewrite <- Hold.
    eapply comma_delimited; [apply commaFree_ofNumber | apply commaFree_ofNumber |].
    rewrite Hold. exact H.
  - intros H. apply append_inv_head in H.
    destruct j as [|j]; [congruence|]. simpl in Hlt.
    destruct rest as [|r rest]; [simpl in Hlt; lia|].
    match type of H with context [imap ?f (r :: rest)] => set (rest' := imap f (r :: rest)) in * end.
    assert (exists r' rest'', rest' = r' :: rest'') as (r' & rest'' & Hrest)
      by (unfold rest'; rewrite imap_cons; eauto).
    rewrite Hrest in H. rewrite !append_cons, !append_nil in H.
    injection H as H.
    change (JSON.elements (r' :: rest'') = JSON.elements (r :: rest)) in H.
    rewrite <- Hrest in H. unfold rest' in H.
    apply (IH (slotOf ∘ S)) in H; [exact H | | exact Hne |].
    + intros k tx' Hk Hlook. apply (Hold (S k) tx' Hk Hlook).
    + exists j. split; [exact Hj | lia].
Qed.

(** The block [i] of the ledger after the assignment. *)
Lemma assignAmount_lookup object v s i b :
  Blockchain.chain s !! i = Some b ->
  Blockchain.chain (assignAmount object v s) !! i
  = Some (Block.mk (Block.index b) (Block.timestamp b)
            (overwriteAmounts object (InBlock i) v (Block.transactions b))
            (Block.previousHash b) (Block.nonce b) (Block.hash b)).
Proof. intros H. simpl. rewrite list_lookup_imap, H. reflexivity. Qed.

(** The one-slot assignment is the assignment to an object that sits in one
    slot. *)
Lemma alter_overwriteAmounts object slotOf v txs j :
  (forall k, sitsIn object (slotOf k) = Nat.eqb k j) ->
  overwriteAmounts object slotOf v txs = alter (Transaction.setAmount v) j txs.
Proof.
  unfold overwriteAmounts. revert slotOf j.
  induction txs as [|tx txs IH]; intros slotOf j H; [reflexivity|].
  rewrite imap_cons, H. destruct j as [|j]; simpl.
  - f_equal. apply (overwriteAmounts_none object (slotOf ∘ S)).
    intros k. unfold compose. now rewrite H.
  - f_equal. apply (IH (slotOf ∘ S)). intros k. unfold compose. now rewrite H.
Qed.

Lemma tamper_assignAmount i j v s s' :
  Blockchain.tamper i j v s = Some s' -> s' = assignAmount [InBlock i j] v s.
Proof.
  unfold Blockchain.tamper, Block.setAmount.
  destruct (Blockchain.chain s !! i) as [b|] eqn:Hb; [|discriminate].
  destruct (Block.transactions b !! j) as [tx|]; [|discriminate].
  intros H. injection H as <-. unfold assignAmount.
  rewrite (overwriteAmounts_none _ InPending) by reflexivity. f_equal.
  apply list_eq. intros k. rewrite list_lookup_imap.
  destruct (decide (k = i)) as [->|Hne].
  - rewrite list_lookup_insert_eq by (eapply lookup_lt_Some; eassumption).
    rewrite Hb. simpl. do 2 f_equal. symmetry. apply alter_overwriteAmounts.
    intros k. simpl. rewrite Nat.eqb_refl, orb_false_r. reflexivity.
  - rewrite list_lookup_insert_ne by congruence.
    destruct (Blockchain.chain s !! k) as [bk|]; [|reflexivity].
    simpl. rewrite overwriteAmounts_none; [now destruct bk|].
    intros j'. simpl. rewrite orb_false_r.
    apply andb_false_iff. left. now apply Nat.eqb_neq.
Qed.

(** C3, as stated, fails in two ways.  [Examples.unboundedLedger] was built
    by [addTransaction] and [minePendingTransactions] and validates;
    overwriting the amount [Infinity] in its block 1 by [-Infinity] leaves
    the block's serialisation, hence its hash, as it was, and the chain still
    validates.  [Examples.sharedLedger] was built by the same methods from
    one transaction object submitted twice, which sits in block 1 and in
    block 2; after the assignment [chain[2].transactions[1].amount = 100]
    the failure reported is that of block 1. *)
Lemma tamper_undetected_counterexample :
  Examples.unboundedRun = Some Examples.unboundedLedger
  /\ Blockchain.validateChain Examples.unboundedLedger
     = Some (Blockchain.mkOutcome (Blockchain.Normal true) Examples.unboundedLedger [])
  /\ Blockchain.tamper 1 0 NegInfinity Examples.unboundedLedger
     = Some Examples.unboundedTampered
  /\ (exists b b',
        Blockchain.chain Examples.unboundedLedger !! 1 = Some b
        /\ Blockchain.chain Examples.unboundedTampered !! 1 = Some b'
        /\ Block.transactions b
           = [Transaction.mk Examples.alice Examples.bob PosInfinity 1001]
        /\ Block.transactions b'
           = [Transaction.mk Examples.alice Examples.bob NegInfinity 1001]
        /\ Block.hash b' = Block.hash b
        /\ preimageOf b' = preimageOf b)
  /\ Blockchain.validateChain Examples.unboundedTampered
     = Some (Blockchain.mkOutcome (Blockchain.Normal true) Examples.unboundedTampered [])
  /\ Examples.sharedRun = Some Examples.sharedLedger
  /\ Blockchain.validateChain Examples.sharedLedger
     = Some (Blockchain.mkOutcome (Blockchain.Normal true) Examples.sharedLedger [])
  /\ slotValue Examples.sharedLedger (InBlock 1 0) = Some Examples.aliceToBob
  /\ slotValue Examples.sharedLedger (InBlock 2 1) = Some Examples.aliceToBob
  /\ assignAmount [InBlock 1 0; InBlock 2 1] (Finite 100) Examples.sharedLedger
     = Examples.sharedTampered
  /\ slotValue Examples.sharedTampered (InBlock 2 1)
     = Some (Transaction.setAmount (Finite 100) Examples.aliceToBob)
  /\ Blockchain.validateChain Examples.sharedTampered
     = Some (Blockchain.mkOutcome (Blockchain.Normal false) Examples.sharedTampered
               ["Block 1 data corrupted - hash mismatch"%string]).
Proof.
  split; [vm_compute; reflexivity|].
  split; [vm_compute; reflexivity|].
  split; [vm_compute; reflexivity|].
  split.
  { eexists _, _.
    split; [vm_compute; reflexivity|]. split; [vm_compute; reflexivity|].
    split; [reflexivity|]. split; [reflexivity|]. split; [reflexivity|].
    vm_compute. reflexivity. }
  repeat split; vm_compute; reflexivity.
Qed.

(** C3 (amended): for every valid chain (one on which [validateChain] returns
    true) and every transaction object that sits in a block after the genesis
    block, overwriting the object's amount by a number that JSON prints
    differently from the old one, every stored hash left as it is, makes
    [validateChain] return false with the hash-mismatch message for the
    first block after the genesis block that holds the object, which is the
    block the assignment went through unless an earlier one holds the object
    too, provided SHA-256 does not collide on that block's serialisations
    before and after the change. *)
Theorem tamper_detected (s : Blockchain.t) (object : list Slot) (tx : Transaction.t)
    (v : JsNumber) (i : nat) :
  Blockchain.validateChain s = Some (report Intact s) ->
  holds s object tx ->
  firstHolder object i ->
  JSON.ofNumber v <> JSON.ofNumber (Transaction.amount tx) ->
  (forall b b',
     Blockchain.chain s !! i = Some b ->
     Blockchain.chain (assignAmount object v s) !! i = Some b' ->
     ~ collide (preimageOf b') (preimageOf b)) ->
  Blockchain.validateChain (assignAmount object v s)
  = Some (Blockchain.mkOutcome (Blockchain.Normal false) (assignAmount object v s)
            [Blockchain.corruptedMessage i]).
Proof.
  intros Hvalid Hholds (Hi & (j & Hj) & Hfirst) Hprint Hsha.
  pose proof (valid_all_pass _ Hvalid) as Hall.
  unfold holds in Hholds. rewrite Forall_forall in Hholds.
  assert (forall slot, sitsIn object slot = true -> slotValue s slot = Some tx) as Hslot.
  { intros slot Hin. apply Hholds. now apply sitsIn_elem_of. }
  destruct (Blockchain.chain s !! i) as [b|] eqn:Hb.
  2:{ specialize (Hslot _ Hj). simpl in Hslot. rewrite Hb in Hslot. discriminate Hslot. }
  pose proof (lookup_lt_Some _ _ _ Hb) as Hlt.
  apply (validateChain_report _ (Corrupted i)).
  change (describes (Blockchain.chain (assignAmount object v s)) 1 (Corrupted i)).
  assert (length (Blockchain.chain (assignAmount object v s))
          = length (Blockchain.chain s)) as Hlen by (simpl; apply length_imap).
  split; [rewrite Hlen; lia|]. split.
  - intros k Hk.
    destruct (Hall k ltac:(lia)) as (cur & prev & Hcur & Hprev & Hsealed & Hlink).
    exists cur.
    eexists. split; [|split; [apply assignAmount_lookup, Hprev|]].
    + rewrite (assignAmount_lookup _ _ _ _ _ Hcur).
      rewrite overwriteAmounts_none by (intros j'; apply Hfirst; lia).
      now destruct cur.
    + simpl. split; [exact Hsealed | exact Hlink].
  - eexists. split; [apply assignAmount_lookup, Hb|].
    cbn [Block.hash].
    assert (Block.hash b = Block.calculateHash b) as Hsealed.
    { apply (passes_not_corrupted (Blockchain.chain s) i); [apply Hall; lia | exact Hb]. }
    rewrite Hsealed. intros Heq.
    apply (Hsha b _ eq_refl (assignAmount_lookup _ _ _ _ _ Hb)). split; [|symmetry; exact Heq].
    unfold preimageOf, Block.preimage, JSON.stringify. cbn [Block.index Block.timestamp
      Block.transactions Block.previousHash Block.nonce].
    intros H.
    rewrite !append_assoc in H.
    repeat apply append_inv_head in H.
    rewrite <- !append_assoc in H.
    repeat apply append_inv_tail in H.
    repeat apply append_inv_head in H.
    revert H.
    apply (elements_overwriteAmounts object (InBlock i) v (Block.transactions b)
             (JSON.ofNumber (Transaction.amount tx))).
    + intros j' tx' Hin Hlook. specialize (Hslot _ Hin). simpl in Hslot.
      rewrite Hb in Hslot. simpl in Hslot. congruence.
    + exact Hprint.
    + exists j. split; [exact Hj|].
      specialize (Hslot _ Hj). simpl in Hslot. rewrite Hb in Hslot. simpl in Hslot.
      eapply lookup_lt_Some, Hslot.
Qed.

Lemma tamper_detected_witness :
  Blockchain.validateChain
    (assignAmount Examples.sharedObject (Finite 100) Examples.sharedLedger)
  = Some (Blockchain.mkOutcome (Blockchain.Normal false)
            (assignAmount Examples.sharedObject (Finite 100) Examples.sharedLedger)
            ["Block 1 data corrupted - hash mismatch"%string]).
Proof.
  apply (tamper_detected Examples.sharedLedger Examples.sharedObject Examples.aliceToBob
           (Finite 100) 1).
  - vm_compute. reflexivity.
  - repeat constructor.
  - split; [lia|]. split; [exists 0; reflexivity|]. intros i' j' Hi'. lia.
  - intros H. vm_compute in H. discriminate H.
  - intros b b' Hb Hb' [_ H]. vm_compute in Hb, Hb'.
    injection Hb as <-. injection Hb' as <-. vm_compute in H. discriminate H.
Defined.

(** ** Intake *)

Lemma falsy_missing a : falsy a = true <-> missing a.
Proof.
  unfold missing. destruct a as [s|]; simpl.
  - rewrite String.eqb_eq. split; [intros ->; now right | intros [H|H]; congruence].
  - split; auto.
Qed.

Lemma refused_test tx :
  falsy (Transaction.sender tx) || falsy (Transaction.recipient tx)
  || Number.le0 (Transaction.amount tx) = true <-> refused tx.
Proof.
  unfold refused. rewrite !orb_true_iff, !falsy_missing. tauto.
Qed.

(** C5, as stated, fails: a transaction whose sender is the empty string has
    a sender and a recipient that are not null and a positive amount, and
    [addTransaction] throws on it. *)
Lemma addTransaction_empty_sender_counterexample :
  Transaction.recipient Examples.fromNobody <> None
  /\ Transaction.sender Examples.fromNobody <> None
  /\ Number.le0 (Transaction.amount Examples.fromNobody) = false
  /\ Blockchain.addTransaction Examples.fromNobody Examples.start
     = Some (Blockchain.mkOutcome (Blockchain.Throw Blockchain.invalidTransaction)
               Examples.start []).
Proof. repeat split; discriminate. Qed.

(** C5 (amended): [addTransaction(tx)] throws its invalid-transaction error
    exactly when [tx.sender] or [tx.recipient] is falsy (null or the empty
    string) or [tx.amount <= 0], and then leaves the ledger, pending
    transactions included, unchanged; otherwise it returns and has appended
    [tx] at the end of the pending transactions, all earlier ones keeping
    their places, and changed nothing else. *)
Theorem addTransaction_spec (tx : Transaction.t) (s : Blockchain.t) :
  (refused tx ->
   Blockchain.addTransaction tx s
   = Some (Blockchain.mkOutcome (Blockchain.Throw Blockchain.invalidTransaction) s []))
  /\ (~ refused tx ->
      exists s',
        Blockchain.addTransaction tx s
        = Some (Blockchain.mkOutcome (Blockchain.Normal tt) s' [])
        /\ Blockchain.pendingTransactions s' = Blockchain.pendingTransactions s ++ [tx]
        /\ Blockchain.chain s' = Blockchain.chain s
        /\ Blockchain.difficulty s' = Blockchain.difficulty s
        /\ Blockchain.miningReward s' = Blockchain.miningReward s).
Proof.
  unfold Blockchain.addTransaction.
  destruct (falsy (Transaction.sender tx) || falsy (Transaction.recipient tx)
            || Number.le0 (Transaction.amount tx)) eqn:E.
  - split; [reflexivity|]. intros Hn. exfalso. apply Hn. now apply refused_test.
  - split.
    + intros Hr. apply refused_test in Hr. congruence.
    + intros _. exists (Blockchain.pushPending tx s). repeat split.
Qed.

Lemma addTransaction_spec_witness :
  exists s',
    Blockchain.addTransaction Examples.aliceToBob Examples.start
    = Some (Blockchain.mkOutcome (Blockchain.Normal tt) s' [])
    /\ Blockchain.pendingTransactions s' = [Examples.aliceToBob]
    /\ Blockchain.chain s' = Blockchain.chain Examples.start
    /\ Blockchain.difficulty s' = 1
    /\ Blockchain.miningReward s' = Finite 100.
Proof.
  apply (proj2 (addTransaction_spec Examples.aliceToBob Examples.start)).
  intros [[H|H] | [[H|H] | H]]; discriminate H.
Defined.

(** ** Block production *)

Lemma minePendingTransactions_unfold fuel blockTime rewardTime miner s :
  Blockchain.minePendingTransactions fuel blockTime rewardTime miner s
  = match Blockchain.chain s !! (length (Blockchain.chain s) - 1) with
    | None => Some (Blockchain.mkOutcome (Blockchain.Throw Blockchain.undefinedHash) s [])
    | Some lastBlock =>
        let block := Block.new (length (Blockchain.chain s)) blockTime
                       (Blockchain.pendingTransactions s) (Block.hash lastBlock) in
        match Block.search fuel (Blockchain.difficulty s) block with
        | None => None
        | Some mined =>
            Some (Blockchain.mkOutcome (Blockchain.Normal tt)
                    (Blockchain.mk (Blockchain.chain s ++ [mined]) (Blockchain.difficulty s)
                       [rewardFor miner s rewardTime] (Blockchain.miningReward s))
                    [Block.startMessage block; Block.minedMessage mined])
        end
    end.
Proof.
  unfold Blockchain.minePendingTransactions.
  rewrite !bind_gets. unfold Blockchain.getLastBlock.
  unfold mbind at 1. unfold Blockchain.Method_bind, Blockchain.bind.
  rewrite bind_gets. unfold Blockchain.ret.
  destruct (Blockchain.chain s !! (length (Blockchain.chain s) - 1)) as [lastBlock|];
    [|reflexivity].
  rewrite bind_gets. unfold mbind, Blockchain.Method_bind, Blockchain.bind,
    Blockchain.mining, Block.mineBlock.
  destruct (Block.search _ _ _) as [mined|]; reflexivity.
Qed.

(** What one successful call does. *)
Lemma minePendingTransactions_normal fuel blockTime rewardTime miner s s' out :
  Blockchain.minePendingTransactions fuel blockTime rewardTime miner s
  = Some (Blockchain.mkOutcome (Blockchain.Normal tt) s' out) ->
  exists lastBlock mined,
    Blockchain.chain s !! (length (Blockchain.chain s) - 1) = Some lastBlock
    /\ Block.search fuel (Blockchain.difficulty s)
         (Block.new (length (Blockchain.chain s)) blockTime
            (Blockchain.pendingTransactions s) (Block.hash lastBlock)) = Some mined
    /\ s' = Blockchain.mk (Blockchain.chain s ++ [mined]) (Blockchain.difficulty s)
              [rewardFor miner s rewardTime] (Blockchain.miningReward s).
Proof.
  rewrite minePendingTransactions_unfold.
  destruct (Blockchain.chain s !! (length (Blockchain.chain s) - 1)) as [lastBlock|];
    [|discriminate].
  simpl. destruct (Block.search _ _ _) as [mined|] eqn:E; [|discriminate].
  intros H. injection H as <- _. eauto.
Qed.

(** C4: after [minePendingTransactions(M)] returns, the block just appended
    holds exactly the transactions that were pending before the call, so the
    reward of this call is not among them, and the pending transactions are
    the single reward transaction with sender null, recipient [M] and amount
    [miningReward]; a second call then appends a block that holds exactly
    that reward transaction. *)
Theorem minePendingTransactions_reward_in_next_block
    fuel blockTime rewardTime miner s s' out :
  Blockchain.minePendingTransactions fuel blockTime rewardTime miner s
  = Some (Blockchain.mkOutcome (Blockchain.Normal tt) s' out) ->
  exists b,
    Blockchain.chain s' = Blockchain.chain s ++ [b]
    /\ Block.transactions b = Blockchain.pendingTransactions s
    /\ Blockchain.pendingTransactions s'
       = [Transaction.mk None miner (Blockchain.miningReward s) rewardTime]
    /\ forall fuel2 blockTime2 rewardTime2 miner2 s'' out2,
         Blockchain.minePendingTransactions fuel2 blockTime2 rewardTime2 miner2 s'
         = Some (Blockchain.mkOutcome (Blockchain.Normal tt) s'' out2) ->
         exists b2,
           Blockchain.chain s'' = Blockchain.chain s ++ [b; b2]
           /\ Block.transactions b2
              = [Transaction.mk None miner (Blockchain.miningReward s) rewardTime].
Proof.
  intros H.
  destruct (minePendingTransactions_normal _ _ _ _ _ _ _ H) as (lb & b & _ & Hb & ->).
  exists b. destruct (search_sameContent _ _ _ _ Hb) as (_ & _ & Htx & _).
  split; [reflexivity|]. split; [exact Htx|]. split; [reflexivity|].
  intros fuel2 blockTime2 rewardTime2 miner2 s'' out2 H2.
  destruct (minePendingTransactions_normal _ _ _ _ _ _ _ H2) as (lb2 & b2 & _ & Hb2 & ->).
  exists b2. destruct (search_sameContent _ _ _ _ Hb2) as (_ & _ & Htx2 & _).
  simpl. rewrite <- app_assoc. split; [reflexivity | exact Htx2].
Qed.

Lemma minePendingTransactions_reward_in_next_block_witness :
  exists b,
    Blockchain.chain Examples.minedOnce = Blockchain.chain Examples.pendingLedger ++ [b]
    /\ Block.transactions b = Blockchain.pendingTransactions Examples.pendingLedger
    /\ Blockchain.pendingTransactions Examples.minedOnce
       = [Transaction.mk None Examples.minerX (Finite 100) 1004]
    /\ forall fuel2 blockTime2 rewardTime2 miner2 s'' out2,
         Blockchain.minePendingTransactions fuel2 blockTime2 rewardTime2 miner2
           Examples.minedOnce
         = Some (Blockchain.mkOutcome (Blockchain.Normal tt) s'' out2) ->
         exists b2,
           Blockchain.chain s'' = Blockchain.chain Examples.pendingLedger ++ [b; b2]
           /\ Block.transactions b2
              = [Transaction.mk None Examples.minerX (Finite 100) 1004].
Proof.
  apply (minePendingTransactions_reward_in_next_block 200 1003 1004 Examples.minerX
           Examples.pendingLedger Examples.minedOnce
           (default [] (option_map Blockchain.console
              (Blockchain.minePendingTransactions 200 1003 1004 Examples.minerX
                 Examples.pendingLedger)))).
  vm_compute. reflexivity.
Defined.

(** The second call of the example does return, and seals the first reward. *)
Example minedTwice_seals_reward :
  exists out,
    Blockchain.minePendingTransactions 200 1005 1006 Examples.minerX Examples.minedOnce
    = Some (Blockchain.mkOutcome (Blockchain.Normal tt) Examples.minedTwice out)
    /\ (Block.transactions <$> Blockchain.chain Examples.minedTwice !! 2)
       = Some [Transaction.mk None Examples.minerX (Finite 100) 1004].
Proof. eexists. split; vm_compute; reflexivity. Qed.

(** ** Balance replay *)

Lemma sub_add_neg x y : Number.sub x y = Number.add x (Number.neg y).
Proof. reflexivity. Qed.

Lemma applyTransaction_contributions a balance tx :
  Blockchain.applyTransaction a balance tx
  = fold_left Number.add (contributions a tx) balance.
Proof.
  unfold Blockchain.applyTransaction, contributions.
  destruct (strictEq (Transaction.sender tx) a), (strictEq (Transaction.recipient tx) a);
    simpl; rewrite ?sub_add_neg; reflexivity.
Qed.

Lemma applyBlock_contributions a balance b :
  Blockchain.applyBlock a balance b
  = fold_left Number.add (flat_map (contributions a) (Block.transactions b)) balance.
Proof.
  unfold Blockchain.applyBlock. revert balance.
  induction (Block.transactions b) as [|tx txs IH]; intros balance; simpl; [reflexivity|].
  now rewrite fold_left_app, IH, applyTransaction_contributions.
Qed.

Lemma replay_contributions a c balance :
  fold_left (Blockchain.applyBlock a) c balance
  = fold_left Number.add (flat_map (contributions a) (committed c)) balance.
Proof.
  unfold committed. revert balance.
  induction c as [|b c IH]; intros balance; simpl; [reflexivity|].
  now rewrite flat_map_app, fold_left_app, IH, applyBlock_contributions.
Qed.

Lemma getBalance_unfold a s :
  Blockchain.getBalance a s
  = Some (Blockchain.mkOutcome
            (Blockchain.Normal (fold_left (Blockchain.applyBlock a) (Blockchain.chain s) (Finite 0)))
            s []).
Proof. unfold Blockchain.getBalance. now rewrite bind_gets. Qed.

(** C6: [getBalance(a)] is the sum, over every transaction of every block of
    the chain in order and starting from 0, of minus the amount when the
    sender is [a] and plus the amount when the recipient is [a], a sum of
    doubles taken from left to right; the pending transactions do not enter
    it; and nothing keeps it from being negative. *)
Theorem getBalance_replays_chain (s : Blockchain.t) (a : Address) :
  Blockchain.getBalance a s
  = Some (Blockchain.mkOutcome (Blockchain.Normal (replayedBalance a (Blockchain.chain s))) s [])
  /\ (forall pending,
        Blockchain.completion <$> Blockchain.getBalance a (Blockchain.setPending pending s)
        = Blockchain.completion <$> Blockchain.getBalance a s)
  /\ (exists s0 a0 z,
        (z < 0)%Z
        /\ Blockchain.getBalance a0 s0
           = Some (Blockchain.mkOutcome (Blockchain.Normal (Finite z)) s0 [])).
Proof.
  split; [|split].
  - rewrite getBalance_unfold. unfold replayedBalance, total.
    now rewrite replay_contributions.
  - intros pending. rewrite !getBalance_unfold. reflexivity.
  - exists Examples.demoLedger, Examples.alice, (-55)%Z. split; [lia|].
    vm_compute. reflexivity.
Qed.

(** The balances of the demo: MinerX holds the first reward and Alice's 15,
    Alice is overdrawn. *)
Example demo_balances :
  Blockchain.completion <$> Blockchain.getBalance Examples.minerX Examples.demoLedger
  = Some (Blockchain.Normal (Finite 115))
  /\ Blockchain.completion <$> Blockchain.getBalance Examples.alice Examples.demoLedger
     = Some (Blockchain.Normal (Finite (-55))).
Proof. split; vm_compute; reflexivity. Qed.

Lemma replay_committed a c x :
  fold_left (Blockchain.applyBlock a) c x
  = fold_left (Blockchain.applyTransaction a) (committed c) x.
Proof.
  unfold committed. revert x. induction c as [|b c IH]; intros x; simpl; [reflexivity|].
  now rewrite fold_left_app, IH.
Qed.

Lemma getBalance_balanceOf a s :
  Blockchain.getBalance a s
  = Some (Blockchain.mkOutcome (Blockchain.Normal (balanceOf a (Blockchain.chain s))) s []).
Proof. rewrite getBalance_unfold, replay_committed. reflexivity. Qed.

(** Doubles round.  Built by [addTransaction] and [minePendingTransactions]:
    Bob, sent 2^53 and then 1, is at 2^53; sent 0.1 and then 0.2, he is at
    0.30000000000000004. *)
Example rounded_balances :
  Examples.roundedRun = Some Examples.roundedLedger
  /\ Blockchain.completion <$> Blockchain.getBalance Examples.bob Examples.roundedLedger
     = Some (Blockchain.Normal (Finite (2 ^ 53)))
  /\ Examples.fractionRun = Some Examples.fractionLedger
  /\ Number.print (replayedBalance Examples.bob (Blockchain.chain Examples.fractionLedger))
     = "0.30000000000000004"%string
  /\ Blockchain.completion <$> Blockchain.getBalance Examples.bob Examples.fractionLedger
     = Some (Blockchain.Normal (Number.add Examples.tenth Examples.fifth)).
Proof. repeat split; vm_compute; reflexivity. Qed.

(** *** Sums that do not round *)

Lemma volume_nonneg txs : (0 <= volume txs)%Z.
Proof. induction txs as [|tx txs IH]; unfold volume in *; simpl; lia. Qed.

(** One turn of the inner loop on integers within the exact range. *)
Lemma applyTransaction_exact a x tx :
  wholeAmount tx ->
  (Z.abs x + Z.abs (Number.toZ (Transaction.amount tx)) <= 2 ^ 53)%Z ->
  Blockchain.applyTransaction a (Finite x) tx = Finite (x + netOf a tx)
  /\ (Z.abs (x + netOf a tx) <= Z.abs x + Z.abs (Number.toZ (Transaction.amount tx)))%Z.
Proof.
  unfold wholeAmount, netOf, Blockchain.applyTransaction.
  set (z := Number.toZ (Transaction.amount tx)). intros -> Hb.
  destruct (strictEq (Transaction.sender tx) a), (strictEq (Transaction.recipient tx) a).
  - rewrite sub_Finite, add_Finite by lia. split; [f_equal|]; lia.
  - rewrite sub_Finite by lia. split; [f_equal|]; lia.
  - rewrite add_Finite by lia. split; [f_equal|]; lia.
  - split; [f_equal|]; lia.
Qed.

(** The replay of transactions whose amounts are integers, from an integer,
    is the exact sum as long as the magnitudes add up to at most 2^53. *)
Lemma replay_exact a txs x :
  Forall wholeAmount txs ->
  (Z.abs x + volume txs <= 2 ^ 53)%Z ->
  fold_left (Blockchain.applyTransaction a) txs (Finite x) = Finite (x + net a txs)
  /\ (Z.abs (x + net a txs) <= Z.abs x + volume txs)%Z.
Proof.
  intros Hwhole. revert x.
  induction Hwhole as [|tx txs Htx _ IH]; intros x Hb.
  - unfold net, volume. simpl. split; [f_equal|]; lia.
  - pose proof (volume_nonneg txs) as Hv.
    change (volume (tx :: txs))
      with (Z.abs (Number.toZ (Transaction.amount tx)) + volume txs)%Z in *.
    change (net a (tx :: txs)) with (netOf a tx + net a txs)%Z.
    destruct (applyTransaction_exact a x tx Htx ltac:(lia)) as [Hstep Hbound].
    simpl. rewrite Hstep.
    destruct (IH (x + netOf a tx)%Z ltac:(lia)) as [Hrest Hbound'].
    rewrite Hrest. split; [f_equal|]; lia.
Qed.

(** Only the transactions that [a] sent or received bear on the balance of
    [a]. *)
Lemma replay_involving a txs x :
  fold_left (Blockchain.applyTransaction a) txs x
  = fold_left (Blockchain.applyTransaction a) (involving a txs) x.
Proof.
  unfold involving. revert x. induction txs as [|tx txs IH]; intros x; [reflexivity|].
  simpl.
  destruct (strictEq (Transaction.sender tx) a) eqn:Es,
           (strictEq (Transaction.recipient tx) a) eqn:Er; simpl; try apply IH.
  rewrite <- IH. f_equal. unfold Blockchain.applyTransaction. now rewrite Es, Er.
Qed.

Lemma net_involving a txs : net a (involving a txs) = net a txs.
Proof.
  unfold involving, net. induction txs as [|tx txs IH]; [reflexivity|].
  simpl. unfold netOf at 2.
  destruct (strictEq (Transaction.sender tx) a) eqn:Es,
           (strictEq (Transaction.recipient tx) a) eqn:Er; simpl; rewrite IH;
    unfold netOf; rewrite ?Es, ?Er; lia.
Qed.

Lemma volume_involving a txs : (volume (involving a txs) <= volume txs)%Z.
Proof.
  unfold involving, volume. induction txs as [|tx txs IH]; simpl; [lia|].
  destruct (_ || _); simpl; lia.
Qed.

Lemma whole_involving a txs : Forall wholeAmount txs -> Forall wholeAmount (involving a txs).
Proof.
  unfold involving. induction 1 as [|tx txs Htx _ IH]; simpl; [constructor|].
  destruct (_ || _); [constructor; assumption | exact IH].
Qed.

Lemma replay_exact_involving a txs x :
  Forall wholeAmount (involving a txs) ->
  (Z.abs x + volume (involving a txs) <= 2 ^ 53)%Z ->
  fold_left (Blockchain.applyTransaction a) txs (Finite x) = Finite (x + net a txs)
  /\ (Z.abs (x + net a txs) <= Z.abs x + volume (involving a txs))%Z.
Proof.
  intros Hwhole Hb. rewrite replay_involving, <- (net_involving a txs).
  now apply replay_exact.
Qed.

Lemma balanceOf_exact a c :
  Forall wholeAmount (involving a (committed c)) ->
  (volume (involving a (committed c)) <= 2 ^ 53)%Z ->
  balanceOf a c = Finite (net a (committed c))
  /\ (Z.abs (net a (committed c)) <= volume (involving a (committed c)))%Z.
Proof.
  intros Hwhole Hb.
  destruct (replay_exact_involving a (committed c) 0 Hwhole ltac:(lia)) as [H1 H2].
  split; [exact H1 | lia].
Qed.

(** What [a] received and what [a] sent are among the transactions that
    involve [a]. *)
Lemma received_involving a txs :
  List.filter (fun tx => strictEq (Transaction.recipient tx) a) (involving a txs)
  = List.filter (fun tx => strictEq (Transaction.recipient tx) a) txs.
Proof.
  unfold involving. induction txs as [|tx txs IH]; [reflexivity|]. simpl.
  destruct (strictEq (Transaction.sender tx) a), (strictEq (Transaction.recipient tx) a) eqn:Er;
    simpl; rewrite ?Er, IH; reflexivity.
Qed.

Lemma sent_involving a txs :
  List.filter (fun tx => strictEq (Transaction.sender tx) a) (involving a txs)
  = List.filter (fun tx => strictEq (Transaction.sender tx) a) txs.
Proof.
  unfold involving. induction txs as [|tx txs IH]; [reflexivity|]. simpl.
  destruct (strictEq (Transaction.sender tx) a) eqn:Es, (strictEq (Transaction.recipient tx) a);
    simpl; rewrite ?Es, IH; reflexivity.
Qed.

(** The same for a list of numbers added up. *)
Lemma total_exact xs x :
  Forall (fun v => v = Finite (Number.toZ v)) xs ->
  (Z.abs x + sumZ (map (fun v => Z.abs (Number.toZ v)) xs) <= 2 ^ 53)%Z ->
  fold_left Number.add xs (Finite x) = Finite (x + sumZ (map Number.toZ xs))
  /\ (Z.abs (x + sumZ (map Number.toZ xs))
      <= Z.abs x + sumZ (map (fun v => Z.abs (Number.toZ v)) xs))%Z.
Proof.
  intros Hwhole. revert x.
  induction Hwhole as [|v xs Hv _ IH]; intros x Hb; simpl in *.
  - split; [f_equal|]; lia.
  - assert (0 <= sumZ (map (fun v => Z.abs (Number.toZ v)) xs))%Z as Hpos.
    { clear. induction xs as [|y ys IH]; simpl; lia. }
    rewrite Hv at 1. rewrite add_Finite by lia.
    destruct (IH (x + Number.toZ v)%Z ltac:(lia)) as [Hrest Hbound].
    rewrite Hrest. split; [f_equal|]; lia.
Qed.

(** The amounts [a] received or sent are among those of the chain. *)
Lemma whole_filtered (p : Transaction.t -> bool) txs :
  Forall wholeAmount txs ->
  Forall (fun v => v = Finite (Number.toZ v)) (map Transaction.amount (List.filter p txs)).
Proof.
  induction 1 as [|tx txs Htx _ IH]; simpl; [constructor|].
  destruct (p tx); [constructor; assumption | exact IH].
Qed.

Lemma volume_filtered (p : Transaction.t -> bool) txs :
  (0 <= sumZ (map (fun v => Z.abs (Number.toZ v)) (map Transaction.amount (List.filter p txs)))
   <= volume txs)%Z.
Proof.
  induction txs as [|tx txs IH]; unfold volume in *; simpl; [lia|].
  destruct (p tx); simpl; lia.
Qed.

(** As integers, credits and debits can be added up apart. *)
Lemma net_split a txs :
  net a txs
  = (sumZ (map Number.toZ (map Transaction.amount
             (List.filter (fun tx => strictEq (Transaction.recipient tx) a) txs)))
     - sumZ (map Number.toZ (map Transaction.amount
               (List.filter (fun tx => strictEq (Transaction.sender tx) a) txs))))%Z.
Proof.
  induction txs as [|tx txs IH]; [reflexivity|].
  change (net a (tx :: txs)) with (netOf a tx + net a txs)%Z. rewrite IH.
  unfold netOf. simpl.
  destruct (strictEq (Transaction.recipient tx) a), (strictEq (Transaction.sender tx) a);
    simpl; lia.
Qed.

(** C10, as stated, fails in two ways.  After two blocks are mined for the
    miner address null, block 2 holds the reward of the first call, a
    transaction from null to null, and [getBalance(null)] is 0, not
    negative.  And the balance is a sum of doubles: in
    [Examples.largeRewards], with rewards of 2^53 and of 1 and a transfer of
    1 to null, the amounts received less the rewards make -2^53, and
    [getBalance(null)] is 1 - 2^53. *)
Lemma getBalance_null_counterexample :
  Examples.selfRewardRun = Some Examples.selfRewardLedger
  /\ (exists b, Blockchain.chain Examples.selfRewardLedger !! 2 = Some b
        /\ Block.transactions b = [Transaction.mk None None (Finite 100) 1002])
  /\ Blockchain.getBalance None Examples.selfRewardLedger
     = Some (Blockchain.mkOutcome (Blockchain.Normal (Finite 0))
               Examples.selfRewardLedger [])
  /\ Number.lt0 (Finite 0) = false
  /\ Blockchain.getBalance None Examples.largeRewards
     = Some (Blockchain.mkOutcome (Blockchain.Normal (Finite (1 - 2 ^ 53)))
               Examples.largeRewards [])
  /\ (sumZ (map Number.toZ (received None (Blockchain.chain Examples.largeRewards)))
      - sumZ (map Number.toZ (sent None (Blockchain.chain Examples.largeRewards))))%Z
     = (- 2 ^ 53)%Z
  /\ Finite (1 - 2 ^ 53) <> Finite (- 2 ^ 53).
Proof.
  split; [vm_compute; reflexivity|].
  split; [eexists; split; vm_compute; reflexivity|].
  split; [vm_compute; reflexivity|].
  split; [reflexivity|].
  split; [vm_compute; reflexivity|].
  split; [vm_compute; reflexivity|].
  vm_compute. discriminate.
Qed.

(** With no transaction to null, the balance of null stays at 0 until the
    first transaction from null and is negative from then on. *)
Lemma rewards_only_negative txs x :
  List.filter (fun tx => strictEq (Transaction.recipient tx) None) txs = [] ->
  Forall (fun v => Number.isDouble v = true /\ Number.gt0 v = true)
    (map Transaction.amount
       (List.filter (fun tx => strictEq (Transaction.sender tx) None) txs)) ->
  x = Dyadic 0 0 \/ negative x ->
  (List.filter (fun tx => strictEq (Transaction.sender tx) None) txs = [] ->
   fold_left (Blockchain.applyTransaction None) txs x = x)
  /\ (List.filter (fun tx => strictEq (Transaction.sender tx) None) txs <> [] ->
      negative (fold_left (Blockchain.applyTransaction None) txs x)).
Proof.
  revert x. induction txs as [|tx txs IH]; intros x Hrecv Hsent Hx.
  - split; [reflexivity | intros F; now contradiction F].
  - simpl in Hrecv, Hsent |- *.
    destruct (strictEq (Transaction.recipient tx) None) eqn:Er; [discriminate Hrecv|].
    unfold Blockchain.applyTransaction at 2 4. rewrite Er.
    destruct (strictEq (Transaction.sender tx) None) eqn:Es.
    + simpl in Hsent. inversion Hsent as [|? ? [Hdouble Hpos] Hrest]; subst.
      pose proof (sub_negative x _ Hx Hdouble Hpos) as Hneg.
      destruct (IH _ Hrecv Hrest (or_intror Hneg)) as [Hsame Hstill].
      split; [discriminate|]. intros _.
      destruct (List.filter (fun tx => strictEq (Transaction.sender tx) None) txs) eqn:E.
      * now rewrite Hsame.
      * apply Hstill. discriminate.
    + apply (IH x Hrecv Hsent Hx).
Qed.

(** C10 (amended): [getBalance] treats null as an ordinary address.  In
    every ledger in which the amounts of the chain-committed transactions
    from or to null are integers whose magnitudes add up to at most 2^53, so
    that no sum of doubles rounds, [getBalance(null)] is the sum of the
    amounts of the chain-committed transactions whose recipient is null
    minus the sum of the amounts of the chain-committed transactions whose
    sender is null, the rewards.  And in every ledger [getBalance(null)] is
    negative, [-Infinity] included, whenever the chain holds at least one
    reward, every reward amount is a positive number and no committed
    transaction has recipient null. *)
Theorem getBalance_null (s : Blockchain.t) :
  (Forall wholeAmount (involving None (committed (Blockchain.chain s))) ->
   (volume (involving None (committed (Blockchain.chain s))) <= 2 ^ 53)%Z ->
   Blockchain.getBalance None s
   = Some (Blockchain.mkOutcome
             (Blockchain.Normal
                (Number.sub (total (received None (Blockchain.chain s)))
                            (total (sent None (Blockchain.chain s)))))
             s [])
   /\ Number.sub (total (received None (Blockchain.chain s)))
                 (total (sent None (Blockchain.chain s)))
      = Finite (sumZ (map Number.toZ (received None (Blockchain.chain s)))
                - sumZ (map Number.toZ (sent None (Blockchain.chain s)))))
  /\ (received None (Blockchain.chain s) = [] ->
      sent None (Blockchain.chain s) <> [] ->
      Forall (fun x => Number.isDouble x = true /\ Number.gt0 x = true)
        (sent None (Blockchain.chain s)) ->
      exists x,
        Blockchain.getBalance None s
        = Some (Blockchain.mkOutcome (Blockchain.Normal x) s [])
        /\ Number.lt0 x = true).
Proof.
  set (c := Blockchain.chain s) in *. split.
  - intros Hwhole Hvol.
    set (R := sumZ (map Number.toZ (received None c))).
    set (S := sumZ (map Number.toZ (sent None c))).
    pose proof (volume_filtered (fun tx => strictEq (Transaction.recipient tx) None)
                  (involving None (committed c))) as HvR.
    pose proof (volume_filtered (fun tx => strictEq (Transaction.sender tx) None)
                  (involving None (committed c))) as HvS.
    pose proof (whole_filtered (fun tx => strictEq (Transaction.recipient tx) None)
                  _ Hwhole) as HwR.
    pose proof (whole_filtered (fun tx => strictEq (Transaction.sender tx) None)
                  _ Hwhole) as HwS.
    rewrite received_involving in HvR, HwR. rewrite sent_involving in HvS, HwS.
    destruct (total_exact (received None c) 0 HwR ltac:(unfold received; lia)) as [HR HRb].
    destruct (total_exact (sent None c) 0 HwS ltac:(unfold sent; lia)) as [HS HSb].
    fold (total (received None c)) in HR. fold (total (sent None c)) in HS.
    fold R in HR, HRb. fold S in HS, HSb. unfold received in HRb. unfold sent in HSb.
    destruct (balanceOf_exact None c Hwhole Hvol) as [Hbal Hbound].
    rewrite net_split in Hbal.
    fold (received None c) in Hbal. fold (sent None c) in Hbal.
    fold R in Hbal. fold S in Hbal.
    assert (Number.sub (total (received None c)) (total (sent None c)) = Finite (R - S))
      as Hsub.
    { rewrite HR, HS. simpl Z.add. apply sub_Finite; lia. }
    split; [|exact Hsub].
    rewrite getBalance_balanceOf. fold c. now rewrite Hbal, Hsub.
  - intros Hnone Hsome Hpos.
    exists (balanceOf None c). split; [apply getBalance_balanceOf|].
    apply lt0_negative. unfold balanceOf.
    apply (rewards_only_negative (committed c) (Finite 0)).
    + unfold received in Hnone. now apply map_eq_nil in Hnone.
    + exact Hpos.
    + now left.
    + unfold sent in Hsome. intros F. apply Hsome. now rewrite F.
Qed.

Lemma getBalance_null_witness :
  (Blockchain.getBalance None Examples.minedTwice
   = Some (Blockchain.mkOutcome (Blockchain.Normal (Finite (-100))) Examples.minedTwice []))
  /\ exists x,
       Blockchain.getBalance None Examples.minedTwice
       = Some (Blockchain.mkOutcome (Blockchain.Normal x) Examples.minedTwice [])
       /\ Number.lt0 x = true.
Proof.
  assert (involving None (committed (Blockchain.chain Examples.minedTwice))
          = [Transaction.mk None Examples.minerX (Finite 100) 1004]) as Hc
    by (vm_compute; reflexivity).
  split.
  - destruct (proj1 (getBalance_null Examples.minedTwice)
                ltac:(rewrite Hc; repeat constructor)
                ltac:(rewrite Hc; vm_compute; discriminate)) as [Hget Hexact].
    rewrite Hget, Hexact. reflexivity.
  - apply (proj2 (getBalance_null Examples.minedTwice)).
    + vm_compute. reflexivity.
    + vm_compute. discriminate.
    + replace (sent None (Blockchain.chain Examples.minedTwice)) with [Finite 100]
        by (vm_compute; reflexivity).
      repeat constructor.
Defined.

(** ** Reachable ledgers *)

Lemma perform_keeps_genesis c s s' :
  perform c s = Some s' -> startsWithGenesis s -> startsWithGenesis s'.
Proof.
  intros H (now & rest & Hchain).
  destruct c as [tx|fuel bt rt miner| |a]; unfold perform in H.
  - unfold Blockchain.addTransaction in H.
    destruct (_ || _); injection H as <-; exists now, rest; exact Hchain.
  - rewrite minePendingTransactions_unfold in H.
    destruct (Blockchain.chain s !! _) as [lb|].
    + simpl in H. destruct (Block.search _ _ _) as [mined|]; [|discriminate].
      injection H as <-. exists now, (rest ++ [mined]). simpl. now rewrite Hchain.
    + injection H as <-. exists now, rest. exact Hchain.
  - destruct (Blockchain.validateChain s) as [o|] eqn:E; [|discriminate].
    injection H as <-. rewrite (validateChain_readOnly _ _ E). exists now, rest. exact Hchain.
  - destruct (Blockchain.getBalance a s) as [o|] eqn:E; [|discriminate].
    injection H as <-. rewrite (getBalance_readOnly _ _ _ E). exists now, rest. exact Hchain.
Qed.

Lemma reachable_startsWithGenesis s : reachable s -> startsWithGenesis s.
Proof.
  induction 1 as [now | c s s' _ IH Hcall].
  - exists now, []. reflexivity.
  - eapply perform_keeps_genesis; eassumption.
Qed.

(** C7: in every ledger reachable from construction by calls of
    [addTransaction], [minePendingTransactions], [validateChain] and
    [getBalance], the chain is not empty and its block 0 is a genesis block:
    index 0, previous hash the string 0, no transactions, and a hash that
    matches those fields; and a freshly constructed ledger, whose chain is
    the genesis block alone, validates. *)
Theorem genesis_invariant :
  (forall s, reachable s ->
     exists g rest,
       Blockchain.chain s = g :: rest
       /\ Block.index g = 0 /\ Block.previousHash g = "0"%string
       /\ Block.transactions g = []
       /\ Block.hash g = Block.calculateHash g)
  /\ (forall now,
        length (Blockchain.chain (Blockchain.new now)) = 1
        /\ Blockchain.validateChain (Blockchain.new now)
           = Some (Blockchain.mkOutcome (Blockchain.Normal true) (Blockchain.new now) [])).
Proof.
  split.
  - intros s Hs. destruct (reachable_startsWithGenesis s Hs) as (now & rest & Hchain).
    exists (Blockchain.createGenesisBlock now), rest. repeat split. exact Hchain.
  - intros now. split; reflexivity.
Qed.

Lemma genesis_invariant_witness :
  exists g rest,
    Blockchain.chain (Blockchain.pushPending Examples.aliceToBob (Blockchain.new 1000))
    = g :: rest
    /\ Block.index g = 0 /\ Block.previousHash g = "0"%string
    /\ Block.transactions g = []
    /\ Block.hash g = Block.calculateHash g.
Proof.
  apply (proj1 genesis_invariant).
  apply (reachable_call (AddTransaction Examples.aliceToBob) (Blockchain.new 1000)).
  - apply reachable_new.
  - reflexivity.
Defined.

(** ** Invariants of the ledgers the methods build *)

Lemma accepted_not_refused tx : accepted tx = true <-> ~ refused tx.
Proof.
  unfold accepted. rewrite negb_true_iff, <- refused_test.
  destruct (_ || _); split; congruence.
Qed.

(** Every call has one of the three effects. *)
Lemma perform_effect c s s' : perform c s = Some s' -> effect s s'.
Proof.
  intros H. destruct c as [tx|fuel bt rt miner| |a]; unfold perform in H.
  - unfold Blockchain.addTransaction in H.
    destruct (_ || _) eqn:E; injection H as <-.
    + apply effect_none.
    + apply effect_add. unfold accepted. now rewrite E.
  - rewrite minePendingTransactions_unfold in H.
    destruct (Blockchain.chain s !! _) as [lb|] eqn:El.
    + simpl in H. destruct (Block.search _ _ _) as [mined|] eqn:Es; [|discriminate].
      injection H as <-. eapply effect_mine; eassumption.
    + injection H as <-. apply effect_none.
  - destruct (Blockchain.validateChain s) as [o|] eqn:E; [|discriminate].
    injection H as <-. rewrite (validateChain_readOnly _ _ E). apply effect_none.
  - destruct (Blockchain.getBalance a s) as [o|] eqn:E; [|discriminate].
    injection H as <-. rewrite (getBalance_readOnly _ _ _ E). apply effect_none.
Qed.

Lemma rewardFirst_snoc txs tx :
  rewardFirst txs -> accepted tx = true -> rewardFirst (txs ++ [tx]).
Proof.
  destruct txs as [|t rest]; simpl.
  - intros _ H. split; [now right | constructor].
  - intros [H1 H2] H. split; [assumption|]. apply Forall_app. split; [assumption|].
    now constructor.
Qed.

Lemma lookup_snoc_cases {A : Type} (l : list A) (x y : A) (i : nat) :
  (l ++ [x]) !! i = Some y ->
  (i < length l /\ l !! i = Some y) \/ (i = length l /\ y = x).
Proof.
  intros H. destruct (decide (i < length l)) as [Hlt|Hge].
  - left. split; [assumption|]. now rewrite lookup_app_l in H.
  - right. rewrite lookup_app_r in H by lia.
    destruct (i - length l) as [|k] eqn:E; simpl in H; [|discriminate].
    split; [lia | congruence].
Qed.

Lemma effect_wellFormed s s' : effect s s' -> wellFormed s -> wellFormed s'.
Proof.
  intros He (Hd & Hr & Hne & Hpass & Hblocks & Hpend).
  destruct He as [|tx Htx|fuel bt rt miner lb mined Hlast Hsearch].
  - unfold wellFormed. tauto.
  - unfold wellFormed. simpl.
    pose proof (rewardFirst_snoc _ _ Hpend Htx). tauto.
  - pose proof (search_sealed _ _ _ _ (new_sealed _ _ _ _) Hsearch) as Hsealed.
    destruct (search_sameContent _ _ _ _ Hsearch) as (Hi & _ & Htx & Hp).
    pose proof (search_meetsTarget _ _ _ _ Hsearch) as Hmeets.
    simpl in Hi, Htx, Hp. rewrite Hd in Hmeets.
    pose proof (lookup_lt_Some _ _ _ Hlast) as Hlen.
    unfold wellFormed. simpl.
    split; [assumption|]. split; [assumption|]. split; [|split; [|split]].
    + intros E. apply app_eq_nil in E. destruct E as [_ E]. discriminate E.
    + intros i Hi'. rewrite length_app in Hi'. simpl in Hi'.
      destruct (decide (i < length (Blockchain.chain s))) as [Hlt|Hge].
      * apply (passes_agree (Blockchain.chain s)).
        -- apply lookup_app_l. lia.
        -- apply lookup_app_l. lia.
        -- apply Hpass. lia.
      * assert (i = length (Blockchain.chain s)) as -> by lia.
        exists mined, lb. split; [apply list_lookup_middle; reflexivity|].
        split; [rewrite lookup_app_l by lia; exact Hlast|].
        split; [exact Hsealed | exact Hp].
    + intros i b H.
      destruct (lookup_snoc_cases _ _ _ _ H) as [[_ Hb] | [-> ->]];
        [apply (Hblocks _ _ Hb)|].
      split; [exact Hi|]. split; [exact Hsealed|].
      split; [now rewrite Htx | intros _; exact Hmeets].
    + split; [|constructor]. left. split; [reflexivity | exact Hr].
Qed.

Lemma new_wellFormed now : wellFormed (Blockchain.new now).
Proof.
  unfold wellFormed. simpl.
  split; [reflexivity|]. split; [reflexivity|]. split; [discriminate|].
  split; [intros i Hi; lia|]. split; [|exact I].
  intros i b H. destruct i as [|i]; [|discriminate H]. injection H as <-.
  split; [reflexivity|]. split; [reflexivity|]. split; [exact I | intros; lia].
Qed.

Lemma reachable_wellFormed s : reachable s -> wellFormed s.
Proof.
  induction 1 as [now | c s s' _ IH Hcall].
  - apply new_wellFormed.
  - eapply effect_wellFormed; [eapply perform_effect; eassumption | exact IH].
Qed.

Lemma reachable_performAll calls s s' :
  reachable s -> performAll calls s = Some s' -> reachable s'.
Proof.
  revert s. induction calls as [|c calls IH]; intros s Hs H; simpl in H.
  - now injection H as <-.
  - destruct (perform c s) as [s1|] eqn:E; [|discriminate].
    apply (IH s1); [|exact H]. eapply reachable_call; eassumption.
Defined.

(** The example ledger is one the constructor and the methods build. *)
Lemma constructedLedger_reachable : reachable Examples.constructedLedger.
Proof.
  apply (reachable_performAll
           [AddTransaction
              (Transaction.new 1700000000001 Examples.alice Examples.bob (Finite 50));
            MinePendingTransactions 0 1700000053869 1700000053870 Examples.minerX;
            MinePendingTransactions 0 1700000134507 1700000134508 Examples.minerX]
           (Blockchain.new 1700000000000)).
  - apply reachable_new.
  - vm_compute. reflexivity.
Defined.

(** X1: every ledger built by the constructor and any sequence of calls of
    [addTransaction], [minePendingTransactions], [validateChain] and
    [getBalance] validates: [validateChain] returns true and logs nothing. *)
Theorem reachable_chain_validates (s : Blockchain.t) :
  reachable s ->
  Blockchain.validateChain s
  = Some (Blockchain.mkOutcome (Blockchain.Normal true) s []).
Proof.
  intros Hs. destruct (reachable_wellFormed s Hs) as (_ & _ & _ & Hpass & _).
  apply (validateChain_report s Intact). exact Hpass.
Qed.

Lemma reachable_chain_validates_witness :
  Blockchain.validateChain Examples.constructedLedger
  = Some (Blockchain.mkOutcome (Blockchain.Normal true) Examples.constructedLedger []).
Proof.
  apply (reachable_chain_validates Examples.constructedLedger).
  apply constructedLedger_reachable.
Defined.

(** X2: in every such ledger the difficulty is still the constructor's 4,
    every block's stored hash is the hash of its fields, and the hash of
    every block after the genesis block has four leading zeros. *)
Theorem reachable_proof_of_work (s : Blockchain.t) :
  reachable s ->
  Blockchain.difficulty s = 4
  /\ forall i b, Blockchain.chain s !! i = Some b ->
       Block.hash b = Block.calculateHash b
       /\ (1 <= i -> leadingZeros 4 (Block.hash b)).
Proof.
  intros Hs. destruct (reachable_wellFormed s Hs) as (Hd & _ & _ & _ & Hblocks & _).
  split; [exact Hd|]. intros i b Hb.
  destruct (Hblocks i b Hb) as (_ & Hsealed & _ & Hmeets).
  split; [exact Hsealed|]. intros Hi. apply meetsTarget_leading_zeros, Hmeets, Hi.
Qed.

Lemma reachable_proof_of_work_witness :
  Blockchain.difficulty Examples.constructedLedger = 4
  /\ forall i b, Blockchain.chain Examples.constructedLedger !! i = Some b ->
       Block.hash b = Block.calculateHash b
       /\ (1 <= i -> leadingZeros 4 (Block.hash b)).
Proof.
  apply (reachable_proof_of_work Examples.constructedLedger).
  apply constructedLedger_reachable.
Defined.

(** X3: in every such ledger the block at position [i] of the chain has
    index [i]. *)
Theorem reachable_index_is_position (s : Blockchain.t) (i : nat) (b : Block.t) :
  reachable s -> Blockchain.chain s !! i = Some b -> Block.index b = i.
Proof.
  intros Hs Hb. destruct (reachable_wellFormed s Hs) as (_ & _ & _ & _ & Hblocks & _).
  apply (Hblocks i b Hb).
Qed.

Lemma reachable_index_is_position_witness :
  Block.index (default Examples.candidate (Blockchain.chain Examples.constructedLedger !! 2))
  = 2.
Proof.
  apply (reachable_index_is_position Examples.constructedLedger).
  - apply constructedLedger_reachable.
  - vm_compute. reflexivity.
Defined.

(** X4: in every such ledger the mining reward is still 100, and the pending
    transactions as well as the transactions of every block hold at most one
    reward transaction (sender null, amount 100), which then comes first, all
    others having passed the test of [addTransaction]. *)
Theorem reachable_reward_first (s : Blockchain.t) :
  reachable s ->
  Blockchain.miningReward s = Finite 100
  /\ rewardFirst (Blockchain.pendingTransactions s)
  /\ forall i b, Blockchain.chain s !! i = Some b -> rewardFirst (Block.transactions b).
Proof.
  intros Hs. destruct (reachable_wellFormed s Hs) as (_ & Hr & _ & _ & Hblocks & Hpend).
  split; [exact Hr|]. split; [exact Hpend|]. intros i b Hb. apply (Hblocks i b Hb).
Qed.

Lemma reachable_reward_first_witness :
  Blockchain.miningReward Examples.constructedLedger = Finite 100
  /\ rewardFirst (Blockchain.pendingTransactions Examples.constructedLedger)
  /\ forall i b, Blockchain.chain Examples.constructedLedger !! i = Some b ->
       rewardFirst (Block.transactions b).
Proof.
  apply (reachable_reward_first Examples.constructedLedger).
  apply constructedLedger_reachable.
Defined.

Lemma effect_appends s s' :
  effect s s' ->
  exists added,
    Blockchain.chain s' = Blockchain.chain s ++ added /\ length added <= 1
    /\ Blockchain.difficulty s' = Blockchain.difficulty s
    /\ Blockchain.miningReward s' = Blockchain.miningReward s.
Proof.
  intros [|tx Htx|fuel bt rt miner lb mined Hlast Hsearch].
  - exists []. rewrite app_nil_r. simpl. auto.
  - exists []. rewrite app_nil_r. simpl. auto.
  - exists [mined]. simpl. auto.
Qed.

(** X5: the chain is append-only and the parameters are fixed: whatever
    calls are made, in whatever order and with whatever completions, the
    chain afterwards is the chain before followed by at most one new block per
    call, and difficulty and mining reward are unchanged. *)
Theorem chain_append_only (calls : list Call) (s s' : Blockchain.t) :
  performAll calls s = Some s' ->
  exists added,
    Blockchain.chain s' = Blockchain.chain s ++ added
    /\ length added <= length calls
    /\ Blockchain.difficulty s' = Blockchain.difficulty s
    /\ Blockchain.miningReward s' = Blockchain.miningReward s.
Proof.
  revert s. induction calls as [|c calls IH]; intros s H; simpl in H.
  - injection H as <-. exists []. rewrite app_nil_r. simpl. auto.
  - destruct (perform c s) as [s1|] eqn:E; [|discriminate].
    destruct (effect_appends _ _ (perform_effect _ _ _ E)) as (a1 & H1 & L1 & D1 & R1).
    destruct (IH _ H) as (a2 & H2 & L2 & D2 & R2).
    exists (a1 ++ a2). rewrite H2, H1, <- app_assoc, length_app. simpl.
    repeat split; [lia | congruence | congruence].
Qed.

Lemma chain_append_only_witness :
  exists added,
    Blockchain.chain Examples.minedOnce
    = Blockchain.chain Examples.pendingLedger ++ added
    /\ length added <= 2
    /\ Blockchain.difficulty Examples.minedOnce = 1
    /\ Blockchain.miningReward Examples.minedOnce = Finite 100.
Proof.
  apply (chain_append_only
           [ValidateChain; MinePendingTransactions 200 1003 1004 Examples.minerX]
           Examples.pendingLedger Examples.minedOnce).
  vm_compute. reflexivity.
Defined.

(** ** Balances across calls *)

(** X6: balances move at mining only: [addTransaction], whether it throws or
    not, changes no balance, and when [minePendingTransactions] returns, the
    balance of every address is its balance before the call with the
    transactions that were pending replayed on top of it, in order. *)
Theorem balances_move_at_mining (s : Blockchain.t) (a : Address) :
  (forall tx o,
     Blockchain.addTransaction tx s = Some o ->
     Blockchain.completion <$> Blockchain.getBalance a (Blockchain.after o)
     = Blockchain.completion <$> Blockchain.getBalance a s)
  /\ (forall fuel blockTime rewardTime miner s' out x,
        Blockchain.minePendingTransactions fuel blockTime rewardTime miner s
        = Some (Blockchain.mkOutcome (Blockchain.Normal tt) s' out) ->
        Blockchain.getBalance a s = Some (Blockchain.mkOutcome (Blockchain.Normal x) s []) ->
        Blockchain.getBalance a s'
        = Some (Blockchain.mkOutcome
                  (Blockchain.Normal
                     (fold_left (Blockchain.applyTransaction a)
                        (Blockchain.pendingTransactions s) x))
                  s' [])).
Proof.
  split.
  - intros tx o H. unfold Blockchain.addTransaction in H.
    destruct (_ || _); injection H as <-; rewrite !getBalance_unfold; reflexivity.
  - intros fuel blockTime rewardTime miner s' out x Hmine Hx.
    destruct (minePendingTransactions_normal _ _ _ _ _ _ _ Hmine) as (lb & b & _ & Hb & ->).
    destruct (search_sameContent _ _ _ _ Hb) as (_ & _ & Htx & _).
    rewrite getBalance_unfold in Hx. injection Hx as <-.
    rewrite getBalance_unfold. simpl. rewrite fold_left_app. simpl.
    unfold Blockchain.applyBlock at 1. rewrite Htx. reflexivity.
Qed.

Lemma balances_move_at_mining_witness :
  Blockchain.getBalance Examples.bob Examples.minedOnce
  = Some (Blockchain.mkOutcome
            (Blockchain.Normal
               (fold_left (Blockchain.applyTransaction Examples.bob)
                  (Blockchain.pendingTransactions Examples.pendingLedger) (Finite 0)))
            Examples.minedOnce []).
Proof.
  apply (proj2 (balances_move_at_mining Examples.pendingLedger Examples.bob)
           200 1003%Z 1004%Z Examples.minerX Examples.minedOnce
           (default [] (option_map Blockchain.console
              (Blockchain.minePendingTransactions 200 1003 1004 Examples.minerX
                 Examples.pendingLedger)))
           (Finite 0)).
  - vm_compute. reflexivity.
  - vm_compute. reflexivity.
Defined.

(** Bob holds 50 - 25 once the two transfers of the demo are mined. *)
Example bob_after_first_block :
  Blockchain.completion <$> Blockchain.getBalance Examples.bob Examples.minedOnce
  = Some (Blockchain.Normal (Finite 25)).
Proof. vm_compute. reflexivity. Qed.

Lemma contributions_stranger a txs :
  Forall (fun tx => strictEq (Transaction.sender tx) a = false
                    /\ strictEq (Transaction.recipient tx) a = false) txs ->
  flat_map (contributions a) txs = [].
Proof.
  induction 1 as [|tx txs [H1 H2] _ IH]; simpl; [reflexivity|].
  unfold contributions at 1. now rewrite H1, H2, IH.
Qed.

(** X7: the balance of an address that is neither sender nor recipient of
    any transaction sealed in the chain is 0, whatever is pending; on a new
    ledger that is every address. *)
Theorem getBalance_stranger (s : Blockchain.t) (a : Address) :
  Forall (fun tx => strictEq (Transaction.sender tx) a = false
                    /\ strictEq (Transaction.recipient tx) a = false)
         (committed (Blockchain.chain s)) ->
  Blockchain.getBalance a s
  = Some (Blockchain.mkOutcome (Blockchain.Normal (Finite 0)) s []).
Proof.
  intros H. rewrite getBalance_unfold, replay_contributions.
  now rewrite contributions_stranger.
Qed.

Lemma getBalance_stranger_witness :
  Blockchain.getBalance Examples.charlie Examples.constructedLedger
  = Some (Blockchain.mkOutcome (Blockchain.Normal (Finite 0)) Examples.constructedLedger []).
Proof.
  apply (getBalance_stranger Examples.constructedLedger Examples.charlie).
  replace (committed (Blockchain.chain Examples.constructedLedger))
    with [Transaction.new 1700000000001 Examples.alice Examples.bob (Finite 50);
          Transaction.mk None Examples.minerX (Finite 100) 1700000053870]
    by (vm_compute; reflexivity).
  repeat constructor.
Defined.

(** ** The last block *)

Lemma getLastBlock_unfold s :
  Blockchain.getLastBlock s
  = Some (Blockchain.mkOutcome
            (Blockchain.Normal (Blockchain.chain s !! (length (Blockchain.chain s) - 1)))
            s []).
Proof. unfold Blockchain.getLastBlock. now rewrite bind_gets. Qed.

(** X8: [minePendingTransactions] throws exactly on an empty chain, where
    [getLastBlock()] is undefined: the TypeError of reading [hash] leaves the
    ledger as it was and nothing is logged; on a chain with at least one block
    the call never throws. *)
Theorem minePendingTransactions_throws_iff_empty
    (s : Blockchain.t) (fuel : nat) (blockTime rewardTime : Z) (miner : Address) :
  (Blockchain.chain s = [] ->
   Blockchain.minePendingTransactions fuel blockTime rewardTime miner s
   = Some (Blockchain.mkOutcome (Blockchain.Throw Blockchain.undefinedHash) s []))
  /\ (Blockchain.chain s <> [] ->
      forall o,
        Blockchain.minePendingTransactions fuel blockTime rewardTime miner s = Some o ->
        Blockchain.completion o = Blockchain.Normal tt).
Proof.
  rewrite minePendingTransactions_unfold. split.
  - intros ->. reflexivity.
  - intros Hne o.
    destruct (lookup_lt_is_Some_2 (Blockchain.chain s) (length (Blockchain.chain s) - 1))
      as [lb ->].
    { destruct (Blockchain.chain s); [congruence | simpl; lia]. }
    simpl. destruct (Block.search _ _ _); [|discriminate].
    intros H. now injection H as <-.
Qed.

Lemma minePendingTransactions_throws_iff_empty_witness :
  Blockchain.minePendingTransactions 0 1 2 Examples.minerX
    (withChain [] Examples.start)
  = Some (Blockchain.mkOutcome (Blockchain.Throw Blockchain.undefinedHash)
            (withChain [] Examples.start) []).
Proof.
  apply (proj1 (minePendingTransactions_throws_iff_empty
                  (withChain [] Examples.start) 0 1 2 Examples.minerX)).
  reflexivity.
Defined.

(** X9: [getLastBlock()] returns the last element of the chain, undefined
    for an empty chain, and changes nothing; after [minePendingTransactions]
    has returned it returns the block just mined, whose index is the length
    the chain had, whose timestamp is the clock reading of the call, whose
    previous hash is the stored hash of the block [getLastBlock()] returned
    before the call, and whose hash is sealed with [difficulty] leading
    zeros. *)
Theorem getLastBlock_after_mining (s : Blockchain.t) :
  Blockchain.getLastBlock s
  = Some (Blockchain.mkOutcome (Blockchain.Normal (last (Blockchain.chain s))) s [])
  /\ (forall fuel blockTime rewardTime miner s' out,
        Blockchain.minePendingTransactions fuel blockTime rewardTime miner s
        = Some (Blockchain.mkOutcome (Blockchain.Normal tt) s' out) ->
        exists lastBlock mined,
          last (Blockchain.chain s) = Some lastBlock
          /\ Blockchain.getLastBlock s'
             = Some (Blockchain.mkOutcome (Blockchain.Normal (Some mined)) s' [])
          /\ Block.index mined = length (Blockchain.chain s)
          /\ Block.timestamp mined = blockTime
          /\ Block.previousHash mined = Block.hash lastBlock
          /\ Block.hash mined = Block.calculateHash mined
          /\ leadingZeros (Blockchain.difficulty s) (Block.hash mined)).
Proof.
  assert (forall c : list Block.t, c !! (length c - 1) = last c) as Hlast.
  { intros c. rewrite last_lookup. f_equal. lia. }
  split.
  - rewrite getLastBlock_unfold, Hlast. reflexivity.
  - intros fuel blockTime rewardTime miner s' out H.
    destruct (minePendingTransactions_normal _ _ _ _ _ _ _ H) as (lb & b & Hlb & Hb & ->).
    exists lb, b. rewrite <- Hlast. split; [exact Hlb|].
    destruct (search_sameContent _ _ _ _ Hb) as (Hi & Ht & _ & Hp).
    split.
    { rewrite getLastBlock_unfold, Hlast. simpl. now rewrite last_snoc. }
    split; [exact Hi|]. split; [exact Ht|]. split; [exact Hp|].
    split.
    + exact (search_sealed _ _ _ _ (new_sealed _ _ _ _) Hb).
    + apply meetsTarget_leading_zeros. exact (search_meetsTarget _ _ _ _ Hb).
Qed.

Lemma getLastBlock_after_mining_witness :
  exists lastBlock mined,
    last (Blockchain.chain Examples.pendingLedger) = Some lastBlock
    /\ Blockchain.getLastBlock Examples.minedOnce
       = Some (Blockchain.mkOutcome (Blockchain.Normal (Some mined)) Examples.minedOnce [])
    /\ Block.index mined = 1
    /\ Block.timestamp mined = 1003%Z
    /\ Block.previousHash mined = Block.hash lastBlock
    /\ Block.hash mined = Block.calculateHash mined
    /\ leadingZeros 1 (Block.hash mined).
Proof.
  apply (proj2 (getLastBlock_after_mining Examples.pendingLedger)
           200 1003%Z 1004%Z Examples.minerX Examples.minedOnce
           (default [] (option_map Blockchain.console
              (Blockchain.minePendingTransactions 200 1003 1004 Examples.minerX
                 Examples.pendingLedger)))).
  vm_compute. reflexivity.
Defined.

(** ** More on the nonce search *)

Lemma search_nonce_le fuel d b b' :
  Block.search fuel d b = Some b' -> (Block.nonce b <= Block.nonce b')%N.
Proof.
  revert b. induction fuel as [|fuel IH]; intros b; simpl;
    destruct (Block.meetsTarget d (Block.hash b)); intros H.
  - injection H as <-. lia.
  - discriminate.
  - injection H as <-. lia.
  - specialize (IH _ H). simpl in IH.
    pose proof (increment_bounds (Block.nonce b)). lia.
Qed.

Lemma meetsTarget_weaken d d' h :
  Block.meetsTarget d h = true -> d' <= d -> Block.meetsTarget d' h = true.
Proof.
  rewrite !meetsTarget_leading_zeros. intros H Hle k Hk. apply H. lia.
Qed.

(** X10: on every block, sealed or not, [mineBlock] touches the nonce and the
    hash only: when it returns, index, timestamp, transactions and previous
    hash are what they were, the nonce has not decreased, the hash has its
    [d] leading zeros, and the two lines logged name the block's index and
    its final hash. *)
Theorem mineBlock_keeps_content fuel d b b' out :
  Block.mineBlock fuel d b = Some (b', out) ->
  Block.index b' = Block.index b /\ Block.timestamp b' = Block.timestamp b
  /\ Block.transactions b' = Block.transactions b
  /\ Block.previousHash b' = Block.previousHash b
  /\ (Block.nonce b <= Block.nonce b')%N
  /\ leadingZeros d (Block.hash b')
  /\ out = [Block.startMessage b; Block.minedMessage b'].
Proof.
  intros H. unfold Block.mineBlock in H.
  destruct (Block.search fuel d b) as [r|] eqn:E; [|discriminate].
  injection H as <- <-.
  destruct (search_sameContent _ _ _ _ E) as (H1 & H2 & H3 & H4).
  repeat split; try assumption.
  - eapply search_nonce_le, E.
  - apply meetsTarget_leading_zeros. eapply search_meetsTarget, E.
Qed.

Lemma mineBlock_keeps_content_witness :
  Block.index Examples.mined = Block.index Examples.candidate
  /\ Block.timestamp Examples.mined = Block.timestamp Examples.candidate
  /\ Block.transactions Examples.mined = Block.transactions Examples.candidate
  /\ Block.previousHash Examples.mined = Block.previousHash Examples.candidate
  /\ (Block.nonce Examples.candidate <= Block.nonce Examples.mined)%N
  /\ leadingZeros 2 (Block.hash Examples.mined)
  /\ Examples.minedLog
     = [Block.startMessage Examples.candidate; Block.minedMessage Examples.mined].
Proof.
  apply (mineBlock_keeps_content 100 2 Examples.candidate Examples.mined Examples.minedLog).
  vm_compute. reflexivity.
Defined.

(** X11: mining is idempotent: on a block that [mineBlock(d)] has returned,
    a further [mineBlock(d')] with [d' <= d] returns at once, without a turn
    of the loop, and leaves nonce and hash as they are. *)
Theorem mineBlock_again fuel d b b' out d' fuel' :
  Block.mineBlock fuel d b = Some (b', out) ->
  d' <= d ->
  Block.mineBlock fuel' d' b'
  = Some (b', [Block.startMessage b'; Block.minedMessage b']).
Proof.
  intros H Hle. unfold Block.mineBlock in H.
  destruct (Block.search fuel d b) as [r|] eqn:E; [|discriminate].
  injection H as <- _.
  apply mineBlock_meets_already.
  eapply meetsTarget_weaken; [eapply search_meetsTarget, E | exact Hle].
Qed.

Lemma mineBlock_again_witness :
  Block.mineBlock 0 1 Examples.mined
  = Some (Examples.mined,
          [Block.startMessage Examples.mined; Block.minedMessage Examples.mined]).
Proof.
  apply (mineBlock_again 100 2 Examples.candidate Examples.mined Examples.minedLog 1 0).
  - vm_compute. reflexivity.
  - lia.
Defined.

(** X12: a digest has 64 characters, so with a difficulty above 64 no hash
    ever meets the target: [mineBlock] on a block whose hash matches its
    fields, and [minePendingTransactions] on any chain that is not empty,
    never return, however many turns the loop is given. *)
Theorem mining_beyond_64_never_returns :
  (forall fuel d b,
     64 < d -> Block.hash b = Block.calculateHash b -> Block.mineBlock fuel d b = None)
  /\ (forall fuel blockTime rewardTime miner s,
        64 < Blockchain.difficulty s -> Blockchain.chain s <> [] ->
        Blockchain.minePendingTransactions fuel blockTime rewardTime miner s = None).
Proof.
  split.
  - intros fuel d b Hd Hb. unfold Block.mineBlock.
    now rewrite (search_beyond_digest fuel d b Hd Hb).
  - intros fuel blockTime rewardTime miner s Hd Hne.
    rewrite minePendingTransactions_unfold.
    destruct (lookup_lt_is_Some_2 (Blockchain.chain s) (length (Blockchain.chain s) - 1))
      as [lb ->].
    { destruct (Blockchain.chain s); [congruence | simpl; lia]. }
    simpl. now rewrite (search_beyond_digest _ _ _ Hd (new_sealed _ _ _ _)).
Qed.

Lemma mining_beyond_64_never_returns_witness :
  Block.mineBlock 1000 65 Examples.candidate = None.
Proof.
  apply (proj1 mining_beyond_64_never_returns 1000 65 Examples.candidate).
  - lia.
  - apply new_sealed.
Defined.

(** ** The shape of a hash *)

Lemma hex_digit_lower (d : N) : (d < 16)%N -> isLowerHex (SHA256.hex_digit d) = true.
Proof.
  intros H.
  assert (d = 0 \/ d = 1 \/ d = 2 \/ d = 3 \/ d = 4 \/ d = 5 \/ d = 6 \/ d = 7
          \/ d = 8 \/ d = 9 \/ d = 10 \/ d = 11 \/ d = 12 \/ d = 13 \/ d = 14
          \/ d = 15)%N as Hd by lia.
  repeat (destruct Hd as [-> | Hd]; [reflexivity|]). subst d. reflexivity.
Qed.

Lemma hex_byte_lower (b : N) :
  (b < 256)%N -> Forall (fun c => isLowerHex c = true) (SHA256.hex_byte b).
Proof.
  intros H. unfold SHA256.hex_byte. repeat constructor; apply hex_digit_lower.
  - rewrite N.shiftr_div_pow2. change (2 ^ 4)%N with 16%N.
    apply N.Div0.div_lt_upper_bound. exact H.
  - change 15%N with (N.ones 4). rewrite N.land_ones. now apply N.mod_lt.
Qed.

Lemma be_bytes_small (n : nat) (x : N) :
  Forall (fun b => (b < 256)%N) (SHA256.be_bytes n x).
Proof.
  induction n as [|n IH]; simpl; constructor; [|exact IH].
  change 255%N with (N.ones 8). rewrite N.land_ones. now apply N.mod_lt.
Qed.

Lemma words_bytes_small (n : nat) (ws : list N) :
  Forall (fun b => (b < 256)%N) (flat_map (SHA256.be_bytes n) ws).
Proof.
  induction ws as [|w ws IH]; [constructor|].
  change (flat_map (SHA256.be_bytes n) (w :: ws))
    with (SHA256.be_bytes n w ++ flat_map (SHA256.be_bytes n) ws).
  apply Forall_app. split; [apply be_bytes_small | exact IH].
Qed.

Lemma hex_lower (bs : list N) :
  Forall (fun b => (b < 256)%N) bs ->
  Forall (fun c => isLowerHex c = true) (list_ascii_of_string (SHA256.hex bs)).
Proof.
  intros H. unfold SHA256.hex. rewrite list_ascii_of_string_of_list_ascii.
  induction H as [|b bs Hb _ IH]; simpl; [constructor|].
  pose proof (hex_byte_lower b Hb) as Hh. unfold SHA256.hex_byte in Hh.
  inversion Hh as [|? ? H1 H2]; subst. inversion H2 as [|? ? H3 _]; subst.
  repeat constructor; assumption.
Qed.

(** X14: whatever the block, [calculateHash()] returns a string of exactly 64
    characters, each a lower-case hexadecimal digit; the same holds of the
    hash a constructed block carries. *)
Theorem calculateHash_hex_digest (b : Block.t) :
  String.length (Block.calculateHash b) = 64
  /\ Forall (fun c => isLowerHex c = true) (list_ascii_of_string (Block.calculateHash b))
  /\ forall i ts txs ph,
       String.length (Block.hash (Block.new i ts txs ph)) = 64.
Proof.
  split; [apply sha256_hex_length|]. split.
  - unfold Block.calculateHash, Block.hashOf, SHA256.sha256_hex.
    apply hex_lower. unfold SHA256.digest.
    generalize (SHA256.blocks
                  (length (SHA256.pad (map N_of_ascii (list_ascii_of_string (preimageOf b))))
                   `div` 64)
                  SHA256.init
                  (SHA256.pad (map N_of_ascii (list_ascii_of_string (preimageOf b))))).
    intros h. apply words_bytes_small.
  - intros i ts txs ph. apply sha256_hex_length.
Qed.

(** ** What validation does not see *)

(** Replacing a block by one with the same stored hash, previous hash and
    recomputed hash keeps every block passing. *)
Lemma passes_insert c i b b' j :
  c !! i = Some b ->
  Block.hash b' = Block.hash b -> Block.previousHash b' = Block.previousHash b ->
  Block.calculateHash b' = Block.calculateHash b ->
  passes c j -> passes (<[i := b']> c) j.
Proof.
  intros Hb Hh Hp Hc (cur & prev & Hcur & Hprev & Hsealed & Hlink).
  pose proof (lookup_lt_Some _ _ _ Hb) as Hlt.
  exists (if decide (i = j) then b' else cur),
         (if decide (i = j - 1) then b' else prev).
  split; [|split; [|split]].
  - destruct (decide (i = j)) as [<-|Hne].
    + now apply list_lookup_insert_eq.
    + now rewrite list_lookup_insert_ne.
  - destruct (decide (i = j - 1)) as [->|Hne].
    + now apply list_lookup_insert_eq.
    + now rewrite list_lookup_insert_ne.
  - destruct (decide (i = j)) as [<-|Hne]; [|exact Hsealed].
    assert (cur = b) as -> by congruence. congruence.
  - assert (Block.previousHash (if decide (i = j) then b' else cur)
            = Block.previousHash cur) as ->.
    { destruct (decide (i = j)) as [<-|Hne]; [|reflexivity].
      assert (cur = b) as -> by congruence. exact Hp. }
    assert (Block.hash (if decide (i = j - 1) then b' else prev) = Block.hash prev) as ->.
    { destruct (decide (i = j - 1)) as [->|Hne]; [|reflexivity].
      assert (prev = b) as -> by congruence. exact Hh. }
    exact Hlink.
Qed.

Lemma reachable_report_intact s :
  reachable s -> Blockchain.validateChain s = Some (report Intact s).
Proof.
  intros Hs. destruct (reachable_wellFormed s Hs) as (_ & _ & _ & Hpass & _).
  apply (validateChain_report _ Intact). exact Hpass.
Qed.

(** X15: the hash is taken over the fields printed side by side with nothing
    between them, so validation cannot tell apart two blocks whose index and
    timestamp print to the same digits overall: in a chain that validates,
    replacing a block by one that differs in index and timestamp only, their
    digits side by side unchanged, gives a chain that still validates. *)
Theorem redated_block_undetected (s : Blockchain.t) (i : nat) (b b' : Block.t) :
  Blockchain.validateChain s = Some (report Intact s) ->
  Blockchain.chain s !! i = Some b ->
  Number.toString (Z.of_nat (Block.index b')) +:+ Number.toString (Block.timestamp b')
  = Number.toString (Z.of_nat (Block.index b)) +:+ Number.toString (Block.timestamp b) ->
  Block.transactions b' = Block.transactions b ->
  Block.previousHash b' = Block.previousHash b ->
  Block.nonce b' = Block.nonce b ->
  Block.hash b' = Block.hash b ->
  Block.calculateHash b' = Block.calculateHash b
  /\ Blockchain.validateChain (withChain (<[i := b']> (Blockchain.chain s)) s)
     = Some (Blockchain.mkOutcome (Blockchain.Normal true)
               (withChain (<[i := b']> (Blockchain.chain s)) s) []).
Proof.
  intros Hvalid Hb Hdigits Htx Hp Hn Hh.
  assert (Block.calculateHash b' = Block.calculateHash b) as Hc.
  { unfold Block.calculateHash, Block.hashOf, Block.preimage.
    rewrite Htx, Hp, Hn. f_equal.
    rewrite <- !(append_assoc (Number.toString (Z.of_nat _))).
    now rewrite Hdigits. }
  split; [exact Hc|].
  apply (validateChain_report _ Intact). simpl.
  intros j Hj. rewrite length_insert in Hj.
  apply (passes_insert _ _ b); try assumption.
  apply (valid_all_pass _ Hvalid). exact Hj.
Qed.

Lemma redated_block_undetected_witness :
  Block.calculateHash Examples.redatedBlock = Block.calculateHash Examples.sealedBlock
  /\ Blockchain.validateChain
       (withChain (<[1 := Examples.redatedBlock]> (Blockchain.chain Examples.constructedLedger))
          Examples.constructedLedger)
     = Some (Blockchain.mkOutcome (Blockchain.Normal true)
               (withChain
                  (<[1 := Examples.redatedBlock]> (Blockchain.chain Examples.constructedLedger))
                  Examples.constructedLedger) []).
Proof.
  apply (redated_block_undetected Examples.constructedLedger 1
           Examples.sealedBlock Examples.redatedBlock).
  - apply reachable_report_intact, constructedLedger_reachable.
  - vm_compute. reflexivity.
  - vm_compute. reflexivity.
  - reflexivity.
  - reflexivity.
  - reflexivity.
  - reflexivity.
Defined.

(** X16: validation checks neither the proof of work nor the index: pushing
    onto a chain that validates a block fresh from the constructor, never
    mined, with any index, timestamp and transactions, and the stored hash of
    the last block as its previous hash, gives a chain that validates. *)
Theorem unmined_block_validates (s : Blockchain.t) (lastBlock : Block.t)
    (i : nat) (ts : Z) (txs : list Transaction.t) :
  Blockchain.validateChain s = Some (report Intact s) ->
  last (Blockchain.chain s) = Some lastBlock ->
  Blockchain.validateChain
    (withChain (Blockchain.chain s ++ [Block.new i ts txs (Block.hash lastBlock)]) s)
  = Some (Blockchain.mkOutcome (Blockchain.Normal true)
            (withChain (Blockchain.chain s ++ [Block.new i ts txs (Block.hash lastBlock)]) s)
            []).
Proof.
  intros Hvalid Hlast.
  pose proof (valid_all_pass _ Hvalid) as Hall.
  rewrite last_lookup in Hlast.
  pose proof (lookup_lt_Some _ _ _ Hlast) as Hlen.
  apply (validateChain_report _ Intact). simpl.
  intros j Hj. rewrite length_app in Hj. simpl in Hj.
  destruct (decide (j < length (Blockchain.chain s))) as [Hlt|Hge].
  - apply (passes_agree (Blockchain.chain s)).
    + apply lookup_app_l. lia.
    + apply lookup_app_l. lia.
    + apply Hall. lia.
  - assert (j = length (Blockchain.chain s)) as -> by lia.
    exists (Block.new i ts txs (Block.hash lastBlock)), lastBlock.
    split; [apply list_lookup_middle; reflexivity|].
    split.
    { rewrite lookup_app_l by lia. rewrite <- Hlast. f_equal. lia. }
    split; reflexivity.
Qed.

Lemma unmined_block_validates_witness :
  Blockchain.validateChain
    (withChain (Blockchain.chain Examples.constructedLedger
                ++ [Block.new 7 0 [Examples.aliceToBob]
                      (Block.hash (default Examples.candidate
                                     (last (Blockchain.chain Examples.constructedLedger))))])
       Examples.constructedLedger)
  = Some (Blockchain.mkOutcome (Blockchain.Normal true)
            (withChain (Blockchain.chain Examples.constructedLedger
                        ++ [Block.new 7 0 [Examples.aliceToBob]
                              (Block.hash (default Examples.candidate
                                 (last (Blockchain.chain Examples.constructedLedger))))])
               Examples.constructedLedger) []).
Proof.
  apply (unmined_block_validates Examples.constructedLedger).
  - apply reachable_report_intact, constructedLedger_reachable.
  - vm_compute. reflexivity.
Defined.

(** ** Intake, call after call *)

Lemma perform_addTransaction tx s :
  perform (AddTransaction tx) s
  = Some (if accepted tx then Blockchain.pushPending tx s else s).
Proof.
  unfold perform, Blockchain.addTransaction, accepted.
  destruct (_ || _); reflexivity.
Qed.

(** X17: submitting a list of transactions one [addTransaction] at a time,
    going on after every rejection, leaves pending, behind what was pending
    before, exactly the transactions that pass the test, in the order of
    submission, and leaves chain, difficulty and mining reward alone. *)
Theorem addTransaction_batch (txs : list Transaction.t) (s : Blockchain.t) :
  performAll (map AddTransaction txs) s
  = Some (Blockchain.mk (Blockchain.chain s) (Blockchain.difficulty s)
            (Blockchain.pendingTransactions s ++ List.filter accepted txs)
            (Blockchain.miningReward s)).
Proof.
  revert s. induction txs as [|tx txs IH]; intros s.
  - simpl. rewrite app_nil_r. now destruct s.
  - cbn [map performAll List.filter]. rewrite perform_addTransaction.
    destruct (accepted tx); rewrite IH; simpl.
    + now rewrite <- app_assoc.
    + reflexivity.
Qed.

(** Of Alice's transfer, a transfer from nobody and one of a negative amount,
    only the first is taken. *)
Example batch_of_three :
  Blockchain.pendingTransactions
    (default Examples.start
       (performAll
          (map AddTransaction
             [Examples.aliceToBob; Examples.fromNobody;
              Transaction.new 5 Examples.bob Examples.alice (Finite (-3))])
          Examples.start))
  = [Examples.aliceToBob].
Proof. reflexivity. Qed.

(** ** Laws of the balances *)

Lemma strictEq_eq a b : strictEq a b = true <-> a = b.
Proof.
  destruct a as [x|], b as [y|]; simpl; try (split; congruence).
  rewrite String.eqb_eq. split; congruence.
Qed.

Lemma strictEq_refl a : strictEq a a = true.
Proof. now apply strictEq_eq. Qed.

Lemma sumZ_indicator_absent (p : Address) (z : Z) (addresses : list Address) :
  p ∉ addresses ->
  sumZ (map (fun a => if strictEq p a then z else 0%Z) addresses) = 0%Z.
Proof.
  induction addresses as [|a rest IH]; intros H; simpl; [reflexivity|].
  apply not_elem_of_cons in H as [Hne Hrest].
  destruct (strictEq p a) eqn:E; [apply strictEq_eq in E; congruence|].
  rewrite IH by assumption. reflexivity.
Qed.

(** Over a list without duplicates, exactly one address is [p]. *)
Lemma sumZ_indicator (p : Address) (z : Z) (addresses : list Address) :
  NoDup addresses -> p ∈ addresses ->
  sumZ (map (fun a => if strictEq p a then z else 0%Z) addresses) = z.
Proof.
  induction 1 as [|a rest Hnotin Hnodup IH]; intros Hin; simpl.
  - now apply elem_of_nil in Hin.
  - destruct (strictEq p a) eqn:E.
    + apply strictEq_eq in E. subst a.
      rewrite sumZ_indicator_absent by assumption. lia.
    + apply elem_of_cons in Hin as [->|Hin]; [now rewrite strictEq_refl in E|].
      rewrite IH by assumption. lia.
Qed.

(** And at most one. *)
Lemma sumZ_indicator_le (p : Address) (z : Z) (addresses : list Address) :
  NoDup addresses -> (0 <= z)%Z ->
  (0 <= sumZ (map (fun a => if strictEq p a then z else 0%Z) addresses) <= z)%Z.
Proof.
  intros Hnodup Hz. destruct (decide (p ∈ addresses)) as [Hin|Hout].
  - rewrite sumZ_indicator by assumption. lia.
  - rewrite sumZ_indicator_absent by assumption. lia.
Qed.

Lemma sumZ_plus (f g : Address -> Z) (addresses : list Address) :
  sumZ (map (fun a => (f a + g a)%Z) addresses)
  = (sumZ (map f addresses) + sumZ (map g addresses))%Z.
Proof. induction addresses as [|a rest IH]; simpl; [reflexivity | rewrite IH; lia]. Qed.

Lemma sumZ_minus (f g : Address -> Z) (addresses : list Address) :
  sumZ (map (fun a => (f a - g a)%Z) addresses)
  = (sumZ (map f addresses) - sumZ (map g addresses))%Z.
Proof. induction addresses as [|a rest IH]; simpl; [reflexivity | rewrite IH; lia]. Qed.

Lemma sumZ_le (f g : Address -> Z) (addresses : list Address) :
  (forall a, (f a <= g a)%Z) ->
  (sumZ (map f addresses) <= sumZ (map g addresses))%Z.
Proof.
  intros H. induction addresses as [|a rest IH]; simpl; [lia|].
  specialize (H a). lia.
Qed.

(** What a transaction takes from its sender it gives to its recipient. *)
Lemma netOf_sums_to_zero addresses tx :
  NoDup addresses ->
  Transaction.sender tx ∈ addresses -> Transaction.recipient tx ∈ addresses ->
  sumZ (map (fun a => netOf a tx) addresses) = 0%Z.
Proof.
  intros Hnodup Hs Hr. unfold netOf.
  rewrite (sumZ_minus
             (fun a => if strictEq (Transaction.recipient tx) a
                       then Number.toZ (Transaction.amount tx) else 0%Z)
             (fun a => if strictEq (Transaction.sender tx) a
                       then Number.toZ (Transaction.amount tx) else 0%Z)).
  rewrite !sumZ_indicator by assumption. lia.
Qed.

Lemma netOf_magnitudes addresses tx :
  NoDup addresses ->
  (sumZ (map (fun a => Z.abs (netOf a tx)) addresses)
   <= 2 * Z.abs (Number.toZ (Transaction.amount tx)))%Z.
Proof.
  intros Hnodup. set (z := Z.abs (Number.toZ (Transaction.amount tx))).
  pose proof (sumZ_indicator_le (Transaction.recipient tx) z addresses Hnodup
                ltac:(unfold z; lia)) as Hr.
  pose proof (sumZ_indicator_le (Transaction.sender tx) z addresses Hnodup
                ltac:(unfold z; lia)) as Hs.
  pose proof (sumZ_le (fun a => Z.abs (netOf a tx))
                (fun a => ((if strictEq (Transaction.recipient tx) a then z else 0)
                           + (if strictEq (Transaction.sender tx) a then z else 0))%Z)
                addresses) as Hle.
  rewrite sumZ_plus in Hle.
  assert (forall a, (Z.abs (netOf a tx)
                     <= (if strictEq (Transaction.recipient tx) a then z else 0)
                        + (if strictEq (Transaction.sender tx) a then z else 0))%Z) as H.
  { intros a. unfold netOf, z.
    destruct (strictEq (Transaction.recipient tx) a), (strictEq (Transaction.sender tx) a);
      lia. }
  specialize (Hle H). lia.
Qed.

Lemma net_sums_to_zero addresses txs :
  NoDup addresses ->
  Forall (fun tx => Transaction.sender tx ∈ addresses
                    /\ Transaction.recipient tx ∈ addresses) txs ->
  sumZ (map (fun a => net a txs) addresses) = 0%Z.
Proof.
  intros Hnodup. induction 1 as [|tx txs [Hs Hr] _ IH].
  - unfold net. simpl. clear. induction addresses as [|a rest IH]; simpl; lia.
  - rewrite (map_ext _ (fun a => (netOf a tx + net a txs)%Z)) by reflexivity.
    rewrite sumZ_plus, IH, netOf_sums_to_zero by assumption. reflexivity.
Qed.

Lemma net_magnitudes addresses txs :
  NoDup addresses ->
  (0 <= sumZ (map (fun a => Z.abs (net a txs)) addresses) <= 2 * volume txs)%Z.
Proof.
  intros Hnodup. split.
  { clear. induction addresses as [|a rest IH]; simpl; lia. }
  induction txs as [|tx txs IH].
  - unfold net, volume. simpl. clear. induction addresses as [|a rest IH]; simpl; lia.
  - change (volume (tx :: txs))
      with (Z.abs (Number.toZ (Transaction.amount tx)) + volume txs)%Z.
    pose proof (netOf_magnitudes addresses tx Hnodup) as Htx.
    pose proof (sumZ_le (fun a => Z.abs (net a (tx :: txs)))
                  (fun a => (Z.abs (netOf a tx) + Z.abs (net a txs))%Z) addresses) as Hle.
    rewrite sumZ_plus in Hle.
    assert (forall a, (Z.abs (net a (tx :: txs))
                       <= Z.abs (netOf a tx) + Z.abs (net a txs))%Z) as H.
    { intros a. change (net a (tx :: txs)) with (netOf a tx + net a txs)%Z. lia. }
    specialize (Hle H). lia.
Qed.

(** Integers added up as numbers, within the exact range. *)
Lemma total_of_integers (f : Address -> Z) (addresses : list Address) (x : Z) :
  (Z.abs x + sumZ (map (fun a => Z.abs (f a)) addresses) <= 2 ^ 53)%Z ->
  fold_left Number.add (map (fun a => Finite (f a)) addresses) (Finite x)
  = Finite (x + sumZ (map f addresses)).
Proof.
  revert x. induction addresses as [|a rest IH]; intros x Hb; simpl in *.
  - f_equal. lia.
  - assert (0 <= sumZ (map (fun a => Z.abs (f a)) rest))%Z as Hpos.
    { clear. induction rest as [|y ys IH]; simpl; lia. }
    rewrite add_Finite by lia. rewrite IH by lia. f_equal. lia.
Qed.

(** X19: money is conserved as long as no sum rounds: when every amount
    sealed in the chain is an integer and the magnitudes of the sealed
    amounts add up to at most 2^52, [getBalance] returns for every address
    the exact integer that the address received less what it sent, and the
    balances of the addresses of any duplicate-free list holding every sender
    and every recipient of the chain, null (the sender of the rewards)
    included, add up to 0. *)
Theorem balances_sum_to_zero (s : Blockchain.t) (addresses : list Address) :
  NoDup addresses ->
  Forall wholeAmount (committed (Blockchain.chain s)) ->
  (2 * volume (committed (Blockchain.chain s)) <= 2 ^ 53)%Z ->
  coversParties addresses (Blockchain.chain s) ->
  (forall a, Blockchain.getBalance a s
             = Some (Blockchain.mkOutcome
                       (Blockchain.Normal (Finite (net a (committed (Blockchain.chain s)))))
                       s []))
  /\ sumOfBalances addresses (Blockchain.chain s) = Finite 0.
Proof.
  intros Hnodup Hwhole Hvol Hcov.
  pose proof (volume_nonneg (committed (Blockchain.chain s))) as Hpos.
  assert (forall a, balanceOf a (Blockchain.chain s)
                    = Finite (net a (committed (Blockchain.chain s)))) as Hbal.
  { intros a. apply balanceOf_exact; [now apply whole_involving|].
    pose proof (volume_involving a (committed (Blockchain.chain s))). lia. }
  split.
  - intros a. rewrite getBalance_balanceOf. now rewrite Hbal.
  - unfold sumOfBalances, total.
    rewrite (map_ext _ (fun a => Finite (net a (committed (Blockchain.chain s))))) by exact Hbal.
    pose proof (net_magnitudes addresses (committed (Blockchain.chain s)) Hnodup) as Hmag.
    rewrite total_of_integers by (simpl; lia).
    rewrite net_sums_to_zero by assumption. reflexivity.
Qed.

Lemma balances_sum_to_zero_witness :
  (forall a, Blockchain.getBalance a Examples.constructedLedger
             = Some (Blockchain.mkOutcome
                       (Blockchain.Normal
                          (Finite (net a (committed
                                           (Blockchain.chain Examples.constructedLedger)))))
                       Examples.constructedLedger []))
  /\ sumOfBalances [None; Examples.alice; Examples.bob; Examples.minerX]
       (Blockchain.chain Examples.constructedLedger)
     = Finite 0.
Proof.
  assert (committed (Blockchain.chain Examples.constructedLedger)
          = [Transaction.new 1700000000001 Examples.alice Examples.bob (Finite 50);
             Transaction.mk None Examples.minerX (Finite 100) 1700000053870]) as Hc
    by (vm_compute; reflexivity).
  apply (balances_sum_to_zero Examples.constructedLedger
           [None; Examples.alice; Examples.bob; Examples.minerX]).
  - apply (bool_decide_unpack _). vm_compute. exact I.
  - rewrite Hc. repeat constructor.
  - rewrite Hc. vm_compute. discriminate.
  - unfold coversParties. rewrite Hc. repeat constructor.
Defined.

(** In the example, null is at -100, Alice at -50, Bob at 50, MinerX at 100. *)
Example constructedLedger_balances :
  map (fun a => balanceOf a (Blockchain.chain Examples.constructedLedger))
      [None; Examples.alice; Examples.bob; Examples.minerX]
  = [Finite (-100); Finite (-50); Finite 50; Finite 100].
Proof. vm_compute. reflexivity. Qed.

(** Beyond the exact range the balances need not add up to 0: in the ledger
    in which Bob is sent 2^53 and then 1 they add up to -1, and with 0.1 and
    0.2 to a small positive number. *)
Example rounded_balances_do_not_cancel :
  sumOfBalances
    [None; Examples.alice; Examples.bob; Examples.charlie; Examples.minerX]
    (Blockchain.chain Examples.roundedLedger)
  = Finite (-1)
  /\ Number.print
       (sumOfBalances
          [None; Examples.alice; Examples.bob; Examples.charlie; Examples.minerX]
          (Blockchain.chain Examples.fractionLedger))
     = "2.7755575615628914e-17"%string.
Proof. split; vm_compute; reflexivity. Qed.

(** One call on a chain that is not empty, seen from the balances. *)
Lemma perform_mine s s1 fuel blockTime rewardTime miner :
  Blockchain.chain s <> [] ->
  perform (MinePendingTransactions fuel blockTime rewardTime miner) s = Some s1 ->
  Blockchain.chain s1 <> []
  /\ Blockchain.miningReward s1 = Blockchain.miningReward s
  /\ Blockchain.pendingTransactions s1 = [rewardFor miner s rewardTime]
  /\ forall a, balanceOf a (Blockchain.chain s1)
               = fold_left (Blockchain.applyTransaction a)
                   (Blockchain.pendingTransactions s) (balanceOf a (Blockchain.chain s)).
Proof.
  intros Hne H. unfold perform in H. rewrite minePendingTransactions_unfold in H.
  destruct (lookup_lt_is_Some_2 (Blockchain.chain s) (length (Blockchain.chain s) - 1))
    as [lb Hlb].
  { destruct (Blockchain.chain s); [congruence | simpl; lia]. }
  rewrite Hlb in H. simpl in H.
  destruct (Block.search _ _ _) as [mined|] eqn:E; [|discriminate].
  injection H as <-. simpl.
  destruct (search_sameContent _ _ _ _ E) as (_ & _ & Htx & _). simpl in Htx.
  split; [|split; [reflexivity|split; [reflexivity|]]].
  - intros F. apply app_eq_nil in F. destruct F as [_ F]. discriminate F.
  - intros a. unfold balanceOf, committed.
    rewrite flat_map_app, fold_left_app. simpl. now rewrite app_nil_r, Htx.
Qed.

(** From a ledger whose pool is the miner's reward and whose balance for the
    miner is the integer [y]: each further call adds one reward. *)
Lemma rewards_accrue_from_pool (m : string) (r y : Z) (runs : list (nat * Z * Z))
    (s s' : Blockchain.t) (t : Z) :
  Blockchain.chain s <> [] ->
  Blockchain.miningReward s = Finite r ->
  Blockchain.pendingTransactions s = [Transaction.mk None (Some m) (Finite r) t] ->
  balanceOf (Some m) (Blockchain.chain s) = Finite y ->
  (Z.abs y + Z.of_nat (length runs) * Z.abs r <= 2 ^ 53)%Z ->
  performAll (miningCalls (Some m) runs) s = Some s' ->
  balanceOf (Some m) (Blockchain.chain s') = Finite (y + Z.of_nat (length runs) * r)
  /\ exists t', Blockchain.pendingTransactions s'
                = [Transaction.mk None (Some m) (Finite r) t'].
Proof.
  revert s t y. induction runs as [|run runs IH]; intros s t y Hne Hr Hp Hy Hb H.
  - simpl in H. injection H as <-. rewrite Hy. split; [f_equal; simpl; lia | eauto].
  - cbn [miningCalls map performAll] in H.
    destruct (perform _ s) as [s1|] eqn:E; [|discriminate].
    destruct (perform_mine _ _ _ _ _ _ Hne E) as (Hne1 & Hr1 & Hp1 & Hbal).
    fold (miningCalls (Some m) runs) in H.
    change (length (run :: runs)) with (S (length runs)) in *.
    assert (0 <= Z.of_nat (length runs) * Z.abs r)%Z as Hpos by lia.
    destruct (IH s1 (snd run) (y + r)%Z Hne1) as [Hb' Hp']; [congruence | | | | exact H |].
    + rewrite Hp1. unfold rewardFor. now rewrite Hr.
    + rewrite Hbal, Hp, Hy. simpl. unfold Blockchain.applyTransaction. simpl.
      rewrite String.eqb_refl. apply add_Finite; lia.
    + lia.
    + split; [|exact Hp']. rewrite Hb'. f_equal. lia.
Qed.

(** X18: rewards run one block behind.  On a chain that is not empty, in
    which the amounts that the miner sent or received, sealed and pending,
    are integers whose magnitudes, together with [n] times that of the mining
    reward, add up to at most 2^53 (so that no sum rounds): after [n + 1] calls of
    [minePendingTransactions] in a row for the same miner, a string, the
    miner's balance is the balance before with the pending transactions
    replayed on top of it, plus [n] times the mining reward, an exact
    integer; the reward of the last call is still pending. *)
Theorem rewards_accrue (s s' : Blockchain.t) (m : string) (r : Z)
    (run : nat * Z * Z) (runs : list (nat * Z * Z)) :
  Blockchain.chain s <> [] ->
  Blockchain.miningReward s = Finite r ->
  Forall wholeAmount
    (involving (Some m)
       (committed (Blockchain.chain s) ++ Blockchain.pendingTransactions s)) ->
  (volume (involving (Some m)
             (committed (Blockchain.chain s) ++ Blockchain.pendingTransactions s))
   + Z.of_nat (length runs) * Z.abs r <= 2 ^ 53)%Z ->
  performAll (miningCalls (Some m) (run :: runs)) s = Some s' ->
  Blockchain.getBalance (Some m) s'
  = Some (Blockchain.mkOutcome
            (Blockchain.Normal
               (Number.add
                  (fold_left (Blockchain.applyTransaction (Some m))
                     (Blockchain.pendingTransactions s)
                     (balanceOf (Some m) (Blockchain.chain s)))
                  (Finite (Z.of_nat (length runs) * r))))
            s' [])
  /\ Number.add
       (fold_left (Blockchain.applyTransaction (Some m))
          (Blockchain.pendingTransactions s)
          (balanceOf (Some m) (Blockchain.chain s)))
       (Finite (Z.of_nat (length runs) * r))
     = Finite (net (Some m)
                 (committed (Blockchain.chain s) ++ Blockchain.pendingTransactions s)
               + Z.of_nat (length runs) * r)
  /\ exists t, Blockchain.pendingTransactions s'
               = [Transaction.mk None (Some m) (Finite r) t].
Proof.
  intros Hne Hr Hwhole Hvol H. cbn [miningCalls map performAll] in H.
  destruct (perform _ s) as [s1|] eqn:E; [|discriminate].
  destruct (perform_mine _ _ _ _ _ _ Hne E) as (Hne1 & Hr1 & Hp1 & Hbal).
  fold (miningCalls (Some m) runs) in H.
  set (txs := committed (Blockchain.chain s) ++ Blockchain.pendingTransactions s) in *.
  pose proof (volume_nonneg (involving (Some m) txs)) as Hpos.
  assert (0 <= Z.of_nat (length runs) * Z.abs r)%Z as Hpos' by lia.
  destruct (replay_exact_involving (Some m) txs 0 Hwhole ltac:(lia)) as [Hreplay Hbound].
  unfold txs in Hreplay. rewrite fold_left_app in Hreplay.
  fold (balanceOf (Some m) (Blockchain.chain s)) in Hreplay. fold txs in Hreplay.
  simpl Z.add in Hreplay, Hbound.
  assert (Z.abs (Z.of_nat (length runs) * r) = Z.of_nat (length runs) * Z.abs r)%Z as Habs
    by (rewrite Z.abs_mul; lia).
  destruct (rewards_accrue_from_pool m r (net (Some m) txs) runs s1 s' (snd run) Hne1)
    as [Hb' Hp']; [congruence | | | | exact H |].
  - rewrite Hp1. unfold rewardFor. now rewrite Hr.
  - now rewrite Hbal.
  - lia.
  - rewrite Hreplay, add_Finite by lia.
    split; [|split; [reflexivity | exact Hp']].
    rewrite getBalance_balanceOf, Hb'. reflexivity.
Qed.

Lemma rewards_accrue_witness :
  exists s',
    performAll
      (miningCalls Examples.minerX [(200, 1003%Z, 1004%Z); (200, 1005%Z, 1006%Z);
                                    (200, 1007%Z, 1008%Z)])
      Examples.pendingLedger = Some s'
    /\ Blockchain.getBalance Examples.minerX s'
       = Some (Blockchain.mkOutcome (Blockchain.Normal (Finite 200)) s' []).
Proof.
  pose (runs := [(200, 1005%Z, 1006%Z); (200, 1007%Z, 1008%Z)] : list (nat * Z * Z)).
  pose (s' := default Examples.start
                (performAll (miningCalls Examples.minerX ((200, 1003%Z, 1004%Z) :: runs))
                   Examples.pendingLedger)).
  exists s'. split; [vm_compute; reflexivity|].
  destruct (rewards_accrue Examples.pendingLedger s' "MinerX" 100
              (200, 1003%Z, 1004%Z) runs ltac:(discriminate) eq_refl
              ltac:(repeat constructor) ltac:(vm_compute; discriminate)
              ltac:(vm_compute; reflexivity)) as (Hget & Hexact & _).
  refine (eq_trans Hget _). rewrite Hexact. reflexivity.
Defined.

(** ** Amounts that are not numbers *)

Lemma applyTransaction_nan a tx :
  Blockchain.applyTransaction a NaN tx = NaN.
Proof.
  unfold Blockchain.applyTransaction.
  destruct (strictEq (Transaction.sender tx) a), (strictEq (Transaction.recipient tx) a);
    reflexivity.
Qed.

Lemma replay_nan a txs : fold_left (Blockchain.applyTransaction a) txs NaN = NaN.
Proof.
  induction txs as [|tx txs IH]; simpl; [reflexivity|].
  now rewrite applyTransaction_nan.
Qed.

Lemma applyTransaction_nan_amount a x tx :
  Transaction.amount tx = NaN ->
  Transaction.sender tx = a \/ Transaction.recipient tx = a ->
  Blockchain.applyTransaction a x tx = NaN.
Proof.
  intros Hz Hparty. unfold Blockchain.applyTransaction. rewrite Hz.
  destruct (strictEq (Transaction.sender tx) a) eqn:Es,
           (strictEq (Transaction.recipient tx) a) eqn:Er.
  - destruct x; reflexivity.
  - destruct x; reflexivity.
  - destruct x; reflexivity.
  - exfalso. destruct Hparty as [H|H]; apply strictEq_eq in H; congruence.
Qed.

(** X20: the test [amount <= 0] of [addTransaction] is false of [NaN], so a
    transfer of [NaN] between two named parties is taken; and once a
    transaction with amount [NaN] is sealed in the chain, [getBalance] of its
    sender and of its recipient is [NaN], whatever else the chain holds
    before or after it. *)
Theorem nan_amount_poisons_balance :
  (forall now sender recipient,
     falsy sender = false -> falsy recipient = false ->
     accepted (Transaction.new now sender recipient NaN) = true)
  /\ (forall s a tx,
        tx ∈ committed (Blockchain.chain s) ->
        Transaction.amount tx = NaN ->
        Transaction.sender tx = a \/ Transaction.recipient tx = a ->
        Blockchain.getBalance a s
        = Some (Blockchain.mkOutcome (Blockchain.Normal NaN) s [])).
Proof.
  split.
  - intros now sender recipient Hs Hr. unfold accepted. simpl. now rewrite Hs, Hr.
  - intros s a tx Hin Hz Hparty. rewrite getBalance_balanceOf. unfold balanceOf.
    apply list_elem_of_split in Hin as (before & after & ->).
    rewrite fold_left_app. simpl.
    now rewrite (applyTransaction_nan_amount _ _ _ Hz Hparty), replay_nan.
Qed.

Lemma nan_amount_poisons_balance_witness :
  Examples.nanRun = Some Examples.nanLedger
  /\ Blockchain.getBalance Examples.bob Examples.nanLedger
     = Some (Blockchain.mkOutcome (Blockchain.Normal NaN) Examples.nanLedger []).
Proof.
  split; [vm_compute; reflexivity|].
  apply (proj2 nan_amount_poisons_balance Examples.nanLedger Examples.bob
           (Transaction.new 1001 Examples.alice Examples.bob NaN)).
  - replace (committed (Blockchain.chain Examples.nanLedger))
      with [Transaction.new 1001 Examples.alice Examples.bob NaN]
      by (vm_compute; reflexivity).
    constructor.
  - reflexivity.
  - right. reflexivity.
Defined.

(** ** The demo, end to end *)

(** One call of [minePendingTransactions] on a chain that is not empty, seen
    from the chain. *)
Lemma perform_mine_chain s s1 fuel blockTime rewardTime miner :
  Blockchain.chain s <> [] ->
  perform (MinePendingTransactions fuel blockTime rewardTime miner) s = Some s1 ->
  exists mined,
    s1 = Blockchain.mk (Blockchain.chain s ++ [mined]) (Blockchain.difficulty s)
           [rewardFor miner s rewardTime] (Blockchain.miningReward s)
    /\ Block.transactions mined = Blockchain.pendingTransactions s.
Proof.
  intros Hne H. unfold perform in H. rewrite minePendingTransactions_unfold in H.
  destruct (lookup_lt_is_Some_2 (Blockchain.chain s) (length (Blockchain.chain s) - 1))
    as [lb Hlb].
  { destruct (Blockchain.chain s); [congruence | simpl; lia]. }
  rewrite Hlb in H. simpl in H.
  destruct (Block.search _ _ _) as [mined|] eqn:E; [|discriminate].
  injection H as <-. exists mined. split; [reflexivity|].
  destruct (search_sameContent _ _ _ _ E) as (_ & _ & Htx & _). exact Htx.
Qed.

Lemma performAll_cons c calls s :
  performAll (c :: calls) s
  = match perform c s with
    | Some s' => performAll calls s'
    | None => None
    end.
Proof. reflexivity. Qed.

Lemma perform_accepted tx s :
  accepted tx = true ->
  perform (AddTransaction tx) s = Some (Blockchain.pushPending tx s).
Proof. intros H. now rewrite perform_addTransaction, H. Qed.

(** In a chain whose blocks all pass, an overwritten amount that changes the
    hash of block [i] is reported at [i]. *)
Lemma overwritten_amount_reported s i j v s' b tx :
  (forall k, 1 <= k < length (Blockchain.chain s) -> passes (Blockchain.chain s) k) ->
  1 <= i ->
  Blockchain.chain s !! i = Some b ->
  Block.transactions b !! j = Some tx ->
  Blockchain.tamper i j v s = Some s' ->
  JSON.ofNumber v <> JSON.ofNumber (Transaction.amount tx) ->
  (forall b', Block.setAmount j v b = Some b' -> ~ collide (preimageOf b') (preimageOf b)) ->
  Blockchain.validateChain s' = Some (report (Corrupted i) s').
Proof.
  intros Hall Hi Hb Htx Htamper Hprint Hsha.
  unfold Blockchain.tamper in Htamper. rewrite Hb in Htamper.
  destruct (Block.setAmount j v b) as [b'|] eqn:Hset; [|discriminate].
  injection Htamper as <-.
  apply (validateChain_report _ (Corrupted i)). simpl.
  pose proof (lookup_lt_Some _ _ _ Hb) as Hlt.
  rewrite length_insert. split; [lia|]. split.
  - intros k Hk. apply (passes_agree (Blockchain.chain s)).
    + apply list_lookup_insert_ne. lia.
    + apply list_lookup_insert_ne. lia.
    + apply Hall. lia.
  - exists b'. split; [now apply list_lookup_insert_eq|].
    assert (Block.hash b' = Block.hash b) as Hsame.
    { unfold Block.setAmount in Hset. rewrite Htx in Hset. now injection Hset as <-. }
    assert (Block.hash b = Block.calculateHash b) as Hsealed.
    { apply (passes_not_corrupted (Blockchain.chain s) i); [apply Hall; lia | exact Hb]. }
    rewrite Hsame, Hsealed. intros Heq.
    apply (Hsha b' eq_refl). split.
    + eapply preimage_setAmount; eassumption.
    + symmetry. exact Heq.
Qed.

(** X21: the demo, whatever the clock reads and however long the two
    searches take: if both blocks get mined, the chain has three blocks,
    MinerX's balance is 115 (one reward of 100, sealed in block 2, and
    Alice's 15; the second reward is still pending), the chain validates, and
    after [chain[1].transactions[0].amount = 100] validation fails with the
    hash-mismatch message for block 1, provided SHA-256 does not collide on
    the two serialisations of block 1. *)
Theorem demo_outcome (clock : nat -> Z) (fuel1 fuel2 : nat) (s : Blockchain.t) :
  performAll (demoCalls clock fuel1 fuel2) (Blockchain.new (clock 0)) = Some s ->
  length (Blockchain.chain s) = 3
  /\ Blockchain.getBalance Examples.minerX s
     = Some (Blockchain.mkOutcome (Blockchain.Normal (Finite 115)) s [])
  /\ Blockchain.pendingTransactions s
     = [Transaction.mk None Examples.minerX (Finite 100) (clock 8)]
  /\ Blockchain.validateChain s
     = Some (Blockchain.mkOutcome (Blockchain.Normal true) s [])
  /\ exists b s',
       Blockchain.chain s !! 1 = Some b
       /\ Blockchain.tamper 1 0 (Finite 100) s = Some s'
       /\ ((forall b', Block.setAmount 0 (Finite 100) b = Some b' ->
              ~ collide (preimageOf b') (preimageOf b)) ->
           Blockchain.validateChain s'
           = Some (Blockchain.mkOutcome (Blockchain.Normal false) s'
                     ["Block 1 data corrupted - hash mismatch"%string])).
Proof.
  intros H.
  assert (reachable s) as Hreach
    by (eapply reachable_performAll; [apply reachable_new | exact H]).
  unfold demoCalls in H.
  rewrite performAll_cons, perform_accepted in H by reflexivity.
  rewrite performAll_cons, perform_accepted in H by reflexivity.
  rewrite performAll_cons in H.
  destruct (perform (MinePendingTransactions fuel1 _ _ _) _) as [s1|] eqn:E1;
    [|discriminate].
  apply perform_mine_chain in E1 as (b1 & -> & Htx1); [|simpl; discriminate].
  rewrite performAll_cons, perform_accepted in H by reflexivity.
  rewrite performAll_cons, perform_accepted in H by reflexivity.
  rewrite performAll_cons in H.
  destruct (perform (MinePendingTransactions fuel2 _ _ _) _) as [s2|] eqn:E2;
    [|discriminate].
  apply perform_mine_chain in E2 as (b2 & -> & Htx2); [|simpl; discriminate].
  injection H as <-. simpl in Htx1, Htx2.
  split; [reflexivity|]. split.
  { rewrite getBalance_balanceOf. unfold balanceOf, committed. simpl.
    rewrite Htx1, Htx2. reflexivity. }
  split; [reflexivity|]. split; [now apply reachable_report_intact|].
  exists b1. eexists. split; [reflexivity|]. split.
  { unfold Blockchain.tamper, Block.setAmount. simpl. rewrite Htx1. reflexivity. }
  intros Hsha.
  match goal with |- Blockchain.validateChain ?x = _ => set (s' := x) end.
  apply (overwritten_amount_reported
           (Blockchain.mk [Blockchain.createGenesisBlock (clock 0); b1; b2] 4
              [rewardFor Examples.minerX
                 (Blockchain.mk [Blockchain.createGenesisBlock (clock 0); b1] 4
                    [Transaction.new (clock 5) Examples.charlie Examples.alice (Finite 10);
                     Transaction.new (clock 6) Examples.alice Examples.minerX (Finite 15)]
                    (Finite 100)) (clock 8)]
              (Finite 100))
           1 0 (Finite 100) s' b1
           (Transaction.new (clock 1) Examples.alice Examples.bob (Finite 50))).
  - apply (reachable_wellFormed _ Hreach).
  - lia.
  - reflexivity.
  - rewrite Htx1. reflexivity.
  - unfold Blockchain.tamper, Block.setAmount. simpl. rewrite Htx1. reflexivity.
  - intros Heq. vm_compute in Heq. discriminate Heq.
  - exact Hsha.
Qed.

Lemma demo_outcome_witness :
  length (Blockchain.chain luckyDemo) = 3
  /\ Blockchain.getBalance Examples.minerX luckyDemo
     = Some (Blockchain.mkOutcome (Blockchain.Normal (Finite 115)) luckyDemo [])
  /\ Blockchain.pendingTransactions luckyDemo
     = [Transaction.mk None Examples.minerX (Finite 100) 1700000046465]
  /\ Blockchain.validateChain luckyDemo
     = Some (Blockchain.mkOutcome (Blockchain.Normal true) luckyDemo [])
  /\ exists b s',
       Blockchain.chain luckyDemo !! 1 = Some b
       /\ Blockchain.tamper 1 0 (Finite 100) luckyDemo = Some s'
       /\ ((forall b', Block.setAmount 0 (Finite 100) b = Some b' ->
              ~ collide (preimageOf b') (preimageOf b)) ->
           Blockchain.validateChain s'
           = Some (Blockchain.mkOutcome (Blockchain.Normal false) s'
                     ["Block 1 data corrupted - hash mismatch"%string])).
Proof.
  apply (demo_outcome luckyClock 0 0 luckyDemo).
  vm_compute. reflexivity.
Defined.

(** Under the example clock the tampered demo chain is indeed rejected, and
    both blocks were mined at the constructor's difficulty with nonce 0. *)
Example luckyDemo_tampered :
  (Blockchain.completion <$>
     (Blockchain.tamper 1 0 (Finite 100) luckyDemo ≫= Blockchain.validateChain))
  = Some (Blockchain.Normal false)
  /\ map Block.nonce (Blockchain.chain luckyDemo) = [0; 0; 0]%N
  /\ Blockchain.difficulty luckyDemo = 4.
Proof. vm_compute. repeat split. Qed.
